(** * Voice-activity pipeline of plugin-livekit: a shallow embedding

    The development embeds the turn detector ([VoiceDetection]), the
    interruption monitor ([AudioMonitor]), the per-participant processing
    guard of [LiveKitService.processSpeechTurn] and the linear resampler
    [LiveKitService.resampleAudio]; then the rest of the transcription
    path ([convertPCMToWAV], the audio checks of [transcribeAudio]), the
    format and loudness helpers of [AudioConverter], [VoiceDetection] and
    [AudioManager], the queries and [reset] of the detector and of the
    monitor, and the listeners the service installs on a monitor.

    Modelling conventions
    - a Node [Buffer] is a [list byte];
    - a JavaScript [number] that holds a sample value, a threshold, a
      volume or a rate is an IEEE-754 binary64 [float] (Rocq's primitive
      floats, same rounding as JavaScript); counters, lengths and
      millisecond clock readings are integers and are kept in [Z];
    - a [Map<string, _>] is a [gmap string _];
    - a call that may raise returns a [result];
    - [Date.now()] is an input: every entry point (a frame arriving, a
      timer firing) receives the reading [now] of its invocation. *)

From Stdlib Require Import ZArith Floats SpecFloat Lia.
From Stdlib.Strings Require Import Byte.
From stdpp Require Import gmap strings list.

Open Scope Z_scope.
#[local] Set Warnings "-inexact-float".

(** ** Exceptions *)

Inductive error : Type :=
  | ERR_OUT_OF_RANGE
  | ERR_BUFFER_OUT_OF_BOUNDS.

Inductive result (A : Type) : Type :=
  | Ok (a : A)
  | Throw (e : error).
Arguments Ok {A} a.
Arguments Throw {A} e.

Definition rbind {A B} (r : result A) (k : A -> result B) : result B :=
  match r with
  | Ok a => k a
  | Throw e => Throw e
  end.

Notation "x <-! r ; k" := (rbind r (fun x => k))
  (at level 100, r at next level, right associativity).

(** [for]-loop over a list of indices, threading an accumulator and
    stopping at the first exception. *)
Fixpoint foldR {A S} (body : S -> A -> result S) (s : S) (l : list A)
  : result S :=
  match l with
  | [] => Ok s
  | a :: l' => s' <-! body s a ; foldR body s' l'
  end.

(** ** Numbers *)

Module Num.

(** Integer to binary64; exact below 2^53 in absolute value, which
    covers every sample value and every buffer length. *)
Definition of_Z (z : Z) : float :=
  if z <? 0 then PrimFloat.opp (PrimFloat.of_uint63 (Uint63.of_Z (- z)))
  else PrimFloat.of_uint63 (Uint63.of_Z z).

(** [a > b] and [a < b] on numbers (false when either side is NaN). *)
Definition gt (a b : float) : bool := PrimFloat.ltb b a.
Definition lt (a b : float) : bool := PrimFloat.ltb a b.

(** The signed mantissa of a finite, non-zero number
    [(-1)^s * m * 2^e]. *)
Definition signed (s : bool) (m : positive) : Z :=
  if s then Z.neg m else Z.pos m.

(** Largest integer below or equal to a finite number. *)
Definition floorZ (f : float) : option Z :=
  match Prim2SF f with
  | S754_zero _ => Some 0
  | S754_finite s m e =>
      Some (if 0 <=? e then signed s m * 2 ^ e
            else Z.shiftr (signed s m) (- e))
  | _ => None
  end.

(** Integer part of a finite number, towards zero. *)
Definition truncZ (f : float) : option Z :=
  match Prim2SF f with
  | S754_zero _ => Some 0
  | S754_finite s m e =>
      let a := if 0 <=? e then Z.pos m * 2 ^ e
               else Z.shiftr (Z.pos m) (- e) in
      Some (if s then - a else a)
  | _ => None
  end.

(** [Math.floor]: NaN, infinities and zeros are returned as they are;
    a finite number with a non-negative exponent is an integer. *)
Definition Math_floor (f : float) : float :=
  match Prim2SF f with
  | S754_finite s m e =>
      if 0 <=? e then f else of_Z (Z.shiftr (signed s m) (- e))
  | _ => f
  end.

(** [Math.round]: the nearest integer, ties towards positive
    infinity, that is [floor (x + 1/2)] computed without rounding;
    a negative argument that rounds to zero gives [-0]. *)
Definition Math_round (f : float) : float :=
  match Prim2SF f with
  | S754_finite s m e =>
      if 0 <=? e then f
      else
        let z := Z.shiftr (2 * signed s m + 2 ^ (- e)) (- e + 1) in
        if (z =? 0) && s then (-0)%float else of_Z z
  | _ => f
  end.

End Num.

(** ** Buffers *)

Abbreviation Buffer := (list byte).

Definition blen (b : Buffer) : Z := Z.of_nat (length b).

Definition byte_val (x : byte) : Z := Z.of_N (Byte.to_N x).

(** Two's-complement reading of a 16-bit word. *)
Definition to_int16 (w : Z) : Z := if w <? 32768 then w else w - 65536.

(** Node's [boundsError(value, length)] for an integer [value]:
    ERR_BUFFER_OUT_OF_BOUNDS when [length], the largest offset the
    access admits, is negative (the buffer is too short for any
    access of the width), ERR_OUT_OF_RANGE otherwise. *)
Definition boundsError (length : Z) : error :=
  if length <? 0 then ERR_BUFFER_OUT_OF_BOUNDS else ERR_OUT_OF_RANGE.

(** [buf.readInt16LE(offset)] for an integer offset: when [buf[offset]]
    or [buf[offset + 1]] is undefined, Node calls
    [boundsError(offset, buf.length - 2)]. *)
Definition readInt16LE (buf : Buffer) (offset : Z) : result Z :=
  if offset <? 0 then Throw (boundsError (blen buf - 2))
  else match buf !! Z.to_nat offset, buf !! Z.to_nat (offset + 1) with
       | Some lo, Some hi => Ok (to_int16 (byte_val lo + 256 * byte_val hi))
       | _, _ => Throw (boundsError (blen buf - 2))
       end.

Definition byte_of_Z (z : Z) : byte :=
  match Byte.of_N (Z.to_N (z mod 256)) with
  | Some b => b
  | None => x00
  end.

(** The two bytes stored by [buf.writeInt16LE(value, _)]: [value] and
    [value >>> 8], each kept modulo 256 (NaN is stored as 0). *)
Definition int16LE (value : float) : list byte :=
  let z := match Num.truncZ value with Some z => z | None => 0 end in
  [byte_of_Z z; byte_of_Z (Z.shiftr z 8)].

(** [buf.writeInt16LE(value, offset)]: [checkInt] raises
    ERR_OUT_OF_RANGE when the value lies outside the int16 range, then
    calls [boundsError(offset, buf.length - 2)] when one of the two
    bytes does not exist. *)
Definition writeInt16LE (buf : Buffer) (value : float) (offset : Z)
  : result Buffer :=
  if Num.gt value 32767%float || Num.lt value (-32768)%float
  then Throw ERR_OUT_OF_RANGE
  else if (offset <? 0) || (blen buf <? offset + 2)
  then Throw (boundsError (blen buf - 2))
  else Ok (take (Z.to_nat offset) buf ++ int16LE value
             ++ drop (Z.to_nat offset + 2) buf).

(** The largest length of a buffer: [buffer.constants.MAX_LENGTH] of a
    64-bit Node. *)
Definition kMaxLength : Z := 2 ^ 53 - 1.

(** [Buffer.alloc(size)] for an integer size: a zero-filled buffer; a
    size that is negative or above [kMaxLength] raises. *)
Definition Buffer_alloc (size : Z) : result Buffer :=
  if (size <? 0) || (kMaxLength <? size) then Throw ERR_OUT_OF_RANGE
  else Ok (repeat x00 (Z.to_nat size)).

(** A loop body run on every element of a list, collecting the
    results, stopping at the first exception. *)
Fixpoint mapR {A B} (f : A -> result B) (l : list A) : result (list B) :=
  match l with
  | [] => Ok []
  | a :: l' => b <-! f a ; bs <-! mapR f l' ; Ok (b :: bs)
  end.

(** The offsets visited by [for (let i = 0; i < len; i += 2)]. *)
Definition even_offsets (len : nat) : list Z :=
  (fun k => 2 * Z.of_nat k) <$> seq 0 (Nat.div2 (len + 1)).

(** ** FrameAnalyzer: RMS of a PCM16 frame *)

Definition sampleCount (buffer : Buffer) : Z := blen buffer / 2.

(** Loop body shared by [VoiceDetection.calculateRMS] and
    [AudioMonitor.calculateVolume]. *)
Definition rms_body (buffer : Buffer) (sumSquares : float) (i : Z)
  : result float :=
  sample <-! readInt16LE buffer i ;
  let normalizedSample := PrimFloat.div (Num.of_Z sample) 32768%float in
  Ok (PrimFloat.add sumSquares (PrimFloat.mul normalizedSample normalizedSample)).

Definition sumSquares_loop (buffer : Buffer) : result float :=
  foldR (rms_body buffer) 0%float (even_offsets (length buffer)).

(** [VoiceDetection.calculateRMS] *)
Definition calculateRMS (buffer : Buffer) : result float :=
  if blen buffer <? 2 then Ok 0%float
  else
    sumSquares <-! sumSquares_loop buffer ;
    Ok (PrimFloat.sqrt (PrimFloat.div sumSquares (Num.of_Z (sampleCount buffer)))).

(** [AudioMonitor.calculateVolume]: the same computation, written a
    second time in the source. *)
Definition calculateVolume (buffer : Buffer) : result float :=
  if blen buffer <? 2 then Ok 0%float
  else
    sumSquares <-! sumSquares_loop buffer ;
    Ok (PrimFloat.sqrt (PrimFloat.div sumSquares (Num.of_Z (sampleCount buffer)))).


(** The divisor of the one division by the sample count, on the paths
    that reach it. *)
Definition rms_divisor (buffer : Buffer) : option Z :=
  if blen buffer <? 2 then None else Some (sampleCount buffer).

(** ** TurnDetector: [class VoiceDetection] *)

Module VoiceDetection.

Record VoiceActivityState : Type := mkState {
  isSpeaking : bool;
  speechStartTime : Z;
  speechEndTime : Z;
  buffers : list Buffer;
  totalLength : Z;
  lastActivity : Z;
  speechFrameCount : Z;
  silenceFrameCount : Z
}.

Record VoiceDetectionConfig : Type := mkConfig {
  silenceThreshold : float;
  speechThreshold : float;
  minSpeechDuration : Z;
  maxSpeechDuration : Z;
  silenceFramesRequired : Z;
  speechFramesRequired : Z;
  debounceThreshold : Z;
  frameSize : Z;
  sampleRate : Z
}.

(** The defaults of the constructor. *)
Definition defaultConfig : VoiceDetectionConfig :=
  {| silenceThreshold := 0.01; speechThreshold := 0.05;
     minSpeechDuration := 500; maxSpeechDuration := 10000;
     silenceFramesRequired := 20; speechFramesRequired := 3;
     debounceThreshold := 1500; frameSize := 160; sampleRate := 16000 |}.

(** [VoiceDetectionEvents]; ['silenceDetected'] is declared by the
    source and emitted nowhere. *)
Inductive Event : Type :=
  | speechStarted (participantId : string)
  | speechEnded (participantId : string) (audioBuffer : Buffer)
  | speechTurn (participantId : string) (audioBuffer : Buffer) (duration : Z)
  | silenceDetected (participantId : string).

(** A [NodeJS.Timeout] handle kept in [debounceTimers]: the instant at
    which the runtime may run its callback, and whether [clearTimeout]
    was called on it.  Every [setTimeout] of the class happens after
    the previous handle of the same participant was cleared, so one
    handle per participant describes the runtime's timer queue. *)
Record Timer : Type := mkTimer { due : Z; cleared : bool }.

Record t : Type := mkVD {
  participantStates : gmap string VoiceActivityState;
  debounceTimers : gmap string Timer;
  processingFlags : gmap string bool
}.

Definition empty : t := mkVD ∅ ∅ ∅.

(** How a call ended. *)
Inductive completion : Type :=
  | Normal
  | Thrown (e : error).

(** Field writes on the state object of a participant.  The source
    passes the object itself ([state]); it is the object stored under
    [participantId], so a write is an update of that map entry. *)
Definition upd (participantId : string)
    (f : VoiceActivityState -> VoiceActivityState) (vd : t) : t :=
  mkVD (alter f participantId (participantStates vd))
       (debounceTimers vd) (processingFlags vd).

Definition set_timers (m : gmap string Timer) (vd : t) : t :=
  mkVD (participantStates vd) m (processingFlags vd).

Definition set_flag (participantId : string) (b : bool) (vd : t) : t :=
  mkVD (participantStates vd) (debounceTimers vd)
       (<[participantId := b]> (processingFlags vd)).

(** [this.processingFlags.get(participantId)] used as a condition. *)
Definition flag (participantId : string) (vd : t) : bool :=
  match processingFlags vd !! participantId with
  | Some b => b
  | None => false
  end.

Definition initialState (now : Z) : VoiceActivityState :=
  {| isSpeaking := false; speechStartTime := 0; speechEndTime := 0;
     buffers := []; totalLength := 0; lastActivity := now;
     speechFrameCount := 0; silenceFrameCount := 0 |}.

Definition initializeParticipantState (participantId : string) (now : Z)
    (vd : t) : t :=
  mkVD (<[participantId := initialState now]> (participantStates vd))
       (debounceTimers vd)
       (<[participantId := false]> (processingFlags vd)).

(** *** Assignments to the fields of a state object *)

(** [state.isSpeaking = true; state.speechStartTime = Date.now()] *)
Definition start_speaking (now : Z) (st : VoiceActivityState)
  : VoiceActivityState :=
  {| isSpeaking := true; speechStartTime := now;
     speechEndTime := speechEndTime st;
     buffers := buffers st; totalLength := totalLength st;
     lastActivity := lastActivity st;
     speechFrameCount := speechFrameCount st;
     silenceFrameCount := silenceFrameCount st |}.

(** [state.buffers = []; state.totalLength = 0;
    state.speechFrameCount = 0; state.silenceFrameCount = 0] *)
Definition clear_turn (st : VoiceActivityState) : VoiceActivityState :=
  {| isSpeaking := isSpeaking st; speechStartTime := speechStartTime st;
     speechEndTime := speechEndTime st;
     buffers := []; totalLength := 0;
     lastActivity := lastActivity st;
     speechFrameCount := 0; silenceFrameCount := 0 |}.

(** [state.isSpeaking = false] *)
Definition stop_speaking (st : VoiceActivityState) : VoiceActivityState :=
  {| isSpeaking := false; speechStartTime := speechStartTime st;
     speechEndTime := speechEndTime st;
     buffers := buffers st; totalLength := totalLength st;
     lastActivity := lastActivity st;
     speechFrameCount := speechFrameCount st;
     silenceFrameCount := silenceFrameCount st |}.

(** [state.speechEndTime = Date.now()] *)
Definition end_at (now : Z) (st : VoiceActivityState) : VoiceActivityState :=
  {| isSpeaking := isSpeaking st; speechStartTime := speechStartTime st;
     speechEndTime := now;
     buffers := buffers st; totalLength := totalLength st;
     lastActivity := lastActivity st;
     speechFrameCount := speechFrameCount st;
     silenceFrameCount := silenceFrameCount st |}.

(** The seven assignments of [resetParticipantState]. *)
Definition reset_fields (st : VoiceActivityState) : VoiceActivityState :=
  {| isSpeaking := false; speechStartTime := 0; speechEndTime := 0;
     buffers := []; totalLength := 0; lastActivity := lastActivity st;
     speechFrameCount := 0; silenceFrameCount := 0 |}.

(** [state.buffers.push(audioBuffer); state.totalLength +=
    audioBuffer.length; state.lastActivity = Date.now()] *)
Definition push_frame (audioBuffer : Buffer) (now : Z)
    (st : VoiceActivityState) : VoiceActivityState :=
  {| isSpeaking := isSpeaking st; speechStartTime := speechStartTime st;
     speechEndTime := speechEndTime st;
     buffers := buffers st ++ [audioBuffer];
     totalLength := totalLength st + blen audioBuffer;
     lastActivity := now;
     speechFrameCount := speechFrameCount st;
     silenceFrameCount := silenceFrameCount st |}.

Definition resetParticipantState (participantId : string) (vd : t) : t :=
  upd participantId reset_fields vd.

Definition maxBufferSize : Z := 10 * 1024 * 1024.

(** The [while] loop of [manageBufferSize]: one [shift] per turn, as
    long as the total is above the ceiling and more than one buffer is
    left. *)
Fixpoint manageBufferSize_loop (bufs : list Buffer) (total : Z)
  : list Buffer * Z :=
  match bufs with
  | removedBuffer :: ((_ :: _) as rest) =>
      if maxBufferSize <? total
      then manageBufferSize_loop rest (total - blen removedBuffer)
      else (bufs, total)
  | _ => (bufs, total)
  end.

Definition manageBufferSize (st : VoiceActivityState) : VoiceActivityState :=
  let r := manageBufferSize_loop (buffers st) (totalLength st) in
  {| isSpeaking := isSpeaking st; speechStartTime := speechStartTime st;
     speechEndTime := speechEndTime st;
     buffers := r.1; totalLength := r.2;
     lastActivity := lastActivity st;
     speechFrameCount := speechFrameCount st;
     silenceFrameCount := silenceFrameCount st |}.

(** [buffer.toString('ascii', from, to)] as character codes: the
    decoder drops the high bit of every byte. *)
Definition ascii_slice (buffer : Buffer) (from to : nat) : list Z :=
  (fun x => Z.land (byte_val x) 127) <$> take (to - from) (drop from buffer).

Definition RIFF : list Z := [82; 73; 70; 70].
Definition WAVE : list Z := [87; 65; 86; 69].

Definition isValidAudioBuffer (buffer : Buffer) : bool :=
  if blen buffer <? 1024 then false
  else if (12 <? blen buffer) && bool_decide (ascii_slice buffer 0 4 = RIFF)
  then bool_decide (ascii_slice buffer 8 12 = WAVE)
  else 2048 <=? blen buffer.

(** What the environment can do to a detector: deliver a frame, let
    the runtime run the debounce timer of a participant, or call
    [cleanup]. *)
Inductive Action : Type :=
  | Frame (participantId : string) (audioBuffer : Buffer) (now : Z)
  | Fire (participantId : string) (now : Z)
  | Cleanup (participantId : option string).

(** The entries of the three maps under one participant. *)
Record Cell : Type := mkCell {
  c_state : option VoiceActivityState;
  c_timer : option Timer;
  c_flag : option bool
}.

Definition view (participantId : string) (vd : t) : Cell :=
  mkCell (participantStates vd !! participantId)
         (debounceTimers vd !! participantId)
         (processingFlags vd !! participantId).

Definition c_upd (f : VoiceActivityState -> VoiceActivityState) (c : Cell)
  : Cell :=
  mkCell (f <$> c_state c) (c_timer c) (c_flag c).

Definition c_set_timer (tm : option Timer) (c : Cell) : Cell :=
  mkCell (c_state c) tm (c_flag c).

Definition c_set_flag (b : option bool) (c : Cell) : Cell :=
  mkCell (c_state c) (c_timer c) b.

Definition c_flagged (c : Cell) : bool :=
  match c_flag c with
  | Some b => b
  | None => false
  end.

Definition c_empty : Cell := mkCell None None None.

Section Detector.

Variable config : VoiceDetectionConfig.

Definition handleSpeechStart (participantId : string) (now : Z) (vd : t)
  : t * list Event :=
  if flag participantId vd then (vd, [])
  else
    let vd := upd participantId (start_speaking now) vd in
    (* clearTimeout(existingTimer); debounceTimers.delete(id) *)
    let vd := set_timers (delete participantId (debounceTimers vd)) vd in
    let vd := upd participantId clear_turn vd in
    (vd, [speechStarted participantId]).

Definition setupDebouncedProcessing (participantId : string) (now : Z)
    (vd : t) : t :=
  (* clearTimeout(existingTimer): the handle stays in the map *)
  let vd := set_timers
    (alter (fun tm => mkTimer (due tm) true) participantId
           (debounceTimers vd)) vd in
  if flag participantId vd then resetParticipantState participantId vd
  else
    set_timers
      (<[participantId := mkTimer (now + debounceThreshold config) false]>
         (debounceTimers vd)) vd.

Definition handlePotentialSpeechEnd (participantId : string) (now : Z)
    (vd : t) : t :=
  let vd := upd participantId stop_speaking vd in
  setupDebouncedProcessing participantId now vd.

(** The outcome of [processSpeechTurn] on the content [state] of the
    state object: [None] for the three silent discards, otherwise
    the buffer and the duration of the two events. *)
Definition turn_of (state : VoiceActivityState) (now : Z)
  : option (Buffer * Z) :=
  let speechDuration := now - speechStartTime state in
  if speechDuration <? minSpeechDuration config then None
  else if (Z.of_nat (length (buffers state)) =? 0)
          || (totalLength state =? 0)
  then None
  else
    let completeAudioBuffer := concat (buffers state) in
    if negb (isValidAudioBuffer completeAudioBuffer) then None
    else Some (completeAudioBuffer, speechDuration).

(** [processSpeechTurn(participantId, state)]; [state] is the content
    of the participant's state object when the call is made. *)
Definition processSpeechTurn (participantId : string)
    (state : VoiceActivityState) (now : Z) (vd : t) : t * list Event :=
  match turn_of state now with
  | None => (resetParticipantState participantId vd, [])
  | Some (completeAudioBuffer, speechDuration) =>
      let vd := upd participantId (end_at now) vd in
      (resetParticipantState participantId vd,
       [speechEnded participantId completeAudioBuffer;
        speechTurn participantId completeAudioBuffer speechDuration])
  end.

(** The frame counters after classifying one frame. *)
Definition count_frame (rms : float) (st : VoiceActivityState)
  : VoiceActivityState :=
  let isSpeechFrame := Num.gt rms (speechThreshold config) in
  let isSilenceFrame := Num.lt rms (silenceThreshold config) in
  {| isSpeaking := isSpeaking st; speechStartTime := speechStartTime st;
     speechEndTime := speechEndTime st;
     buffers := buffers st; totalLength := totalLength st;
     lastActivity := lastActivity st;
     speechFrameCount :=
       if isSpeechFrame then speechFrameCount st + 1
       else if isSilenceFrame then 0 else speechFrameCount st;
     silenceFrameCount :=
       if isSpeechFrame then 0
       else if isSilenceFrame then silenceFrameCount st + 1
       else silenceFrameCount st |}.

(** Which of the three branches closing [processAudioFrame] is
    taken on a state. *)
Inductive Branch : Type :=
  | SpeechStart
  | PotentialSpeechEnd
  | MaxDuration
  | NoBranch.

Definition branch (state : VoiceActivityState) (now : Z) : Branch :=
  if negb (isSpeaking state)
     && (speechFramesRequired config <=? speechFrameCount state)
  then SpeechStart
  else if isSpeaking state
          && (silenceFramesRequired config <=? silenceFrameCount state)
  then PotentialSpeechEnd
  else if isSpeaking state
  then
    let speechDuration := now - speechStartTime state in
    if maxSpeechDuration config <? speechDuration
    then MaxDuration else NoBranch
  else NoBranch.

(** The part of [processAudioFrame] after the frame was buffered and
    counted: start of speech, end of speech, or forced cut-off. *)
Definition dispatch (participantId : string) (now : Z) (vd : t)
  : t * list Event :=
  match participantStates vd !! participantId with
  | None => (vd, [])
  | Some state =>
      match branch state now with
      | SpeechStart => handleSpeechStart participantId now vd
      | PotentialSpeechEnd =>
          (handlePotentialSpeechEnd participantId now vd, [])
      | MaxDuration => processSpeechTurn participantId state now vd
      | NoBranch => (vd, [])
      end
  end.

Definition processAudioFrame (participantId : string)
    (audioBuffer : Buffer) (now : Z) (vd : t)
  : t * list Event * completion :=
  let vd :=
    match participantStates vd !! participantId with
    | Some _ => vd
    | None => initializeParticipantState participantId now vd
    end in
  match calculateRMS audioBuffer with
  | Throw e => (vd, [], Thrown e)
  | Ok rms =>
      let vd := upd participantId (fun st =>
        count_frame rms (manageBufferSize (push_frame audioBuffer now st)))
        vd in
      (dispatch participantId now vd, Normal)
  end.

(** The callback given to [setTimeout].  Its [state] is the object
    that was current when the timer was set; the object of a
    participant is replaced only by [cleanup], which clears the
    timer, so a callback that runs reads the current object. *)
Definition timerCallback (participantId : string) (now : Z) (vd : t)
  : t * list Event :=
  match participantStates vd !! participantId with
  | None => (vd, [])
  | Some state =>
      let vd := set_flag participantId true vd in
      let r := processSpeechTurn participantId state now vd in
      let vd := set_flag participantId false r.1 in
      (set_timers (delete participantId (debounceTimers vd)) vd, r.2)
  end.

(** The runtime running the timer of a participant at [now]: only a
    handle that was not cleared and whose delay has elapsed fires. *)
Definition fireTimer (participantId : string) (now : Z) (vd : t)
  : t * list Event :=
  match debounceTimers vd !! participantId with
  | Some tm =>
      if negb (cleared tm) && (due tm <=? now)
      then timerCallback participantId now vd
      else (vd, [])
  | None => (vd, [])
  end.

(** [cleanup(participantId?)]: an absent or empty identifier takes
    the clean-everything branch. *)
Definition cleanup (participantId : option string) (vd : t) : t :=
  match participantId with
  | Some p =>
      if bool_decide (p = EmptyString) then empty
      else mkVD (delete p (participantStates vd))
                (delete p (debounceTimers vd))
                (delete p (processingFlags vd))
  | None => empty
  end.

(** One action of the environment on the detector, with the
    events it makes the detector emit. *)
Definition step (a : Action) (vd : t) : t * list Event :=
  match a with
  | Frame p b now => (processAudioFrame p b now vd).1
  | Fire p now => fireTimer p now vd
  | Cleanup p => (cleanup p vd, [])
  end.

Fixpoint run (acts : list Action) (vd : t) : t * list Event :=
  match acts with
  | [] => (vd, [])
  | a :: acts' =>
      let r := step a vd in
      let r' := run acts' r.1 in
      (r'.1, r.2 ++ r'.2)
  end.

(** Frames of one participant, each with the clock reading of its
    arrival. *)
Definition frames (participantId : string) (fs : list (Buffer * Z))
  : list Action :=
  (fun f => Frame participantId f.1 f.2) <$> fs.


Definition is_silence_frame (audioBuffer : Buffer) : Prop :=
  exists rms, calculateRMS audioBuffer = Ok rms /\
              Num.gt rms (speechThreshold config) = false /\
              Num.lt rms (silenceThreshold config) = true.

(** *** The same methods, read on the cell of the participant

    Every method touches the three maps under [participantId] only;
    these functions give its effect on that cell. *)

Definition c_handleSpeechStart (participantId : string) (now : Z)
    (c : Cell) : Cell * list Event :=
  if c_flagged c then (c, [])
  else (c_upd clear_turn (c_set_timer None (c_upd (start_speaking now) c)),
        [speechStarted participantId]).

Definition c_setupDebouncedProcessing (now : Z) (c : Cell) : Cell :=
  let c := c_set_timer
    ((fun tm => mkTimer (due tm) true) <$> c_timer c) c in
  if c_flagged c then c_upd reset_fields c
  else c_set_timer (Some (mkTimer (now + debounceThreshold config) false)) c.

Definition c_processSpeechTurn (participantId : string)
    (state : VoiceActivityState) (now : Z) (c : Cell) : Cell * list Event :=
  match turn_of state now with
  | None => (c_upd reset_fields c, [])
  | Some (completeAudioBuffer, speechDuration) =>
      (c_upd reset_fields (c_upd (end_at now) c),
       [speechEnded participantId completeAudioBuffer;
        speechTurn participantId completeAudioBuffer speechDuration])
  end.

Definition c_dispatch (participantId : string) (now : Z) (c : Cell)
  : Cell * list Event :=
  match c_state c with
  | None => (c, [])
  | Some state =>
      match branch state now with
      | SpeechStart => c_handleSpeechStart participantId now c
      | PotentialSpeechEnd =>
          (c_setupDebouncedProcessing now (c_upd stop_speaking c), [])
      | MaxDuration => c_processSpeechTurn participantId state now c
      | NoBranch => (c, [])
      end
  end.

Definition c_processAudioFrame (participantId : string)
    (audioBuffer : Buffer) (now : Z) (c : Cell) : Cell * list Event :=
  let c :=
    match c_state c with
    | Some _ => c
    | None => mkCell (Some (initialState now)) (c_timer c) (Some false)
    end in
  match calculateRMS audioBuffer with
  | Throw e => (c, [])
  | Ok rms =>
      c_dispatch participantId now
        (c_upd (fun st => count_frame rms
                  (manageBufferSize (push_frame audioBuffer now st))) c)
  end.

Definition c_fireTimer (participantId : string) (now : Z) (c : Cell)
  : Cell * list Event :=
  match c_timer c with
  | Some tm =>
      if negb (cleared tm) && (due tm <=? now)
      then
        match c_state c with
        | None => (c, [])
        | Some state =>
            let r := c_processSpeechTurn participantId state now
                       (c_set_flag (Some true) c) in
            (c_set_timer None (c_set_flag (Some false) r.1), r.2)
        end
      else (c, [])
  | None => (c, [])
  end.

(** The effect of an action on the cell of [q]. *)
Definition c_step (a : Action) (q : string) (c : Cell)
  : Cell * list Event :=
  match a with
  | Frame p b now =>
      if decide (p = q) then c_processAudioFrame q b now c else (c, [])
  | Fire p now =>
      if decide (p = q) then c_fireTimer q now c else (c, [])
  | Cleanup (Some p) =>
      if bool_decide (p = EmptyString) then (c_empty, [])
      else if decide (p = q) then (c_empty, []) else (c, [])
  | Cleanup None => (c_empty, [])
  end.

(** The state after a frame was buffered and counted. *)
Definition counted (rms : float) (b : Buffer) (now : Z)
    (st : VoiceActivityState) : VoiceActivityState :=
  count_frame rms (manageBufferSize (push_frame b now st)).



(** A participant in a turn that started at [t0], whose last [k]
    frames were silence. *)
Definition silent_for (k t0 : Z) (c : Cell) : Prop :=
  c_flagged c = false /\
  exists st, c_state c = Some st /\ isSpeaking st = true /\
             speechStartTime st = t0 /\ silenceFrameCount st = k.

(** A participant whose turn, started at [t0], waits for the debounce
    timer due at [t]. *)
Definition debouncing (t0 t : Z) (c : Cell) : Prop :=
  c_timer c = Some (mkTimer t false) /\
  exists st, c_state c = Some st /\ speechStartTime st = t0.

(** Between two actions no turn is being processed, and a timer that
    can still fire belongs to a participant whose state object is in
    the map (the object its callback captured). *)
Definition quiescent (c : Cell) : Prop :=
  c_flagged c = false /\
  (forall tm, c_timer c = Some tm -> cleared tm = false ->
              is_Some (c_state c)).

(** The participant has a state object and no turn of theirs is being
    processed. *)
Definition settled (c : Cell) : Prop :=
  c_flagged c = false /\ is_Some (c_state c).

(** A run of actions, seen from the cell of [q]: the final cell
    and the events of [q]. *)
Fixpoint c_run (acts : list Action) (q : string) (c : Cell)
  : Cell * list Event :=
  match acts with
  | [] => (c, [])
  | a :: acts' =>
      let r := c_step a q c in
      let r' := c_run acts' q r.1 in
      (r'.1, r.2 ++ r'.2)
  end.

(** Delivery on time: a frame comes at most [g] ms after the previous
    frame of its participant, a timer runs at most [l] ms after it is
    due. *)
Definition timely (g l : Z) (a : Action) (vd : t) : Prop :=
  match a with
  | Frame p _ now =>
      forall st, participantStates vd !! p = Some st ->
                 now <= lastActivity st + g
  | Fire p now =>
      forall tm, debounceTimers vd !! p = Some tm -> now <= due tm + l
  | Cleanup _ => True
  end.

Fixpoint well_timed (g l : Z) (acts : list Action) (vd : t) : Prop :=
  match acts with
  | [] => True
  | a :: acts' => timely g l a vd /\ well_timed g l acts' (step a vd).1
  end.

(** The same conditions, computed. *)
Definition timelyb (g l : Z) (a : Action) (vd : t) : bool :=
  match a with
  | Frame p _ now =>
      match participantStates vd !! p with
      | Some st => now <=? lastActivity st + g
      | None => true
      end
  | Fire p now =>
      match debounceTimers vd !! p with
      | Some tm => now <=? due tm + l
      | None => true
      end
  | Cleanup _ => true
  end.

Fixpoint well_timedb (g l : Z) (acts : list Action) (vd : t) : bool :=
  match acts with
  | [] => true
  | a :: acts' => timelyb g l a vd && well_timedb g l acts' (step a vd).1
  end.

(** The same condition on the cell of [q]. *)
Definition c_timely (g l : Z) (a : Action) (q : string) (c : Cell) : Prop :=
  match a with
  | Frame p _ now =>
      p = q -> forall st, c_state c = Some st -> now <= lastActivity st + g
  | Fire p now =>
      p = q -> forall tm, c_timer c = Some tm -> now <= due tm + l
  | Cleanup _ => True
  end.

(** What holds of a cell between two actions: a speaking participant
    was last heard within [maxSpeechDuration] of the start of its turn;
    a timer that can still fire belongs to a participant that is known
    and not speaking, and is due at most
    [maxSpeechDuration + g + debounceThreshold] after the start of the
    turn. *)
Definition turn_inv (g : Z) (c : Cell) : Prop :=
  (forall st, c_state c = Some st -> isSpeaking st = true ->
     lastActivity st - speechStartTime st <= maxSpeechDuration config) /\
  (forall tm, c_timer c = Some tm -> cleared tm = false ->
     exists st, c_state c = Some st /\ isSpeaking st = false /\
       due tm - speechStartTime st
       <= maxSpeechDuration config + g + debounceThreshold config).

End Detector.




(** A 10 ms frame at 16 kHz, every sample 16384: RMS 0.5. *)
Definition loud_frame : Buffer := concat (repeat [x00; x40] 160).

(** A 10 ms frame at 16 kHz, every sample 164: RMS about 0.005. *)
Definition quiet_frame : Buffer := concat (repeat [xa4; x00] 160).


(** [n] frames [b], the first at [t0 + dt], one every [dt] ms. *)
Definition every (dt : Z) (b : Buffer) (t0 : Z) (n : nat)
  : list (Buffer * Z) :=
  (fun k => (b, t0 + dt * Z.of_nat (S k))) <$> seq 0 n.

(** The durations of the [speechTurn] events of a trace. *)
Definition turn_durations (es : list Event) : list Z :=
  flat_map (fun e => match e with speechTurn _ _ d => [d] | _ => [] end) es.

Definition started (es : list Event) : list string :=
  flat_map (fun e => match e with speechStarted p => [p] | _ => [] end) es.


(** Frames every 100 ms: three loud ones start a turn at 200 ms, loud
    ones go on until 8300 ms, then twenty quiet ones; the debounce
    timer, set by the last of them at 10300 ms, fires when due. *)
Definition long_turn : list Action :=
  frames "alice" (every 100 loud_frame (-100) 3
                  ++ every 100 loud_frame 200 81
                  ++ every 100 quiet_frame 8300 20)
  ++ [Fire "alice" 11800].

(** The defaults, with 150 silence frames required (1.5 s of 10 ms
    frames). *)
Definition silence_config : VoiceDetectionConfig :=
  {| silenceThreshold := 0.01; speechThreshold := 0.05;
     minSpeechDuration := 500; maxSpeechDuration := 10000;
     silenceFramesRequired := 150; speechFramesRequired := 3;
     debounceThreshold := 1500; frameSize := 160; sampleRate := 16000 |}.

(** Three loud frames at 0, 10 and 20 ms, then 150 quiet frames, the
    last at 1520 ms. *)
Definition silence_scenario : list (Buffer * Z) :=
  every 10 loud_frame (-10) 3 ++ every 10 quiet_frame 20 150.

(** The detector after the three loud frames of the scenario: speech
    has started at 20 ms. *)
Definition speech_started : t :=
  (run silence_config (frames "alice" (every 10 loud_frame (-10) 3)) empty).1.

(** The state of the participant after the 150 quiet frames. *)
Definition after_silence : VoiceActivityState :=
  {| isSpeaking := false; speechStartTime := 20; speechEndTime := 0;
     buffers := repeat quiet_frame 150; totalLength := 48000;
     lastActivity := 1520;
     speechFrameCount := 0; silenceFrameCount := 150 |}.


Definition event_participant (e : Event) : string :=
  match e with
  | speechStarted p | speechEnded p _ | speechTurn p _ _
  | silenceDetected p => p
  end.

End VoiceDetection.

(** ** InterruptionMonitor: [class AudioMonitor] *)

Module AudioMonitor.

Record AudioMonitorConfig : Type := mkConfig {
  frameSize : Z;
  sampleRate : Z;
  channels : Z;
  silenceThreshold : float;
  speechThreshold : float;
  maxBufferDuration : Z;
  volumeWindowSize : Z;
  speakingThreshold : float;
  minSpeechDuration : Z;
  maxSpeechDuration : Z;
  debounceThreshold : Z;
  silenceFramesRequired : Z;
  speechFramesRequired : Z
}.

Definition defaultConfig : AudioMonitorConfig :=
  {| frameSize := 160; sampleRate := 16000; channels := 1;
     silenceThreshold := 0.01; speechThreshold := 0.05;
     maxBufferDuration := 30000; volumeWindowSize := 10;
     speakingThreshold := 0.1;
     minSpeechDuration := 100; maxSpeechDuration := 30000;
     debounceThreshold := 100;
     silenceFramesRequired := 3; speechFramesRequired := 3 |}.

(** The configuration handed to [new VoiceDetection] by the
    constructor. *)
Definition detectionConfig (c : AudioMonitorConfig)
  : VoiceDetection.VoiceDetectionConfig :=
  {| VoiceDetection.silenceThreshold := silenceThreshold c;
     VoiceDetection.speechThreshold := speechThreshold c;
     VoiceDetection.minSpeechDuration := minSpeechDuration c;
     VoiceDetection.maxSpeechDuration := maxSpeechDuration c;
     VoiceDetection.silenceFramesRequired := silenceFramesRequired c;
     VoiceDetection.speechFramesRequired := speechFramesRequired c;
     VoiceDetection.debounceThreshold := debounceThreshold c;
     VoiceDetection.frameSize := frameSize c;
     VoiceDetection.sampleRate := sampleRate c |}.

Record ParticipantState : Type := mkPState {
  isSpeaking : bool;
  startTime : Z;
  lastActivity : Z
}.

(** [AudioMonitorEvents] *)
Inductive Event : Type :=
  | speakingStarted (participantId : string)
  | speakingStopped (participantId : string) (audioBuffer : Buffer)
  | volumeDetected (participantId : string) (volume : float)
  | interruptionDetected (participantId : string).

(** One entry of the trace of a call: an event of the inner detector
    or an event of the monitor, in emission order (listeners run
    synchronously inside [emit]). *)
Inductive Emitted : Type :=
  | detector (e : VoiceDetection.Event)
  | monitor (e : Event).

Record t : Type := mkAM {
  voiceDetection : VoiceDetection.t;
  volumeBuffers : gmap string (list float);
  isMonitoring : bool;
  participantBuffers : gmap string (list Buffer);
  participantStates : gmap string ParticipantState
}.

Definition empty : t := mkAM VoiceDetection.empty ∅ false ∅ ∅.

Definition set_detection (vd : VoiceDetection.t) (am : t) : t :=
  mkAM vd (volumeBuffers am) (isMonitoring am) (participantBuffers am)
       (participantStates am).

Definition set_volumes (m : gmap string (list float)) (am : t) : t :=
  mkAM (voiceDetection am) m (isMonitoring am) (participantBuffers am)
       (participantStates am).

Definition set_states (m : gmap string ParticipantState) (am : t) : t :=
  mkAM (voiceDetection am) (volumeBuffers am) (isMonitoring am)
       (participantBuffers am) m.

Definition handleSpeechStarted (participantId : string) (now : Z) (am : t)
  : t * list Emitted :=
  match participantStates am !! participantId with
  | Some state =>
      if negb (isSpeaking state)
      then
        (mkAM (voiceDetection am) (volumeBuffers am) (isMonitoring am)
              (<[participantId := []]> (participantBuffers am))
              (<[participantId := mkPState true now (lastActivity state)]>
                 (participantStates am)),
         [monitor (speakingStarted participantId)])
      else (am, [])
  | None => (am, [])
  end.

Definition handleSpeechEnded (participantId : string) (audioBuffer : Buffer)
    (am : t) : t * list Emitted :=
  match participantStates am !! participantId with
  | Some state =>
      if isSpeaking state
      then
        (set_states
           (<[participantId :=
                mkPState false (startTime state) (lastActivity state)]>
              (participantStates am)) am,
         [monitor (speakingStopped participantId audioBuffer)])
      else (am, [])
  | None => (am, [])
  end.

(** The listeners installed by [setupVoiceDetectionEvents]. *)
Definition listener (e : VoiceDetection.Event) (now : Z) (am : t)
  : t * list Emitted :=
  match e with
  | VoiceDetection.speechStarted p => handleSpeechStarted p now am
  | VoiceDetection.speechEnded p b => handleSpeechEnded p b am
  | VoiceDetection.speechTurn p b _ => (am, [monitor (speakingStopped p b)])
  | VoiceDetection.silenceDetected _ => (am, [])
  end.

(** Delivery of the detector's events: each one is followed in the
    trace by what its listener emitted. *)
Fixpoint deliver (es : list VoiceDetection.Event) (now : Z) (am : t)
  : t * list Emitted :=
  match es with
  | [] => (am, [])
  | e :: es' =>
      let r := listener e now am in
      let r' := deliver es' now (fst r) in
      (fst r', detector e :: snd r ++ snd r')
  end.

Inductive Action : Type :=
  | Start (participantId : string) (now : Z)
  | Stop (participantId : string)
  | Frame (participantId : string) (audioBuffer : Buffer) (now : Z)
  | Fire (participantId : string) (now : Z).

Section Monitor.

Variable config : AudioMonitorConfig.

Definition startMonitoring (participantId : string) (now : Z) (am : t)
  : t :=
  match participantStates am !! participantId with
  | Some _ =>
      mkAM (voiceDetection am) (volumeBuffers am) true
           (participantBuffers am) (participantStates am)
  | None =>
      mkAM (voiceDetection am)
           (<[participantId := []]> (volumeBuffers am))
           true
           (<[participantId := []]> (participantBuffers am))
           (<[participantId := mkPState false 0 now]>
              (participantStates am))
  end.

Definition stopMonitoring (participantId : string) (am : t) : t :=
  let states := delete participantId (participantStates am) in
  mkAM (VoiceDetection.cleanup (Some participantId) (voiceDetection am))
       (delete participantId (volumeBuffers am))
       (if bool_decide (size states = 0%nat) then false
        else isMonitoring am)
       (delete participantId (participantBuffers am))
       states.

(** [reduce((sum, v) => sum + v, 0) / length] *)
Definition average (volumeBuffer : list float) : float :=
  PrimFloat.div (fold_left PrimFloat.add volumeBuffer 0%float)
                (Num.of_Z (Z.of_nat (length volumeBuffer))).

Definition updateVolumeBuffer (participantId : string) (volume : float)
    (am : t) : t :=
  let volumeBuffer :=
    match volumeBuffers am !! participantId with
    | Some vb => vb
    | None => []
    end in
  let pushed := volumeBuffer ++ [volume] in
  let kept :=
    if volumeWindowSize config <? Z.of_nat (length pushed)
    then tail pushed else pushed in
  set_volumes (<[participantId := kept]> (volumeBuffers am)) am.

Definition checkForInterruption (participantId : string) (am : t)
  : t * list Emitted :=
  match volumeBuffers am !! participantId with
  | None => (am, [])
  | Some volumeBuffer =>
      if Z.of_nat (length volumeBuffer) <? volumeWindowSize config
      then (am, [])
      else
        let avgVolume := average volumeBuffer in
        if Num.gt avgVolume (speakingThreshold config)
        then (set_volumes (<[participantId := []]> (volumeBuffers am)) am,
              [monitor (interruptionDetected participantId)])
        else (am, [])
  end.

Definition processAudioFrame (participantId : string)
    (audioBuffer : Buffer) (now : Z) (am : t)
  : t * list Emitted * VoiceDetection.completion :=
  match participantStates am !! participantId with
  | None => (am, [], VoiceDetection.Normal)
  | Some state =>
      if negb (isMonitoring am) then (am, [], VoiceDetection.Normal)
      else
        let am := set_states
          (<[participantId :=
               mkPState (isSpeaking state) (startTime state) now]>
             (participantStates am)) am in
        match calculateVolume audioBuffer with
        | Throw e => (am, [], VoiceDetection.Thrown e)
        | Ok volume =>
            let am := updateVolumeBuffer participantId volume am in
            let r1 := checkForInterruption participantId am in
            let am := fst r1 in
            let '(vd, es, c) :=
              VoiceDetection.processAudioFrame (detectionConfig config)
                participantId audioBuffer now (voiceDetection am) in
            let r2 := deliver es now (set_detection vd am) in
            match c with
            | VoiceDetection.Thrown e =>
                (fst r2, snd r1 ++ snd r2, VoiceDetection.Thrown e)
            | VoiceDetection.Normal =>
                (fst r2,
                 snd r1 ++ snd r2
                   ++ [monitor (volumeDetected participantId volume)],
                 VoiceDetection.Normal)
            end
        end
  end.

(** A debounce timer of the inner detector firing: its events reach
    the monitor's listeners. *)
Definition fireTimer (participantId : string) (now : Z) (am : t)
  : t * list Emitted :=
  let r := VoiceDetection.fireTimer (detectionConfig config)
             participantId now (voiceDetection am) in
  deliver (snd r) now (set_detection (fst r) am).

(** What the environment can do to a monitor. *)
Definition step (a : Action) (am : t) : t * list Emitted :=
  match a with
  | Start p now => (startMonitoring p now am, [])
  | Stop p => (stopMonitoring p am, [])
  | Frame p b now => (processAudioFrame p b now am).1
  | Fire p now => fireTimer p now am
  end.

Fixpoint run (acts : list Action) (am : t) : t * list Emitted :=
  match acts with
  | [] => (am, [])
  | a :: acts' =>
      let r := step a am in
      let r' := run acts' r.1 in
      (r'.1, r.2 ++ r'.2)
  end.

End Monitor.

(** The participant an emitted event is about. *)
Definition emitted_participant (e : Emitted) : string :=
  match e with
  | detector e' => VoiceDetection.event_participant e'
  | monitor (speakingStarted p) | monitor (speakingStopped p _)
  | monitor (volumeDetected p _) | monitor (interruptionDetected p) => p
  end.

(** The volume window of a participant. *)
Definition window_of (p : string) (am : t) : list float :=
  match volumeBuffers am !! p with
  | Some w => w
  | None => []
  end.

(** The number of frames delivered for [p] by a list of actions. *)
Fixpoint frames_of (p : string) (acts : list Action) : Z :=
  match acts with
  | [] => 0
  | Frame q _ _ :: acts' =>
      (if decide (q = p) then 1 else 0) + frames_of p acts'
  | _ :: acts' => frames_of p acts'
  end.

(** A participant the monitor does not know and of which the detector
    keeps nothing: no state, no timer, no flag. *)
Definition stopped (p : string) (am : t) : Prop :=
  participantStates am !! p = None /\
  VoiceDetection.view p (voiceDetection am) = VoiceDetection.c_empty.

(** A monitored participant who spoke (three loud frames) and fell
    silent (three quiet frames): the debounce timer set at 50 ms is
    pending, due at 150 ms. *)
Definition mid_debounce : t :=
  (run defaultConfig
     (Start "alice" 0
      :: ((fun f => Frame "alice" f.1 f.2)
            <$> (VoiceDetection.every 10 VoiceDetection.loud_frame (-10) 3
                 ++ VoiceDetection.every 10 VoiceDetection.quiet_frame 20 3)))
     empty).1.

(** A monitored participant after nine loud frames. *)
Definition nine_loud : list Action :=
  Start "alice" 0
  :: ((fun f => Frame "alice" f.1 f.2)
        <$> VoiceDetection.every 10 VoiceDetection.loud_frame (-10) 9).

(** No [startMonitoring] of [p] among the actions. *)
Definition never_started (p : string) (acts : list Action) : Prop :=
  Forall (fun a => match a with Start q _ => q <> p | _ => True end) acts.

End AudioMonitor.

(** ** PipelineCoordinator: [class LiveKitService] *)

Module LiveKitService.

(** *** [resampleAudio]

    Sample indices, byte offsets and the output length are integers and
    are kept in [Z]; a double holds them exactly (they are below
    [2^53]), so is their doubling.  The rates, the ratio, the
    fractional source index and the interpolation are in binary64. *)

Section Resample.

Variable inputBuffer : Buffer.
Variables fromRate toRate : float.

Definition ratio : float := PrimFloat.div fromRate toRate.

(** [inputBuffer.length / 2]: half-integral for an odd length. *)
Definition inputSamples : float :=
  PrimFloat.div (Num.of_Z (blen inputBuffer)) 2%float.

(** [Math.floor(inputSamples / ratio)]; [None] when the quotient is
    NaN or infinite. *)
Definition outputSamples : option Z :=
  Num.floorZ (PrimFloat.div inputSamples ratio).

(** The value written at output index [i]: the interpolation of the
    two input samples around [i * ratio], or the last input sample. *)
Definition output_sample (i : Z) : result float :=
  let srcIndex := PrimFloat.mul (Num.of_Z i) ratio in
  let srcIndexInt := Num.Math_floor srcIndex in
  let srcIndexFrac := PrimFloat.sub srcIndex srcIndexInt in
  if Num.lt srcIndexInt (PrimFloat.sub inputSamples 1%float)
  then
    match Num.floorZ srcIndex with
    | Some k =>
        sample1 <-! readInt16LE inputBuffer (k * 2) ;
        sample2 <-! readInt16LE inputBuffer ((k + 1) * 2) ;
        Ok (Num.Math_round
              (PrimFloat.add
                 (PrimFloat.mul (Num.of_Z sample1)
                                (PrimFloat.sub 1%float srcIndexFrac))
                 (PrimFloat.mul (Num.of_Z sample2) srcIndexFrac)))
    | None =>
        (* an infinite offset: no byte exists there *)
        Throw (boundsError (blen inputBuffer - 2))
    end
  else
    (* (inputSamples - 1) * 2 is length - 2 *)
    lastSample <-! readInt16LE inputBuffer (blen inputBuffer - 2) ;
    Ok (Num.of_Z lastSample).

(** One turn of the [for] loop. *)
Definition resample_body (outputBuffer : Buffer) (i : Z) : result Buffer :=
  value <-! output_sample i ;
  writeInt16LE outputBuffer value (i * 2).

Definition resampleAudio : result Buffer :=
  if PrimFloat.eqb fromRate toRate then Ok inputBuffer
  else
    match outputSamples with
    | Some n =>
        outputBuffer <-! Buffer_alloc (n * 2) ;
        foldR resample_body outputBuffer (seqZ 0 n)
    | None => Throw ERR_OUT_OF_RANGE
    end.

(** The loop of [resampleAudio] read as a map over the output indices:
    the writes into the zero-filled buffer, in index order, amount to
    concatenating the two bytes of each value; the exceptions are those
    of the loop. *)
Definition encode_sample (value : float) : result (list byte) :=
  if Num.gt value 32767%float || Num.lt value (-32768)%float
  then Throw ERR_OUT_OF_RANGE
  else Ok (int16LE value).

Definition resampleAudio_mapped : result Buffer :=
  if PrimFloat.eqb fromRate toRate then Ok inputBuffer
  else
    match outputSamples with
    | Some n =>
        if (n * 2 <? 0) || (kMaxLength <? n * 2) then Throw ERR_OUT_OF_RANGE
        else
          samples <-! mapR (fun i => value <-! output_sample i ;
                                     encode_sample value) (seqZ 0 n) ;
          Ok (concat samples)
    | None => Throw ERR_OUT_OF_RANGE
    end.

End Resample.

(** *** The per-participant processing guard *)

Record UserState : Type := mkUser {
  isProcessing : bool;
  lastActivity : Z;
  buffers : list Buffer
}.

(** The service, as far as turn hand-off goes: the user states and
    the calls made to [transcribeAudio], oldest first. *)
Record t : Type := mkService {
  userStates : gmap string UserState;
  transcribeCalls : list (string * Buffer)
}.

(** Listener of ['speakingStarted']. *)
Definition onSpeakingStarted (participantId : string) (now : Z) (s : t) : t :=
  let isProc :=
    match userStates s !! participantId with
    | Some u => isProcessing u
    | None => false
    end in
  mkService (<[participantId := mkUser isProc now []]> (userStates s))
            (transcribeCalls s).

(** [processSpeechTurn] up to its first [await]: the two early
    returns, then the flag is raised and [transcribeAudio] is
    called. *)
Definition processSpeechTurn (participantId : string) (audioBuffer : Buffer)
    (s : t) : t :=
  match userStates s !! participantId with
  | None => s
  | Some userState =>
      if isProcessing userState then s
      else
        mkService
          (<[participantId :=
               mkUser true (lastActivity userState) (buffers userState)]>
             (userStates s))
          (transcribeCalls s ++ [(participantId, audioBuffer)])
  end.

(** The [finally] block, run when the awaited work of the turn in
    flight has settled. *)
Definition processSpeechTurn_finally (participantId : string) (s : t) : t :=
  mkService
    (alter (fun u => mkUser false (lastActivity u) (buffers u))
           participantId (userStates s))
    (transcribeCalls s).

(** What can happen to the service. *)
Inductive Action : Type :=
  | SpeakingStarted (participantId : string) (now : Z)
  | TurnFinalized (participantId : string) (audioBuffer : Buffer)
  | TurnSettled (participantId : string).

Definition step (a : Action) (s : t) : t :=
  match a with
  | SpeakingStarted p now => onSpeakingStarted p now s
  | TurnFinalized p b => processSpeechTurn p b s
  | TurnSettled p => processSpeechTurn_finally p s
  end.

Definition run (acts : list Action) (s : t) : t :=
  fold_left (fun s a => step a s) acts s.

Definition empty : t := mkService ∅ [].

(** The turns finalized by a list of actions, in order of arrival. *)
Definition finalized (acts : list Action) : list (string * Buffer) :=
  flat_map (fun a => match a with
                     | TurnFinalized p b => [(p, b)]
                     | _ => []
                     end) acts.

(** A participant starts speaking; a first turn is finalized and
    handed to transcription; a second turn is finalized while the first
    is in flight; the first settles, and the service is idle again. *)
Definition overlapping_turns : list Action :=
  [SpeakingStarted "alice" 0;
   TurnFinalized "alice" [x01; x00];
   TurnFinalized "alice" [x02; x00];
   TurnSettled "alice"].

End LiveKitService.

(** ** Integers held in binary64 *)

(** The binary64 that holds a positive integer below [2^53]: the
    mantissa shifted to 53 bits. *)
Definition SF_of_pos (p : positive) : spec_float :=
  match 53 - Z.pos (digits2_pos p) with
  | Z.pos k => S754_finite false (Pos.iter xO p k) (- Z.pos k)
  | _ => S754_finite false p 0
  end.

(** ** More of Node's [Buffer] *)

(** The bytes kept by the stores [buf[offset++] = value] and
    [value = value >>> 8] of the unsigned writers: the low bytes of the
    integer part, least significant first. *)
Definition uintLE (byteLength : nat) (z : Z) : list byte :=
  (fun k => byte_of_Z (Z.shiftr z (8 * Z.of_nat k))) <$> seq 0 byteLength.

(** [buf.writeUInt16LE(value, offset)] and
    [buf.writeUInt32LE(value, offset)]: [checkInt] raises when the
    value is above the largest unsigned integer of the width or below
    0, then calls [boundsError(offset, buf.length - byteLength)] when
    the bytes do not all exist; a fraction is cut by the
    stores and NaN, which passes both comparisons, is stored as 0. *)
Definition writeUIntLE (byteLength : nat) (buf : Buffer) (value : float)
    (offset : Z) : result Buffer :=
  let max := 2 ^ (8 * Z.of_nat byteLength) - 1 in
  if Num.gt value (Num.of_Z max) || Num.lt value 0%float
  then Throw ERR_OUT_OF_RANGE
  else if (offset <? 0) || (blen buf <? offset + Z.of_nat byteLength)
  then Throw (boundsError (blen buf - Z.of_nat byteLength))
  else
    let z := match Num.truncZ value with Some z => z | None => 0 end in
    Ok (take (Z.to_nat offset) buf ++ uintLE byteLength z
          ++ drop (Z.to_nat offset + byteLength) buf).

Definition writeUInt16LE : Buffer -> float -> Z -> result Buffer :=
  writeUIntLE 2.

Definition writeUInt32LE : Buffer -> float -> Z -> result Buffer :=
  writeUIntLE 4.

(** [buf.write(string, offset)] for an ASCII string: the offset must
    lie within the buffer; the bytes that fit are written. *)
Definition Buffer_write (buf : Buffer) (s : string) (offset : Z)
  : result Buffer :=
  if (offset <? 0) || (blen buf <? offset) then Throw ERR_OUT_OF_RANGE
  else
    let written :=
      take (length buf - Z.to_nat offset) (String.list_byte_of_string s) in
    Ok (take (Z.to_nat offset) buf ++ written
          ++ drop (Z.to_nat offset + length written) buf).

(** The unsigned integer a run of bytes holds, least significant byte
    first. *)
Fixpoint le_value (bs : list byte) : Z :=
  match bs with
  | [] => 0
  | b :: bs' => byte_val b + 256 * le_value bs'
  end.

(** The offsets visited by [for (let i = 1; i < len; i += 2)]. *)
Definition odd_offsets (len : nat) : list Z :=
  (fun k => 2 * Z.of_nat k + 1) <$> seq 0 (Nat.div2 len).

(** The samples of an even-length PCM16 buffer. *)
Fixpoint samples (buffer : Buffer) : list Z :=
  match buffer with
  | lo :: hi :: rest =>
      to_int16 (byte_val lo + 256 * byte_val hi) :: samples rest
  | _ => []
  end.

(** A loop that reads the sample at every even offset and folds it
    into an accumulator with [f]: the shape of the loops of
    [isLoudEnough], [calculateRms], [getAverageAudioValue] and
    [getMaxAudioValue]. *)
Definition reading {S : Type} (f : S -> Z -> S) (buffer : Buffer) (acc : S)
    (i : Z) : result S :=
  sample <-! readInt16LE buffer i ; Ok (f acc sample).

(** ** [class AudioConverter] *)

Module AudioConverter.

Inductive AudioFormat : Type :=
  | mp3
  | wav
  | pcm.

(** [detectAudioFormat]: the first four bytes, decoded as ASCII,
    against ['RIFF']; then the MPEG frame sync in the first two. *)
Definition detectAudioFormat (buffer : Buffer) : AudioFormat :=
  if blen buffer <? 4 then pcm
  else
    let header := VoiceDetection.ascii_slice (take 4 buffer) 0 4 in
    if bool_decide (header = VoiceDetection.RIFF) then wav
    else
      match buffer !! 0%nat, buffer !! 1%nat with
      | Some b0, Some b1 =>
          if (byte_val b0 =? 255) && (Z.land (byte_val b1) 224 =? 224)
          then mp3 else pcm
      | _, _ => pcm
      end.

End AudioConverter.

(** ** The static utilities of [class VoiceDetection] *)

Module VoiceDetectionStatic.

(** Loop body of [isLoudEnough]: [sum += Math.abs(sample)]. *)
Definition abs_body (pcmBuffer : Buffer) (sum : float) (i : Z)
  : result float :=
  sample <-! readInt16LE pcmBuffer i ;
  Ok (PrimFloat.add sum (Num.of_Z (Z.abs sample))).

(** [isLoudEnough(pcmBuffer, threshold = 1000)] *)
Definition isLoudEnough (pcmBuffer : Buffer) (threshold : option float)
  : result bool :=
  let threshold := match threshold with Some t => t | None => 1000%float end in
  if blen pcmBuffer <? 2 then Ok false
  else
    sum <-! foldR (abs_body pcmBuffer) 0%float
                  (even_offsets (length pcmBuffer)) ;
    let avgAmplitude := PrimFloat.div sum (Num.of_Z (sampleCount pcmBuffer)) in
    Ok (Num.gt avgAmplitude threshold).

(** Loop body of [calculateRms]: [sumSquares += sample * sample], on
    the samples as they are read. *)
Definition square_body (pcmBuffer : Buffer) (sumSquares : float) (i : Z)
  : result float :=
  sample <-! readInt16LE pcmBuffer i ;
  Ok (PrimFloat.add sumSquares
        (PrimFloat.mul (Num.of_Z sample) (Num.of_Z sample))).

(** [calculateRms(pcmBuffer)] *)
Definition calculateRms (pcmBuffer : Buffer) : result float :=
  if blen pcmBuffer <? 2 then Ok 0%float
  else
    sumSquares <-! foldR (square_body pcmBuffer) 0%float
                         (even_offsets (length pcmBuffer)) ;
    Ok (PrimFloat.sqrt
          (PrimFloat.div sumSquares (Num.of_Z (sampleCount pcmBuffer)))).

(** [containsSpeech(pcmBuffer, options = {})]: [minAmplitude] is the
    only option read; it defaults to 1000. *)
Definition containsSpeech (pcmBuffer : Buffer) (minAmplitude : option float)
  : result bool :=
  let minAmplitude :=
    match minAmplitude with Some a => a | None => 1000%float end in
  isLoudEnough pcmBuffer (Some minAmplitude).

End VoiceDetectionStatic.

(** ** [class AudioManager] *)

Module AudioManager.

Record AudioSettings : Type := mkSettings {
  sampleRate : float;
  channels : float;
  frameDurationMs : float;
  volumeThreshold : option float
}.

(** The settings of the constructor. *)
Definition defaultSettings : AudioSettings :=
  {| sampleRate := 48000; channels := 1; frameDurationMs := 100;
     volumeThreshold := Some 1000%float |}.

(** [isLoudEnough(pcmBuffer, threshold?)]:
    [threshold ?? this.settings.volumeThreshold ?? 1000]. *)
Definition isLoudEnough (settings : AudioSettings) (pcmBuffer : Buffer)
    (threshold : option float) : result bool :=
  let resolved :=
    match threshold with
    | Some t => t
    | None =>
        match volumeThreshold settings with
        | Some t => t
        | None => 1000%float
        end
    end in
  VoiceDetectionStatic.isLoudEnough pcmBuffer (Some resolved).

Definition detectAudioFormat (buffer : Buffer)
  : AudioConverter.AudioFormat :=
  AudioConverter.detectAudioFormat buffer.

End AudioManager.

(** ** [LiveKitService]: from a turn's audio to the transcription
    request *)

Module Transcription.

Inductive ByteOrder : Type :=
  | LE
  | BE.

(** One turn of the byte-swapping loop:
    [processedBuffer[i] = pcmBuffer[i + 1]], where a byte that does
    not exist is stored as 0, then
    [processedBuffer[i + 1] = pcmBuffer[i]], a store that is ignored
    past the end of the buffer. *)
Definition swap_body (pcmBuffer processedBuffer : Buffer) (i : Z) : Buffer :=
  let n := Z.to_nat i in
  let processedBuffer :=
    <[n := match pcmBuffer !! S n with Some b => b | None => x00 end]>
      processedBuffer in
  <[S n := match pcmBuffer !! n with Some b => b | None => x00 end]>
    processedBuffer.

(** [convertPCMToWAV(pcmBuffer, sampleRate, channels, bitsPerSample,
    byteOrder)] *)
Definition convertPCMToWAV (pcmBuffer : Buffer)
    (sampleRate channels bitsPerSample : float) (byteOrder : ByteOrder)
  : result Buffer :=
  processedBuffer <-!
    match byteOrder with
    | BE =>
        processedBuffer <-! Buffer_alloc (blen pcmBuffer) ;
        Ok (fold_left (swap_body pcmBuffer)
                      (even_offsets (length pcmBuffer)) processedBuffer)
    | LE => Ok pcmBuffer
    end ;
  let byteRate :=
    PrimFloat.mul (PrimFloat.mul sampleRate channels)
                  (PrimFloat.div bitsPerSample 8%float) in
  let blockAlign :=
    PrimFloat.mul channels (PrimFloat.div bitsPerSample 8%float) in
  let dataSize := blen processedBuffer in
  let fileSize := 36 + dataSize in
  header <-! Buffer_alloc 44 ;
  header <-! Buffer_write header "RIFF" 0 ;
  header <-! writeUInt32LE header (Num.of_Z fileSize) 4 ;
  header <-! Buffer_write header "WAVE" 8 ;
  header <-! Buffer_write header "fmt " 12 ;
  header <-! writeUInt32LE header 16%float 16 ;
  header <-! writeUInt16LE header 1%float 20 ;
  header <-! writeUInt16LE header channels 22 ;
  header <-! writeUInt32LE header sampleRate 24 ;
  header <-! writeUInt32LE header byteRate 28 ;
  header <-! writeUInt16LE header blockAlign 32 ;
  header <-! writeUInt16LE header bitsPerSample 34 ;
  header <-! Buffer_write header "data" 36 ;
  header <-! writeUInt32LE header (Num.of_Z dataSize) 40 ;
  (* Buffer.concat([header, processedBuffer]) *)
  Ok (header ++ processedBuffer).

Definition tolerance : Z := 10.

(** The loop of [checkAudioVariation], which starts at offset 1. *)
Fixpoint variation_loop (audioBuffer : Buffer) (firstValue : Z)
    (offsets : list Z) : result bool :=
  match offsets with
  | [] => Ok false
  | i :: offsets' =>
      currentValue <-! readInt16LE audioBuffer i ;
      if tolerance <? Z.abs (currentValue - firstValue) then Ok true
      else variation_loop audioBuffer firstValue offsets'
  end.

Definition checkAudioVariation (audioBuffer : Buffer) : result bool :=
  firstValue <-! readInt16LE audioBuffer 0 ;
  variation_loop audioBuffer firstValue (odd_offsets (length audioBuffer)).

Definition getAverageAudioValue (audioBuffer : Buffer) : result float :=
  sum <-! foldR (VoiceDetectionStatic.abs_body audioBuffer) 0%float
                (even_offsets (length audioBuffer)) ;
  Ok (PrimFloat.div sum
        (PrimFloat.div (Num.of_Z (blen audioBuffer)) 2%float)).

(** Loop body of [getMaxAudioValue]; the values compared are
    integers. *)
Definition max_body (audioBuffer : Buffer) (max : Z) (i : Z) : result Z :=
  sample <-! readInt16LE audioBuffer i ;
  let value := Z.abs sample in
  Ok (if max <? value then value else max).

Definition getMaxAudioValue (audioBuffer : Buffer) : result Z :=
  foldR (max_body audioBuffer) 0 (even_offsets (length audioBuffer)).

Definition WHISPER_SAMPLE_RATE : float := 16000.

(** [this.config.audioConfig?.sampleRate || 48000]: an absent rate, 0
    and NaN give 48000. *)
Definition originalSampleRate (sampleRate : option float) : float :=
  match sampleRate with
  | Some r =>
      if PrimFloat.eqb r 0%float || negb (PrimFloat.eqb r r)
      then 48000%float else r
  | None => 48000%float
  end.

(** [transcribeAudio] up to the call of the transcription model:
    [Ok (Some wav)] when the model is called, with [wav]; [Ok None]
    when the audio is taken for silence and [null] is returned;
    [Throw] when an exception reaches the [catch], which also returns
    [null]. *)
Definition transcribeAudio_request (audioBuffer : Buffer)
    (sampleRate : option float) : result (option Buffer) :=
  let originalSampleRate := originalSampleRate sampleRate in
  hasVariation <-! checkAudioVariation audioBuffer ;
  averageValue <-! getAverageAudioValue audioBuffer ;
  maxValue <-! getMaxAudioValue audioBuffer ;
  if negb hasVariation || (maxValue <? 100) then Ok None
  else
    processedBuffer <-!
      (if negb (PrimFloat.eqb originalSampleRate WHISPER_SAMPLE_RATE)
       then LiveKitService.resampleAudio audioBuffer originalSampleRate
              WHISPER_SAMPLE_RATE
       else Ok audioBuffer) ;
    wavBuffer <-! convertPCMToWAV processedBuffer WHISPER_SAMPLE_RATE
                    1%float 16%float LE ;
    Ok (Some wavBuffer).

(** A buffer with the two bytes of every sample exchanged; a last
    byte without a partner becomes 0. *)
Fixpoint swapped (buffer : Buffer) : Buffer :=
  match buffer with
  | b0 :: b1 :: rest => b1 :: b0 :: swapped rest
  | [_] => [x00]
  | [] => []
  end.

(** The 44 bytes that open a WAV file of 16 kHz mono 16-bit PCM with
    [dataSize] bytes of samples. *)
Definition whisper_header (dataSize : Z) : list byte :=
  String.list_byte_of_string "RIFF" ++ uintLE 4 (36 + dataSize)
  ++ String.list_byte_of_string "WAVE" ++ String.list_byte_of_string "fmt "
  ++ uintLE 4 16 ++ uintLE 2 1 ++ uintLE 2 1
  ++ uintLE 4 16000 ++ uintLE 4 32000 ++ uintLE 2 2 ++ uintLE 2 16
  ++ String.list_byte_of_string "data" ++ uintLE 4 dataSize.

End Transcription.

(** ** The queries of [class VoiceDetection] *)

Module VoiceDetectionQueries.

(** [isSpeaking(participantId)]: [state?.isSpeaking ?? false]. *)
Definition isSpeaking (participantId : string) (vd : VoiceDetection.t)
  : bool :=
  match VoiceDetection.participantStates vd !! participantId with
  | Some state => VoiceDetection.isSpeaking state
  | None => false
  end.

(** [isProcessing(participantId)]:
    [this.processingFlags.get(participantId) ?? false]. *)
Definition isProcessing (participantId : string) (vd : VoiceDetection.t)
  : bool :=
  match VoiceDetection.processingFlags vd !! participantId with
  | Some b => b
  | None => false
  end.

Definition getParticipantState (participantId : string)
    (vd : VoiceDetection.t) : option VoiceDetection.VoiceActivityState :=
  VoiceDetection.participantStates vd !! participantId.

(** [isSpeaking] read on the cell of the participant. *)
Definition c_isSpeaking (c : VoiceDetection.Cell) : bool :=
  match VoiceDetection.c_state c with
  | Some state => VoiceDetection.isSpeaking state
  | None => false
  end.

(** The frames of [q] that reach [state.buffers]: those delivered for
    [q] whose RMS is computed (a frame on which [calculateRMS]
    raises leaves [processAudioFrame] before the push). *)
Definition buffered_frames (q : string) (acts : list VoiceDetection.Action)
  : list Buffer :=
  flat_map (fun a =>
    match a with
    | VoiceDetection.Frame p b _ =>
        if decide (p = q)
        then match calculateRMS b with Ok _ => [b] | Throw _ => [] end
        else []
    | _ => []
    end) acts.

(** The buffers of the state of a cell lie at the end of [hist]. *)
Definition buffers_end (hist : list Buffer) (c : VoiceDetection.Cell)
  : Prop :=
  forall st, VoiceDetection.c_state c = Some st ->
             VoiceDetection.buffers st `suffix_of` hist.

(** What one call of the detector can emit: nothing, one
    [speechStarted], or [speechEnded] and [speechTurn] with the same
    participant and the same audio, audio that passed
    [isValidAudioBuffer]. *)
Definition event_shape (config : VoiceDetection.VoiceDetectionConfig)
    (es : list VoiceDetection.Event) : Prop :=
  es = [] \/
  (exists p, es = [VoiceDetection.speechStarted p]) \/
  (exists p b d,
     es = [VoiceDetection.speechEnded p b; VoiceDetection.speechTurn p b d] /\
     VoiceDetection.isValidAudioBuffer b = true /\ 1024 <= blen b /\
     VoiceDetection.minSpeechDuration config <= d).

(** The audio an event of [q] carries. *)
Definition carries (e : VoiceDetection.Event) (q : string) (b : Buffer)
  : Prop :=
  e = VoiceDetection.speechEnded q b \/
  exists d, e = VoiceDetection.speechTurn q b d.

(** A detector that starts a turn on one loud frame and ends it on
    one quiet frame, with no minimum duration and a 100 ms debounce. *)
Definition eager_config : VoiceDetection.VoiceDetectionConfig :=
  {| VoiceDetection.silenceThreshold := 0.01;
     VoiceDetection.speechThreshold := 0.05;
     VoiceDetection.minSpeechDuration := 0;
     VoiceDetection.maxSpeechDuration := 10000;
     VoiceDetection.silenceFramesRequired := 1;
     VoiceDetection.speechFramesRequired := 1;
     VoiceDetection.debounceThreshold := 100;
     VoiceDetection.frameSize := 160;
     VoiceDetection.sampleRate := 16000 |}.

(** 2048 bytes of silence. *)
Definition silent_frame : Buffer := repeat x00 2048.

(** A loud frame of alice starts her turn, a frame of bob and a silent
    frame of alice follow, and her debounce timer fires. *)
Definition short_turn : list VoiceDetection.Action :=
  [VoiceDetection.Frame "alice" VoiceDetection.loud_frame 0;
   VoiceDetection.Frame "bob" VoiceDetection.loud_frame 5;
   VoiceDetection.Frame "alice" silent_frame 10;
   VoiceDetection.Fire "alice" 110].

End VoiceDetectionQueries.

(** ** The controls and queries of [class AudioMonitor] *)

Module AudioMonitorControl.

(** [isSpeaking(participantId)]: [state?.isSpeaking ?? false]. *)
Definition isSpeaking (participantId : string) (am : AudioMonitor.t) : bool :=
  match AudioMonitor.participantStates am !! participantId with
  | Some state => AudioMonitor.isSpeaking state
  | None => false
  end.

(** [getAverageVolume(participantId)]: 0 without a window or on an
    empty one. *)
Definition getAverageVolume (participantId : string) (am : AudioMonitor.t)
  : float :=
  match AudioMonitor.volumeBuffers am !! participantId with
  | Some (v :: vs) => AudioMonitor.average (v :: vs)
  | _ => 0%float
  end.

(** The branch of [reset] without an identifier. *)
Definition reset_all (am : AudioMonitor.t) : AudioMonitor.t :=
  AudioMonitor.mkAM
    (VoiceDetection.cleanup None (AudioMonitor.voiceDetection am))
    ∅ (AudioMonitor.isMonitoring am) ∅ ∅.

(** [reset(participantId?)]: the state object, the volume window and
    the buffer list of the participant are reset in place where they
    exist, and the detector forgets the participant; an absent or empty
    identifier resets everything.  [isMonitoring] is left as it is. *)
Definition reset (participantId : option string) (now : Z)
    (am : AudioMonitor.t) : AudioMonitor.t :=
  match participantId with
  | Some p =>
      if bool_decide (p = EmptyString) then reset_all am
      else
        AudioMonitor.mkAM
          (VoiceDetection.cleanup (Some p) (AudioMonitor.voiceDetection am))
          (alter (fun _ => []) p (AudioMonitor.volumeBuffers am))
          (AudioMonitor.isMonitoring am)
          (alter (fun _ => []) p (AudioMonitor.participantBuffers am))
          (alter (fun _ => AudioMonitor.mkPState false 0 now) p
                 (AudioMonitor.participantStates am))
  | None => reset_all am
  end.

(** The calls made to a monitor: those of [AudioMonitor.Action], and
    [reset]. *)
Inductive Call : Type :=
  | Act (a : AudioMonitor.Action)
  | Reset (participantId : option string) (now : Z).

Definition step (config : AudioMonitor.AudioMonitorConfig) (c : Call)
    (am : AudioMonitor.t) : AudioMonitor.t * list AudioMonitor.Emitted :=
  match c with
  | Act a => AudioMonitor.step config a am
  | Reset p now => (reset p now am, [])
  end.

Fixpoint run (config : AudioMonitor.AudioMonitorConfig) (calls : list Call)
    (am : AudioMonitor.t) : AudioMonitor.t * list AudioMonitor.Emitted :=
  match calls with
  | [] => (am, [])
  | c :: calls' =>
      let r := step config c am in
      let r' := run config calls' r.1 in
      (r'.1, r.2 ++ r'.2)
  end.

(** A participant with a turn under way in the detector: speaking, or
    waiting on a debounce timer that can still fire. *)
Definition active (c : VoiceDetection.Cell) : Prop :=
  VoiceDetectionQueries.c_isSpeaking c = true \/
  exists tm, VoiceDetection.c_timer c = Some tm /\
             VoiceDetection.cleared tm = false.

(** What holds of the cell of a participant between two calls: no
    turn is being processed, and a timer that can still fire belongs
    to a known participant who is not speaking. *)
Definition settled_cell (c : VoiceDetection.Cell) : Prop :=
  VoiceDetection.quiescent c /\
  (forall tm, VoiceDetection.c_timer c = Some tm ->
     VoiceDetection.cleared tm = false ->
     VoiceDetectionQueries.c_isSpeaking c = false).

(** What holds of a monitor between two calls: every cell of its
    detector is settled; a participant with a turn under way in the
    detector is held as speaking by the monitor; the detector keeps
    nothing of a participant the monitor does not know; and the
    monitoring flag is raised as long as a participant is known. *)
Definition coherent (am : AudioMonitor.t) : Prop :=
  (forall q, settled_cell
               (VoiceDetection.view q (AudioMonitor.voiceDetection am))) /\
  (forall q, active (VoiceDetection.view q (AudioMonitor.voiceDetection am)) ->
     isSpeaking q am = true) /\
  (forall q, AudioMonitor.participantStates am !! q = None ->
     VoiceDetection.view q (AudioMonitor.voiceDetection am)
     = VoiceDetection.c_empty) /\
  (AudioMonitor.participantStates am = ∅ \/
   AudioMonitor.isMonitoring am = true).

(** The four entries a completed turn of [p] leaves in the trace of
    a call. *)
Definition turn_trace (p : string) (b : Buffer) (d : Z)
  : list AudioMonitor.Emitted :=
  [AudioMonitor.detector (VoiceDetection.speechEnded p b);
   AudioMonitor.monitor (AudioMonitor.speakingStopped p b);
   AudioMonitor.detector (VoiceDetection.speechTurn p b d);
   AudioMonitor.monitor (AudioMonitor.speakingStopped p b)].

(** Two monitors with the same detector, the same flag and the same
    participants, each held as speaking in one as in the other. *)
Definition same_speaking (am am' : AudioMonitor.t) : Prop :=
  AudioMonitor.voiceDetection am' = AudioMonitor.voiceDetection am /\
  AudioMonitor.isMonitoring am' = AudioMonitor.isMonitoring am /\
  forall p, AudioMonitor.isSpeaking <$> AudioMonitor.participantStates am' !! p
            = AudioMonitor.isSpeaking <$> AudioMonitor.participantStates am !! p.

(** The entries of a trace that say nothing of turns. *)
Definition inert (x : AudioMonitor.Emitted) : Prop :=
  match x with
  | AudioMonitor.monitor (AudioMonitor.interruptionDetected _)
  | AudioMonitor.monitor (AudioMonitor.volumeDetected _ _) => True
  | _ => False
  end.

(** What the delivery of the detector's events of one call leaves in
    the trace: nothing, a speech start the monitor did or did not pass
    on, or a completed turn. *)
Definition delivery_shape (mid : list AudioMonitor.Emitted) : Prop :=
  mid = [] \/
  (exists q, mid = [AudioMonitor.detector (VoiceDetection.speechStarted q)]) \/
  (exists q, mid = [AudioMonitor.detector (VoiceDetection.speechStarted q);
                    AudioMonitor.monitor (AudioMonitor.speakingStarted q)]) \/
  (exists q b d, mid = turn_trace q b d).

(** The trace of one call: a delivery between inert entries. *)
Definition trace_shape (tr : list AudioMonitor.Emitted) : Prop :=
  exists pre mid post,
    tr = pre ++ mid ++ post /\ Forall inert pre /\ Forall inert post /\
    delivery_shape mid.

(** A monitor that reacts to single frames: one frame starts or ends
    speech, one volume fills the window, no turn is too short. *)
Definition eager_monitor : AudioMonitor.AudioMonitorConfig :=
  {| AudioMonitor.frameSize := 160; AudioMonitor.sampleRate := 16000;
     AudioMonitor.channels := 1;
     AudioMonitor.silenceThreshold := 0.01;
     AudioMonitor.speechThreshold := 0.05;
     AudioMonitor.maxBufferDuration := 30000;
     AudioMonitor.volumeWindowSize := 1;
     AudioMonitor.speakingThreshold := 0.1;
     AudioMonitor.minSpeechDuration := 0;
     AudioMonitor.maxSpeechDuration := 10000;
     AudioMonitor.debounceThreshold := 100;
     AudioMonitor.silenceFramesRequired := 1;
     AudioMonitor.speechFramesRequired := 1 |}.

(** Alice is monitored, a loud frame starts her turn and 2048 bytes of
    silence end it: her debounce timer is pending, due at 110 ms. *)
Definition short_session : list Call :=
  [Act (AudioMonitor.Start "alice" 0);
   Act (AudioMonitor.Frame "alice" VoiceDetection.loud_frame 0);
   Act (AudioMonitor.Frame "alice" VoiceDetectionQueries.silent_frame 10)].

(** Alice speaks for three frames of 10 ms and falls silent for
    three, and her debounce timer fires: 960 bytes were buffered since
    the start of her turn, too few for a turn to be emitted. *)
Definition dropped_turn : list Call :=
  (Act <$> (AudioMonitor.Start "alice" 0
            :: ((fun f => AudioMonitor.Frame "alice" f.1 f.2)
                  <$> (VoiceDetection.every 10 VoiceDetection.loud_frame (-10) 3
                       ++ VoiceDetection.every 10 VoiceDetection.quiet_frame
                            20 3))))
  ++ [Act (AudioMonitor.Fire "alice" 150)].

End AudioMonitorControl.

(** ** The service's listeners on a monitor: [setupAudioMonitorEvents] *)

Module LiveKitServiceEvents.

(** The listener of ['speakingStopped'], up to the first [await] of the
    calls it makes.  It emits ['speechEnded'] on the service's own
    emitter, then calls [processSpeechTurn].  [forwarded] counts the
    listeners of ['speechEnded'] on that emitter which find a room:
    [setupAgentBehavior] installs one each time it runs, and each calls
    [processSpeechTurn] with the same arguments. *)
Definition onSpeakingStopped (forwarded : nat) (participantId : string)
    (audioBuffer : Buffer) (s : LiveKitService.t) : LiveKitService.t :=
  LiveKitService.processSpeechTurn participantId audioBuffer
    (Nat.iter forwarded
       (LiveKitService.processSpeechTurn participantId audioBuffer) s).

(** The four listeners.  [handleInterruption] touches the audio
    players only; the listener of ['volumeDetected'] only logs. *)
Definition onMonitorEvent (forwarded : nat) (e : AudioMonitor.Event)
    (now : Z) (s : LiveKitService.t) : LiveKitService.t :=
  match e with
  | AudioMonitor.speakingStarted p => LiveKitService.onSpeakingStarted p now s
  | AudioMonitor.speakingStopped p b => onSpeakingStopped forwarded p b s
  | AudioMonitor.interruptionDetected _ => s
  | AudioMonitor.volumeDetected _ _ => s
  end.

(** The trace of a call of the monitor, as the service receives it:
    the monitor's events in emission order. *)
Definition receive (forwarded : nat) (now : Z)
    (tr : list AudioMonitor.Emitted) (s : LiveKitService.t)
  : LiveKitService.t :=
  fold_left (fun s x => match x with
                        | AudioMonitor.monitor e =>
                            onMonitorEvent forwarded e now s
                        | AudioMonitor.detector _ => s
                        end) tr s.

(** The participant has a user state and no turn of theirs is in
    flight. *)
Definition ready (participantId : string) (s : LiveKitService.t) : bool :=
  match LiveKitService.userStates s !! participantId with
  | Some userState => negb (LiveKitService.isProcessing userState)
  | None => false
  end.

(** The turns the detector completed in a trace, for the participants
    that are ready in [s]. *)
Definition ready_turns (s : LiveKitService.t)
    (tr : list AudioMonitor.Emitted) : list (string * Buffer) :=
  flat_map (fun x => match x with
                     | AudioMonitor.detector (VoiceDetection.speechTurn p b _) =>
                         if ready p s then [(p, b)] else []
                     | _ => []
                     end) tr.

End LiveKitServiceEvents.
(** ** AudioNormalizer: [resample], following the spec's words

    "linear-interpolation resampler.  If [fromRate == toRate], returns
    input unchanged.  Otherwise computes [ratio = fromRate/toRate],
    output length [= floor(inputLength / ratio)], and for each output
    index [i] interpolates between the two nearest input samples at
    fractional source position [i * ratio]; the final output sample
    clamps to the last input sample when the fractional index would
    overrun the input."

    The input is a sequence of samples, not bytes; nothing here
    refers to the definitions made from the source. *)

Module AudioNormalizer.

Section Resample.

Variable samples : list Z.
Variables fromRate toRate : float.

Definition ratio : float := PrimFloat.div fromRate toRate.

(** [floor(inputLength / ratio)]; there is no length when the
    quotient is infinite or NaN. *)
Definition outputLength : option Z :=
  Num.floorZ (PrimFloat.div (Num.of_Z (Z.of_nat (length samples))) ratio).

(** The point at the fraction [t] of the way from sample [a] to sample
    [b], rounded to the nearest integer. *)
Definition interpolate (a b : Z) (t : float) : float :=
  Num.Math_round
    (PrimFloat.add (PrimFloat.mul (Num.of_Z a) (PrimFloat.sub 1 t))
                   (PrimFloat.mul (Num.of_Z b) t)).

(** The last input sample. *)
Definition lastSample : float := Num.of_Z (default 0 (last samples)).

(** The output sample of index [i].  The source position [i * ratio]
    lies between the input samples of index [k] and [k + 1], [k] its
    integer part; where one of them does not exist the position
    overruns the input and the sample is the last input sample. *)
Definition outputSample (i : Z) : float :=
  let position := PrimFloat.mul (Num.of_Z i) ratio in
  match Num.floorZ position with
  | Some k =>
      if k <? 0 then lastSample
      else
        match samples !! Z.to_nat k, samples !! Z.to_nat (k + 1) with
        | Some a, Some b =>
            interpolate a b (PrimFloat.sub position (Num.of_Z k))
        | _, _ => lastSample
        end
  | None => lastSample
  end.

(** The output of [n] samples. *)
Definition resample (n : Z) : list float := outputSample <$> seqZ 0 n.

End Resample.

(** A value that fits a signed 16-bit sample. *)
Definition fits_int16 (value : float) : Prop :=
  Num.gt value 32767%float = false /\ Num.lt value (-32768)%float = false.

End AudioNormalizer.


(** * Properties *)

(** ** Reading samples *)

Lemma blen_nonneg (b : Buffer) : 0 <= blen b.
Proof. unfold blen. lia. Qed.

Lemma readInt16LE_in_bounds (buf : Buffer) (offset : Z) :
  0 <= offset -> offset + 2 <= blen buf ->
  exists v, readInt16LE buf offset = Ok v.
Proof.
  intros H0 H2. unfold readInt16LE, blen in *.
  destruct (Z.ltb_spec offset 0) as [?|_]; [lia|].
  destruct (lookup_lt_is_Some_2 buf (Z.to_nat offset)) as [lo ->]; [lia|].
  destruct (lookup_lt_is_Some_2 buf (Z.to_nat (offset + 1))) as [hi ->]; [lia|].
  eauto.
Qed.

Lemma boundsError_nonneg (length : Z) :
  0 <= length -> boundsError length = ERR_OUT_OF_RANGE.
Proof.
  intros H. unfold boundsError. by destruct (Z.ltb_spec length 0); [lia|].
Qed.

Lemma boundsError_neg (length : Z) :
  length < 0 -> boundsError length = ERR_BUFFER_OUT_OF_BOUNDS.
Proof.
  intros H. unfold boundsError. by destruct (Z.ltb_spec length 0); [|lia].
Qed.

Lemma readInt16LE_past_end (buf : Buffer) (offset : Z) :
  blen buf < offset + 2 ->
  readInt16LE buf offset = Throw (boundsError (blen buf - 2)).
Proof.
  intros H. unfold readInt16LE.
  destruct (Z.ltb_spec offset 0) as [?|?]; [done|].
  rewrite (lookup_ge_None_2 buf (Z.to_nat (offset + 1)))
    by (unfold blen in H; lia).
  by destruct (buf !! Z.to_nat offset).
Qed.

Lemma foldR_app {A S} (body : S -> A -> result S) (s : S) (l1 l2 : list A) :
  foldR body s (l1 ++ l2) = (s' <-! foldR body s l1 ; foldR body s' l2).
Proof.
  revert s. induction l1 as [|a l1 IH]; intros s; simpl; [done|].
  destruct (body s a); simpl; [apply IH | done].
Qed.

Lemma foldR_all_ok {A S} (body : S -> A -> result S) (l : list A) :
  (forall s a, a ∈ l -> exists s', body s a = Ok s') ->
  forall s, exists s', foldR body s l = Ok s'.
Proof.
  induction l as [|a l IH]; intros Hok s; simpl; [eauto|].
  destruct (Hok s a) as [s' ->]; [left|]. simpl.
  apply IH. intros s0 a0 Hin. apply Hok. by right.
Qed.

Lemma elem_of_even_offsets (len : nat) (i : Z) :
  i ∈ even_offsets len <-> 0 <= i < Z.of_nat len /\ i mod 2 = 0.
Proof.
  unfold even_offsets. rewrite list_elem_of_fmap.
  assert (Hd : forall n, (2 * Nat.div2 n <= n < 2 * Nat.div2 n + 2)%nat).
  { intros n. pose proof (Nat.div2_odd n) as Ho.
    destruct (Nat.odd n); simpl in Ho; lia. }
  specialize (Hd (len + 1)%nat).
  split.
  - intros (k & -> & Hk). apply elem_of_seq in Hk.
    split; [lia|]. rewrite Z.mul_comm. apply Z_mod_mult.
  - intros [Hr Hm]. exists (Z.to_nat (i / 2)). split.
    + rewrite Z2Nat.id by (apply Z.div_pos; lia).
      pose proof (Z.div_mod i 2). lia.
    + apply elem_of_seq. pose proof (Z.div_mod i 2).
      assert (i / 2 < Z.of_nat (Nat.div2 (len + 1))) by lia. lia.
Qed.

(** For an even length every loop offset has both bytes. *)
Lemma sumSquares_loop_even (buffer : Buffer) :
  Z.of_nat (length buffer) mod 2 = 0 -> exists s, sumSquares_loop buffer = Ok s.
Proof.
  intros Hev. unfold sumSquares_loop. apply foldR_all_ok.
  intros s i Hi. apply elem_of_even_offsets in Hi as [Hr Hm].
  unfold rms_body.
  destruct (readInt16LE_in_bounds buffer i) as [v ->]; [lia| |by eauto].
  unfold blen.
  pose proof (Z.div_mod i 2). pose proof (Z.div_mod (Z.of_nat (length buffer)) 2).
  lia.
Qed.

(** For an odd length the last loop offset is [length - 1], whose
    second byte is missing. *)
Lemma sumSquares_loop_odd (buffer : Buffer) :
  Z.of_nat (length buffer) mod 2 = 1 ->
  sumSquares_loop buffer = Throw (boundsError (blen buffer - 2)).
Proof.
  intros Hodd. unfold sumSquares_loop, even_offsets.
  pose proof (Z.div_mod (Z.of_nat (length buffer)) 2) as Hdm.
  assert (Hd : Nat.div2 (length buffer + 1) = S (Z.to_nat (blen buffer / 2))).
  { pose proof (Nat.div2_odd (length buffer + 1)) as Ho. unfold blen.
    destruct (Nat.odd (length buffer + 1)); simpl in Ho; lia. }
  rewrite Hd.
  rewrite seq_S, fmap_app, foldR_app.
  destruct (foldR_all_ok (rms_body buffer)
              ((fun k => 2 * Z.of_nat k) <$> seq 0 (Z.to_nat (blen buffer / 2))))
    with (s := 0%float) as [s' ->].
  { intros s i Hi. apply list_elem_of_fmap in Hi as (k & -> & Hk).
    apply elem_of_seq in Hk. unfold rms_body.
    destruct (readInt16LE_in_bounds buffer (2 * Z.of_nat k)) as [v ->];
      [lia| |by eauto].
    unfold blen in *. lia. }
  simpl. unfold rms_body.
  rewrite readInt16LE_past_end; [done|]. unfold blen in *. lia.
Qed.

(** ** C9, C10: the RMS computations *)

Lemma calculateRMS_divisor (buffer : Buffer) :
  calculateRMS buffer =
  match rms_divisor buffer with
  | None => Ok 0%float
  | Some d =>
      sumSquares <-! sumSquares_loop buffer ;
      Ok (PrimFloat.sqrt (PrimFloat.div sumSquares (Num.of_Z d)))
  end.
Proof. unfold calculateRMS, rms_divisor. by destruct (blen buffer <? 2). Qed.

Lemma calculateVolume_eq (buffer : Buffer) :
  calculateVolume buffer = calculateRMS buffer.
Proof. reflexivity. Qed.

(** C9: a buffer shorter than one sample has RMS 0, returned before any
    division; on every path that divides by the sample count, the
    count is at least 1. *)
Theorem rms_short_buffer (buffer : Buffer) :
  blen buffer < 2 ->
  calculateRMS buffer = Ok 0%float /\
  calculateVolume buffer = Ok 0%float /\
  rms_divisor buffer = None /\
  (forall b d, rms_divisor b = Some d -> 1 <= d /\
     calculateRMS b =
       (sumSquares <-! sumSquares_loop b ;
        Ok (PrimFloat.sqrt (PrimFloat.div sumSquares (Num.of_Z d))))).
Proof.
  intros Hlt.
  assert (Hb : (blen buffer <? 2) = true) by (apply Z.ltb_lt; lia).
  split; [|split; [|split]].
  - unfold calculateRMS. by rewrite Hb.
  - unfold calculateVolume. by rewrite Hb.
  - unfold rms_divisor. by rewrite Hb.
  - intros b d H. split.
    + unfold rms_divisor, sampleCount in H.
      destruct (Z.ltb_spec (blen b) 2); [done|].
      injection H as <-. apply Z.div_le_lower_bound; lia.
    + rewrite calculateRMS_divisor. by rewrite H.
Qed.

Lemma rms_short_buffer_witness :
  calculateRMS [x7f] = Ok 0%float /\
  calculateVolume [x7f] = Ok 0%float /\
  rms_divisor [x7f] = None /\
  (forall b d, rms_divisor b = Some d -> 1 <= d /\
     calculateRMS b =
       (sumSquares <-! sumSquares_loop b ;
        Ok (PrimFloat.sqrt (PrimFloat.div sumSquares (Num.of_Z d))))).
Proof. apply (rms_short_buffer [x7f]). vm_compute. reflexivity. Defined.

Lemma calculateRMS_even (buffer : Buffer) :
  blen buffer mod 2 = 0 -> exists v, calculateRMS buffer = Ok v.
Proof.
  intros Hev. unfold calculateRMS.
  destruct (blen buffer <? 2); [by eauto|].
  destruct (sumSquares_loop_even buffer Hev) as [s ->]. simpl. eauto.
Qed.

(** C10: the RMS loops read a sample at every even offset below the
    length; with an even length every read is in bounds and the
    computation returns, with an odd length of 3 or more the read at
    [length - 1] is out of range and the error leaves through
    [processAudioFrame] of both classes. *)
Theorem rms_read_bounds (buffer : Buffer) :
  (forall i, i ∈ even_offsets (length buffer) <->
             0 <= i < blen buffer /\ i mod 2 = 0) /\
  (blen buffer mod 2 = 0 ->
     exists v, calculateRMS buffer = Ok v /\ calculateVolume buffer = Ok v) /\
  (blen buffer mod 2 = 1 -> 3 <= blen buffer ->
     blen buffer - 1 ∈ even_offsets (length buffer) /\
     readInt16LE buffer (blen buffer - 1) = Throw ERR_OUT_OF_RANGE /\
     calculateRMS buffer = Throw ERR_OUT_OF_RANGE /\
     calculateVolume buffer = Throw ERR_OUT_OF_RANGE /\
     (forall cfg p now vd,
        (VoiceDetection.processAudioFrame cfg p buffer now vd).2
        = VoiceDetection.Thrown ERR_OUT_OF_RANGE) /\
     (forall cfg p now am st,
        AudioMonitor.participantStates am !! p = Some st ->
        AudioMonitor.isMonitoring am = true ->
        (AudioMonitor.processAudioFrame cfg p buffer now am).2
        = VoiceDetection.Thrown ERR_OUT_OF_RANGE)).
Proof.
  split; [|split].
  - intros i. apply elem_of_even_offsets.
  - intros Hev. change (calculateVolume buffer) with (calculateRMS buffer).
    destruct (calculateRMS_even buffer Hev) as [v ->]. eauto.
  - intros Hodd H3.
    assert (Hrms : calculateRMS buffer = Throw ERR_OUT_OF_RANGE).
    { unfold calculateRMS.
      destruct (Z.ltb_spec (blen buffer) 2); [lia|].
      rewrite sumSquares_loop_odd by done.
      by rewrite boundsError_nonneg by lia. }
    split; [|split; [|split; [|split; [|split]]]].
    + apply elem_of_even_offsets. fold (blen buffer). split; [lia|].
      pose proof (Z.div_mod (blen buffer) 2).
      rewrite (Z.mod_eq (blen buffer - 1)) by lia.
      replace (blen buffer - 1) with ((blen buffer / 2) * 2) by lia.
      rewrite Z.div_mul by lia. lia.
    + rewrite readInt16LE_past_end by lia.
      by rewrite boundsError_nonneg by lia.
    + done.
    + done.
    + intros cfg p now vd. unfold VoiceDetection.processAudioFrame.
      by rewrite Hrms.
    + intros cfg p now am st Hst Hmon.
      unfold AudioMonitor.processAudioFrame.
      rewrite Hst, Hmon. simpl. rewrite calculateVolume_eq, Hrms. done.
Qed.

Lemma rms_read_bounds_witness :
  (exists v, calculateRMS [x10; x20] = Ok v /\ calculateVolume [x10; x20] = Ok v)
  /\ calculateRMS [x10; x20; x30] = Throw ERR_OUT_OF_RANGE
  /\ (VoiceDetection.processAudioFrame VoiceDetection.defaultConfig
        "alice" [x10; x20; x30] 0 VoiceDetection.empty).2
     = VoiceDetection.Thrown ERR_OUT_OF_RANGE.
Proof.
  destruct (rms_read_bounds [x10; x20]) as (_ & Heven & _).
  destruct (rms_read_bounds [x10; x20; x30]) as (_ & _ & Hodd).
  split; [apply Heven; reflexivity|].
  destruct Hodd as (_ & _ & Hr & _ & Hvd & _); [reflexivity | vm_compute; congruence |].
  split; [exact Hr | apply Hvd].
Defined.

(** ** The detector acts on one cell at a time *)

Section CellSemantics.

Import VoiceDetection.

Variable config : VoiceDetectionConfig.

Ltac map_simpl :=
  repeat first
    [ rewrite lookup_alter_eq | rewrite lookup_insert_eq
    | rewrite lookup_delete_eq
    | rewrite lookup_alter_ne by done | rewrite lookup_insert_ne by done
    | rewrite lookup_delete_ne by done | rewrite lookup_empty ].

Ltac view_solve :=
  unfold view, c_upd, c_set_timer, c_set_flag, upd, set_timers, set_flag,
    resetParticipantState, initializeParticipantState; simpl; map_simpl;
  try done.

Lemma view_upd p q f vd :
  view q (upd p f vd) = if decide (p = q) then c_upd f (view q vd) else view q vd.
Proof. destruct (decide (p = q)) as [->|Hne]; view_solve. Qed.

Lemma view_set_flag p q b vd :
  view q (set_flag p b vd) =
    if decide (p = q) then c_set_flag (Some b) (view q vd) else view q vd.
Proof. destruct (decide (p = q)) as [->|Hne]; view_solve. Qed.

Lemma view_set_timers_delete p q vd :
  view q (set_timers (delete p (debounceTimers vd)) vd) =
    if decide (p = q) then c_set_timer None (view q vd) else view q vd.
Proof. destruct (decide (p = q)) as [->|Hne]; view_solve. Qed.

Lemma flag_view p vd : flag p vd = c_flagged (view p vd).
Proof. reflexivity. Qed.

Lemma handleSpeechStart_view p q now vd :
  view q (handleSpeechStart p now vd).1 =
    (if decide (p = q) then (c_handleSpeechStart p now (view q vd)).1
     else view q vd)
  /\ (handleSpeechStart p now vd).2 = (c_handleSpeechStart p now (view p vd)).2.
Proof.
  unfold handleSpeechStart, c_handleSpeechStart. rewrite flag_view.
  destruct (decide (p = q)) as [->|Hne].
  - destruct (c_flagged (view q vd)); split; view_solve.
  - destruct (c_flagged (view p vd)); split; view_solve.
Qed.

Lemma setupDebouncedProcessing_view p q now vd :
  view q (setupDebouncedProcessing config p now vd) =
    if decide (p = q) then c_setupDebouncedProcessing config now (view q vd)
    else view q vd.
Proof.
  unfold setupDebouncedProcessing, c_setupDebouncedProcessing.
  unfold flag, c_flagged. simpl.
  destruct (decide (p = q)) as [->|Hne].
  - destruct (processingFlags vd !! q) as [[]|]; view_solve.
  - destruct (processingFlags vd !! p) as [[]|]; view_solve.
Qed.

Lemma processSpeechTurn_view p q st now vd :
  view q (processSpeechTurn config p st now vd).1 =
    (if decide (p = q) then (c_processSpeechTurn config p st now (view q vd)).1
     else view q vd)
  /\ (processSpeechTurn config p st now vd).2
     = (c_processSpeechTurn config p st now (view p vd)).2.
Proof.
  unfold processSpeechTurn, c_processSpeechTurn.
  destruct (turn_of config st now) as [[b d]|];
    (destruct (decide (p = q)) as [->|Hne]; split; view_solve).
Qed.

Lemma dispatch_view p q now vd :
  view q (dispatch config p now vd).1 =
    (if decide (p = q) then (c_dispatch config p now (view q vd)).1
     else view q vd)
  /\ (dispatch config p now vd).2 = (c_dispatch config p now (view p vd)).2.
Proof.
  unfold dispatch, c_dispatch. simpl.
  destruct (participantStates vd !! p) as [st|] eqn:Hst.
  2:{ destruct (decide (p = q)) as [->|Hne]; [rewrite Hst|]; done. }
  destruct (decide (p = q)) as [->|Hne]; [rewrite Hst|];
    destruct (branch config st now); simpl.
  - pose proof (handleSpeechStart_view q q now vd) as [H1 H2].
    rewrite decide_True in H1 by done. done.
  - split; [|done]. unfold handlePotentialSpeechEnd.
    rewrite setupDebouncedProcessing_view, decide_True by done.
    by rewrite view_upd, decide_True.
  - pose proof (processSpeechTurn_view q q st now vd) as [H1 H2].
    rewrite decide_True in H1 by done. done.
  - done.
  - pose proof (handleSpeechStart_view p q now vd) as [H1 H2].
    rewrite decide_False in H1 by done. done.
  - split; [|done]. unfold handlePotentialSpeechEnd.
    rewrite setupDebouncedProcessing_view, decide_False by done.
    by rewrite view_upd, decide_False.
  - pose proof (processSpeechTurn_view p q st now vd) as [H1 H2].
    rewrite decide_False in H1 by done. done.
  - done.
Qed.

Lemma processAudioFrame_view p q b now vd :
  view q (processAudioFrame config p b now vd).1.1 =
    (if decide (p = q) then (c_processAudioFrame config p b now (view q vd)).1
     else view q vd)
  /\ (processAudioFrame config p b now vd).1.2
     = (c_processAudioFrame config p b now (view p vd)).2.
Proof.
  unfold processAudioFrame, c_processAudioFrame. simpl.
  set (vd0 := match participantStates vd !! p with
              | Some _ => vd
              | None => initializeParticipantState p now vd
              end).
  assert (Hp : view p vd0 =
               match participantStates vd !! p with
               | Some _ => view p vd
               | None => mkCell (Some (initialState now))
                           (debounceTimers vd !! p) (Some false)
               end).
  { unfold vd0. destruct (participantStates vd !! p); view_solve. }
  assert (Hq : p <> q -> view q vd0 = view q vd).
  { intros Hne. unfold vd0. destruct (participantStates vd !! p); view_solve. }
  destruct (calculateRMS b) as [rms|e]; simpl.
  - set (vd1 := upd p _ vd0).
    pose proof (dispatch_view p q now vd1) as [H1 H2].
    rewrite H1, H2. unfold vd1. rewrite !view_upd.
    destruct (decide (p = q)) as [->|Hne].
    + rewrite decide_True by done. rewrite Hp. done.
    + rewrite decide_True by done. rewrite Hq by done. rewrite Hp. done.
  - destruct (decide (p = q)) as [->|Hne]; [rewrite Hp | rewrite Hq by done]; done.
Qed.

Lemma fireTimer_view p q now vd :
  view q (fireTimer config p now vd).1 =
    (if decide (p = q) then (c_fireTimer config p now (view q vd)).1
     else view q vd)
  /\ (fireTimer config p now vd).2 = (c_fireTimer config p now (view p vd)).2.
Proof.
  unfold fireTimer, c_fireTimer, timerCallback.
  change (c_timer (view p vd)) with (debounceTimers vd !! p).
  change (c_timer (view q vd)) with (debounceTimers vd !! q).
  change (c_state (view p vd)) with (participantStates vd !! p).
  change (c_state (view q vd)) with (participantStates vd !! q).
  destruct (debounceTimers vd !! p) as [tm|] eqn:Htm.
  2:{ destruct (decide (p = q)) as [->|Hne]; [rewrite Htm|]; done. }
  destruct (negb (cleared tm) && (due tm <=? now)) eqn:Hgo.
  2:{ destruct (decide (p = q)) as [->|Hne]; [rewrite Htm, Hgo|]; done. }
  destruct (participantStates vd !! p) as [st|] eqn:Hst.
  2:{ destruct (decide (p = q)) as [->|Hne]; [rewrite Htm, Hgo, Hst|]; done. }
  cbv zeta.
  pose proof (processSpeechTurn_view p q st now (set_flag p true vd)) as [H1 H2].
  pose proof (processSpeechTurn_view p p st now (set_flag p true vd)) as [H3 _].
  rewrite decide_True in H3 by done.
  rewrite H2. clear H2 H3. split.
  - set (r := processSpeechTurn config p st now (set_flag p true vd)) in *.
    cbn [fst snd]. rewrite view_set_timers_delete, view_set_flag, H1.
    destruct (decide (p = q)) as [->|Hne].
    + rewrite Htm, Hgo, Hst. cbn [fst snd].
      by rewrite view_set_flag, decide_True.
    + by rewrite view_set_flag, decide_False.
  - cbn [fst snd]. by rewrite view_set_flag, decide_True.
Qed.

Lemma view_empty q : view q empty = c_empty.
Proof. view_solve. Qed.

Lemma cleanup_view p q vd :
  view q (cleanup p vd) = (c_step config (Cleanup p) q (view q vd)).1.
Proof.
  destruct p as [p|]; simpl; [|apply view_empty].
  case_bool_decide; [apply view_empty|].
  destruct (decide (p = q)) as [->|Hne]; view_solve.
Qed.

Theorem step_view (a : Action) (q : string) (vd : t) :
  view q (step config a vd).1 = (c_step config a q (view q vd)).1.
Proof.
  destruct a as [p b now|p now|p]; simpl.
  - rewrite (proj1 (processAudioFrame_view p q b now vd)).
    by destruct (decide (p = q)) as [->|Hne].
  - rewrite (proj1 (fireTimer_view p q now vd)).
    by destruct (decide (p = q)) as [->|Hne].
  - apply cleanup_view.
Qed.

(** The events of a step are those of the cell of the participant the
    action names. *)
Theorem step_events (a : Action) (vd : t) :
  (step config a vd).2 =
  match a with
  | Frame p _ _ | Fire p _ => (c_step config a p (view p vd)).2
  | Cleanup _ => []
  end.
Proof.
  destruct a as [p b now|p now|p]; simpl; [| |done].
  - rewrite decide_True by done.
    apply (proj2 (processAudioFrame_view p p b now vd)).
  - rewrite decide_True by done. apply (proj2 (fireTimer_view p p now vd)).
Qed.

End CellSemantics.

(** ** Runs, cell by cell *)

Lemma filter_all {A} (P : A -> Prop) `{!forall x, Decision (P x)} (l : list A) :
  Forall P l -> filter P l = l.
Proof.
  induction 1 as [|x l Hx _ IH]; [done|].
  by rewrite filter_cons_True, IH.
Qed.

Lemma filter_none {A} (P : A -> Prop) `{!forall x, Decision (P x)} (l : list A) :
  Forall (fun x => ~ P x) l -> filter P l = [].
Proof.
  induction 1 as [|x l Hx _ IH]; [done|].
  by rewrite filter_cons_False, IH.
Qed.

Section Runs.

Import VoiceDetection.

Variable config : VoiceDetectionConfig.

Lemma run_view (acts : list Action) (q : string) (vd : t) :
  view q (run config acts vd).1 = (c_run config acts q (view q vd)).1.
Proof.
  revert vd. induction acts as [|a acts IH]; intros vd; simpl; [done|].
  by rewrite IH, step_view.
Qed.

Lemma run_app (acts1 acts2 : list Action) (vd : t) :
  run config (acts1 ++ acts2) vd =
    let r := run config acts1 vd in
    let r' := run config acts2 r.1 in
    (r'.1, r.2 ++ r'.2).
Proof.
  revert vd. induction acts1 as [|a acts1 IH]; intros vd; simpl.
  - by destruct (run config acts2 vd).
  - rewrite IH. simpl. by rewrite app_assoc.
Qed.

Lemma c_run_app (acts1 acts2 : list Action) (q : string) (c : Cell) :
  c_run config (acts1 ++ acts2) q c =
    let r := c_run config acts1 q c in
    let r' := c_run config acts2 q r.1 in
    (r'.1, r.2 ++ r'.2).
Proof.
  revert c. induction acts1 as [|a acts1 IH]; intros c; simpl.
  - by destruct (c_run config acts2 q c).
  - rewrite IH. simpl. by rewrite app_assoc.
Qed.

(** Every event carries the participant of the action that caused
    it. *)
Lemma c_processSpeechTurn_events p st now c e :
  e ∈ (c_processSpeechTurn config p st now c).2 -> event_participant e = p.
Proof.
  unfold c_processSpeechTurn.
  destruct (turn_of config st now) as [[b d]|]; simpl; [|by intros ?%elem_of_nil].
  intros [->|[->|?%elem_of_nil]%elem_of_cons]%elem_of_cons; done.
Qed.

Lemma c_step_events a q c e :
  e ∈ (c_step config a q c).2 -> event_participant e = q.
Proof.
  destruct a as [p b now|p now|[p|]]; simpl.
  - destruct (decide (p = q)) as [->|Hne]; [|by intros ?%elem_of_nil].
    unfold c_processAudioFrame.
    destruct (calculateRMS b); [|by intros ?%elem_of_nil].
    unfold c_dispatch. destruct (c_state _) as [st|]; [|by intros ?%elem_of_nil].
    destruct (branch config st now); simpl; try by intros ?%elem_of_nil.
    + unfold c_handleSpeechStart. destruct (c_flagged _); simpl;
        [by intros ?%elem_of_nil|].
      by intros [->|?%elem_of_nil]%elem_of_cons.
    + apply c_processSpeechTurn_events.
  - destruct (decide (p = q)) as [->|Hne]; [|by intros ?%elem_of_nil].
    unfold c_fireTimer. destruct (c_timer c) as [tm|]; [|by intros ?%elem_of_nil].
    destruct (negb (cleared tm) && (due tm <=? now)); [|by intros ?%elem_of_nil].
    destruct (c_state c) as [st|]; [|by intros ?%elem_of_nil]. simpl.
    apply c_processSpeechTurn_events.
  - case_bool_decide; [by intros ?%elem_of_nil|].
    destruct (decide (p = q)); by intros ?%elem_of_nil.
  - by intros ?%elem_of_nil.
Qed.

Lemma c_step_events_other a p q c :
  match a with Frame p' _ _ | Fire p' _ => p' = p | Cleanup _ => True end ->
  p <> q -> (c_step config a q c).2 = [].
Proof.
  destruct a as [p' b now|p' now|[p'|]]; simpl; intros Hp Hne.
  - subst. by rewrite decide_False.
  - subst. by rewrite decide_False.
  - case_bool_decide; [done|]. by destruct (decide (p' = q)).
  - done.
Qed.

(** The events of [q] in a run are the events of the cell of [q]. *)
Lemma run_events (acts : list Action) (q : string) (vd : t) :
  filter (fun e => event_participant e = q) (run config acts vd).2
  = (c_run config acts q (view q vd)).2.
Proof.
  revert vd. induction acts as [|a acts IH]; intros vd; simpl; [done|].
  rewrite filter_app, IH, step_view. f_equal.
  rewrite step_events.
  destruct a as [p b now|p now|p].
  - destruct (decide (p = q)) as [->|Hne].
    + apply filter_all. apply Forall_forall.
      intros e He. by apply c_step_events in He.
    + rewrite (c_step_events_other _ p q) by done.
      apply filter_none. apply Forall_forall.
      intros e He%c_step_events. congruence.
  - destruct (decide (p = q)) as [->|Hne].
    + apply filter_all. apply Forall_forall.
      intros e He. by apply c_step_events in He.
    + rewrite (c_step_events_other _ p q) by done.
      apply filter_none. apply Forall_forall.
      intros e He%c_step_events. congruence.
  - symmetry. simpl. destruct p as [p|]; [|done].
    case_bool_decide; [done|]. by destruct (decide (p = q)).
Qed.

End Runs.

(** ** The detector between two actions *)

Section Quiescence.

Import VoiceDetection.

Variable config : VoiceDetectionConfig.

Lemma settled_quiescent c : settled c -> quiescent c.
Proof. intros [Hf Hs]. split; [done|]. by intros. Qed.

Lemma c_upd_settled f c : settled c -> settled (c_upd f c).
Proof.
  intros [Hf [st Hs]]. split; [done|].
  cbn. rewrite Hs. by eexists.
Qed.

Lemma c_set_timer_settled tm c : settled c -> settled (c_set_timer tm c).
Proof. by intros [Hf Hs]. Qed.

Lemma c_processSpeechTurn_settled p st now c :
  settled c -> settled (c_processSpeechTurn config p st now c).1.
Proof.
  intros Hc. unfold c_processSpeechTurn.
  destruct (turn_of config st now) as [[b d]|]; cbn [fst];
    repeat apply c_upd_settled; done.
Qed.

Lemma c_dispatch_settled p now c :
  settled c -> settled (c_dispatch config p now c).1.
Proof.
  intros Hc. unfold c_dispatch.
  destruct (c_state c) as [st|] eqn:Es; [|done].
  destruct (branch config st now); cbn [fst].
  - unfold c_handleSpeechStart. rewrite (proj1 Hc). cbn [fst].
    apply c_upd_settled, c_set_timer_settled, c_upd_settled, Hc.
  - unfold c_setupDebouncedProcessing.
    assert (H : settled
      (c_set_timer ((fun tm => mkTimer (due tm) true)
                      <$> c_timer (c_upd stop_speaking c))
         (c_upd stop_speaking c)))
      by apply c_set_timer_settled, c_upd_settled, Hc.
    cbv zeta. rewrite (proj1 H).
    by apply c_set_timer_settled.
  - by apply c_processSpeechTurn_settled.
  - done.
Qed.

Lemma c_processAudioFrame_quiescent p b now c :
  quiescent c -> settled (c_processAudioFrame config p b now c).1.
Proof.
  intros [Hf _]. unfold c_processAudioFrame.
  assert (H : settled
    match c_state c with
    | Some _ => c
    | None => mkCell (Some (initialState now)) (c_timer c) (Some false)
    end).
  { destruct (c_state c) as [st|] eqn:Es.
    - split; [done|]. rewrite Es. by eexists.
    - split; [done|]. by eexists. }
  cbv zeta. destruct (calculateRMS b) as [rms|e]; cbn [fst]; [|done].
  by apply c_dispatch_settled, c_upd_settled.
Qed.

Lemma c_fireTimer_quiescent p now c :
  quiescent c -> quiescent (c_fireTimer config p now c).1.
Proof.
  intros Hc. unfold c_fireTimer.
  destruct (c_timer c) as [tm|]; [|done].
  destruct (negb (cleared tm) && (due tm <=? now)); [|done].
  destruct (c_state c) as [st|]; [|done].
  cbn [fst snd]. by split.
Qed.

Lemma c_step_quiescent a q c :
  quiescent c -> quiescent (c_step config a q c).1.
Proof.
  intros Hc. destruct a as [p b now|p now|[p|]]; cbn [c_step].
  - destruct (decide (p = q)) as [->|_]; [|done].
    by apply settled_quiescent, c_processAudioFrame_quiescent.
  - destruct (decide (p = q)) as [->|_]; [|done].
    by apply c_fireTimer_quiescent.
  - case_bool_decide; [by split|].
    destruct (decide (p = q)); [by split|done].
  - by split.
Qed.

(** Along every run, between two actions, no turn is being processed
    and every timer that can still fire has its state object. *)
Lemma reachable_quiescent (acts : list Action) (q : string) :
  quiescent (view q (run config acts empty).1).
Proof.
  rewrite run_view, view_empty.
  assert (H : forall c, quiescent c -> quiescent (c_run config acts q c).1).
  { induction acts as [|a acts IH]; intros c Hc; [done|].
    cbn [c_run fst]. apply IH. by apply c_step_quiescent. }
  apply H. by split.
Qed.

End Quiescence.

(** ** C4: the ceiling on buffered bytes *)

Section BufferCeiling.

Import VoiceDetection.


Lemma manageBufferSize_loop_step b b' l total :
  manageBufferSize_loop (b :: b' :: l) total =
    if maxBufferSize <? total
    then manageBufferSize_loop (b' :: l) (total - blen b)
    else (b :: b' :: l, total).
Proof. reflexivity. Qed.





Variable config : VoiceDetectionConfig.




End BufferCeiling.





(** ** C5: the start of a turn *)

Section SpeechStart.

Import VoiceDetection.

Variable config : VoiceDetectionConfig.
Variable p : string.

Ltac st_simpl :=
  cbn [isSpeaking speechStartTime speechEndTime buffers totalLength
       lastActivity speechFrameCount silenceFrameCount count_frame
       manageBufferSize push_frame initialState start_speaking clear_turn
       stop_speaking end_at reset_fields c_state c_timer c_flag c_upd
       c_set_timer c_set_flag fmap option_fmap option_map fst snd
       negb andb orb].

Lemma run_frames_events (fs : list (Buffer * Z)) (vd : t) :
  (run config (frames p fs) vd).2
  = (c_run config (frames p fs) p (view p vd)).2.
Proof.
  revert vd. induction fs as [|f fs IH]; intros vd; [done|].
  cbn [frames fmap list_fmap run c_run snd fst].
  fold (frames p fs). rewrite IH, step_view. f_equal.
  rewrite step_events. done.
Qed.

Lemma c_processAudioFrame_known b now c st rms :
  c_state c = Some st -> calculateRMS b = Ok rms ->
  c_processAudioFrame config p b now c =
    c_dispatch config p now (c_upd (counted config rms b now) c).
Proof. intros Hst Hrms. unfold c_processAudioFrame. by rewrite Hst, Hrms. Qed.







End SpeechStart.





(** ** C2: the duration of a finalized turn *)

Section TurnDuration.

Import VoiceDetection.

Variable config : VoiceDetectionConfig.
Variables g l : Z.

Hypothesis max_nonneg : 0 <= maxSpeechDuration config.
Hypothesis debounce_nonneg : 0 <= debounceThreshold config.
Hypothesis late_nonneg : 0 <= l.

Ltac st_simpl :=
  cbn [isSpeaking speechStartTime speechEndTime buffers totalLength
       lastActivity speechFrameCount silenceFrameCount count_frame
       manageBufferSize push_frame initialState start_speaking clear_turn
       stop_speaking end_at reset_fields c_state c_timer c_flag c_upd
       c_set_timer c_set_flag fmap option_fmap option_map fst snd
       negb andb orb due cleared counted] in *.

Lemma turn_of_Some st now b d :
  turn_of config st now = Some (b, d) ->
  d = now - speechStartTime st /\ minSpeechDuration config <= d.
Proof.
  unfold turn_of.
  destruct (Z.ltb_spec (now - speechStartTime st) (minSpeechDuration config));
    [done|].
  destruct (_ || _); [done|]. destruct (negb _); [done|].
  by intros [= <- <-].
Qed.

Lemma c_processSpeechTurn_turn p st now c x b d :
  speechTurn x b d ∈ (c_processSpeechTurn config p st now c).2 ->
  d = now - speechStartTime st /\ minSpeechDuration config <= d.
Proof.
  unfold c_processSpeechTurn.
  destruct (turn_of config st now) as [[b' d']|] eqn:Hturn; cbn [snd].
  - intros [?|[[= _ _ <-]|?%elem_of_nil]%elem_of_cons]%elem_of_cons;
      [done| |done].
    by apply turn_of_Some in Hturn.
  - by intros ?%elem_of_nil.
Qed.

Lemma c_processSpeechTurn_state p st now c :
  c_state (c_processSpeechTurn config p st now c).1
    = reset_fields <$> c_state c
  /\ c_timer (c_processSpeechTurn config p st now c).1 = c_timer c
  /\ c_flag (c_processSpeechTurn config p st now c).1 = c_flag c.
Proof.
  unfold c_processSpeechTurn.
  destruct (turn_of config st now) as [[b' d']|]; st_simpl;
    by destruct (c_state c).
Qed.

Lemma branch_cases st now :
  match branch config st now with
  | SpeechStart => isSpeaking st = false
  | PotentialSpeechEnd => isSpeaking st = true
  | MaxDuration =>
      isSpeaking st = true /\
      maxSpeechDuration config < now - speechStartTime st
  | NoBranch =>
      isSpeaking st = true ->
      now - speechStartTime st <= maxSpeechDuration config
  end.
Proof.
  unfold branch. destruct (isSpeaking st); cbn [negb andb].
  - destruct (_ <=? _); [done|].
    destruct (Z.ltb_spec (maxSpeechDuration config) (now - speechStartTime st));
      [done|]. done.
  - destruct (_ <=? _); done.
Qed.

(** The three closing branches of [processAudioFrame], on a state
    [st1] that was just stamped with [now]; [last] is the previous
    stamp. *)
Lemma c_dispatch_turn_inv q now st1 tm0 fl0 last :
  lastActivity st1 = now ->
  (isSpeaking st1 = true ->
   last - speechStartTime st1 <= maxSpeechDuration config /\
   now <= last + g) ->
  (forall tm, tm0 = Some tm -> cleared tm = false ->
     isSpeaking st1 = false /\
     due tm - speechStartTime st1
     <= maxSpeechDuration config + g + debounceThreshold config) ->
  turn_inv config g (c_dispatch config q now (mkCell (Some st1) tm0 fl0)).1 /\
  (forall x buf d,
     speechTurn x buf d ∈ (c_dispatch config q now (mkCell (Some st1) tm0 fl0)).2 ->
     minSpeechDuration config <= d
     <= maxSpeechDuration config + debounceThreshold config + g + l).
Proof.
  intros E3 Hsp Htm. unfold c_dispatch. st_simpl.
  pose proof (branch_cases st1 now) as Hbr.
  destruct (branch config st1 now).
  - (* start of speech *)
    unfold c_handleSpeechStart. destruct (c_flagged _); st_simpl.
    + split; [|by intros x buf d ?%elem_of_nil].
      split; st_simpl.
      * intros st [= <-]. congruence.
      * intros tm Htm' Hcl. destruct (Htm tm Htm' Hcl) as (? & ?).
        by exists st1.
    + split.
      * split; st_simpl; [|done]. intros st [= <-] _. st_simpl. lia.
      * intros x buf d [[=]|?%elem_of_nil]%elem_of_cons. done.
  - (* end of speech: the debounce timer is set *)
    destruct (Hsp Hbr) as [Hlast Hg].
    split; [|by intros x buf d ?%elem_of_nil].
    unfold c_setupDebouncedProcessing. st_simpl.
    destruct (c_flagged _); split; st_simpl.
    + by intros st [= <-].
    + destruct tm0; st_simpl; [|done]. by intros tm [= <-].
    + by intros st [= <-].
    + intros tm [= <-] _. eexists. split; [reflexivity|]. st_simpl.
      split; [done|]. lia.
  - (* forced cut-off *)
    destruct Hbr as [Hspk Hmax]. destruct (Hsp Hspk) as [Hlast Hg].
    pose proof (c_processSpeechTurn_state q st1 now
      {| c_state := Some st1; c_timer := tm0; c_flag := fl0 |})
      as (Es & Et & _).
    split.
    + split.
      * rewrite Es. st_simpl. by intros st [= <-].
      * rewrite Et. st_simpl. intros tm Htm' Hcl.
        destruct (Htm tm Htm' Hcl) as (? & ?). congruence.
    + intros x buf d [-> Hmin]%c_processSpeechTurn_turn. lia.
  - (* nothing more *)
    split; [|by intros x buf d ?%elem_of_nil].
    split; st_simpl.
    + intros st [= <-] Hspk. rewrite E3. by apply Hbr.
    + intros tm Htm' Hcl. destruct (Htm tm Htm' Hcl) as (? & ?).
      by exists st1.
Qed.

(** One frame of [q]. *)
Lemma c_processAudioFrame_turn_inv q b now c :
  turn_inv config g c ->
  (forall st, c_state c = Some st -> now <= lastActivity st + g) ->
  turn_inv config g (c_processAudioFrame config q b now c).1 /\
  (forall x buf d,
     speechTurn x buf d ∈ (c_processAudioFrame config q b now c).2 ->
     minSpeechDuration config <= d
     <= maxSpeechDuration config + debounceThreshold config + g + l).
Proof.
  intros Hinv Hg. unfold c_processAudioFrame.
  destruct c as [s0 tm0 fl0]. st_simpl.
  destruct (calculateRMS b) as [rms|e].
  2:{ cbn [fst snd]. split; [|by intros x buf d ?%elem_of_nil].
      destruct s0; [done|]. destruct Hinv as [_ Htm]. split; st_simpl.
      - by intros st [= <-].
      - intros tm Htm' Hcl. by destruct (Htm tm Htm' Hcl) as (st & ? & _). }
  destruct Hinv as [Hsp Htm]. st_simpl.
  destruct s0 as [st0|]; st_simpl.
  - apply (c_dispatch_turn_inv q now _ tm0 fl0 (lastActivity st0)).
    + done.
    + st_simpl. intros Hspk. split; [by apply Hsp|by apply Hg].
    + st_simpl. intros tm Htm' Hcl.
      destruct (Htm tm Htm' Hcl) as (st & [= <-] & ? & ?). done.
  - apply (c_dispatch_turn_inv q now _ tm0 (Some false) now).
    + done.
    + st_simpl. done.
    + intros tm Htm' Hcl. by destruct (Htm tm Htm' Hcl) as (st & ? & _).
Qed.

(** The timer of [q] firing. *)
Lemma c_fireTimer_turn_inv q now c :
  turn_inv config g c ->
  (forall tm, c_timer c = Some tm -> now <= due tm + l) ->
  turn_inv config g (c_fireTimer config q now c).1 /\
  (forall x buf d,
     speechTurn x buf d ∈ (c_fireTimer config q now c).2 ->
     minSpeechDuration config <= d
     <= maxSpeechDuration config + debounceThreshold config + g + l).
Proof.
  intros Hinv Hl. unfold c_fireTimer.
  destruct c as [s0 tm0 fl0]. st_simpl.
  destruct tm0 as [tm|]; [|split; [done|by intros x buf d ?%elem_of_nil]].
  destruct (cleared tm) eqn:Hcl; cbn [negb andb];
    [split; [done|by intros x buf d ?%elem_of_nil]|].
  destruct (due tm <=? now);
    [|split; [done|by intros x buf d ?%elem_of_nil]].
  destruct s0 as [st|]; [|split; [done|by intros x buf d ?%elem_of_nil]].
  destruct Hinv as [Hsp Htm]. st_simpl.
  destruct (Htm tm eq_refl Hcl) as (st' & [= <-] & Hidle & Hdue).
  specialize (Hl tm eq_refl).
  pose proof (c_processSpeechTurn_state q st now
    (c_set_flag (Some true) (mkCell (Some st) (Some tm) fl0))) as (Es & Et & _).
  split.
  - split; st_simpl; [|done]. rewrite Es. st_simpl.
    by intros st' [= <-].
  - intros x buf d [-> Hmin]%c_processSpeechTurn_turn. lia.
Qed.

Lemma turn_inv_empty : turn_inv config g c_empty.
Proof. by split. Qed.

Lemma c_step_turn_inv a q c :
  turn_inv config g c -> c_timely g l a q c ->
  turn_inv config g (c_step config a q c).1 /\
  (forall x buf d,
     speechTurn x buf d ∈ (c_step config a q c).2 ->
     minSpeechDuration config <= d
     <= maxSpeechDuration config + debounceThreshold config + g + l).
Proof.
  intros Hinv Ht. destruct a as [p b now|p now|[p|]]; cbn [c_step c_timely] in *.
  - destruct (decide (p = q)) as [->|Hne].
    + apply c_processAudioFrame_turn_inv; [done|by apply Ht].
    + split; [done|]. by intros x buf d ?%elem_of_nil.
  - destruct (decide (p = q)) as [->|Hne].
    + apply c_fireTimer_turn_inv; [done|by apply Ht].
    + split; [done|]. by intros x buf d ?%elem_of_nil.
  - case_bool_decide.
    + split; [apply turn_inv_empty|]. by intros x buf d ?%elem_of_nil.
    + destruct (decide (p = q)); (split; [|by intros x buf d ?%elem_of_nil]);
        [apply turn_inv_empty|done].
  - split; [apply turn_inv_empty|]. by intros x buf d ?%elem_of_nil.
Qed.

Lemma timely_c_timely a q vd :
  timely g l a vd -> c_timely g l a q (view q vd).
Proof.
  destruct a as [p b now|p now|p]; cbn [timely c_timely]; [| |done].
  - intros H ->. exact H.
  - intros H ->. exact H.
Qed.

Lemma run_turn_bounds (acts : list Action) (vd : t) :
  (forall q, turn_inv config g (view q vd)) ->
  well_timed config g l acts vd ->
  forall x buf d,
    speechTurn x buf d ∈ (run config acts vd).2 ->
    minSpeechDuration config <= d
    <= maxSpeechDuration config + debounceThreshold config + g + l.
Proof.
  revert vd. induction acts as [|a acts IH]; intros vd Hinv Hwt x buf d;
    cbn [run snd fst].
  - by intros ?%elem_of_nil.
  - destruct Hwt as [Ha Hwt]. intros [Hin|Hin]%elem_of_app.
    + rewrite step_events in Hin.
      destruct a as [p b now|p now|p]; [| |by apply elem_of_nil in Hin].
      * eapply (c_step_turn_inv _ p (view p vd)); [done| |exact Hin].
        by apply timely_c_timely.
      * eapply (c_step_turn_inv _ p (view p vd)); [done| |exact Hin].
        by apply timely_c_timely.
    + eapply IH; [|exact Hwt|exact Hin].
      intros q. rewrite step_view.
      apply c_step_turn_inv; [done|by apply timely_c_timely].
Qed.

End TurnDuration.

Lemma well_timedb_sound (config : VoiceDetection.VoiceDetectionConfig)
    (g l : Z) (acts : list VoiceDetection.Action) (vd : VoiceDetection.t) :
  VoiceDetection.well_timedb config g l acts vd = true ->
  VoiceDetection.well_timed config g l acts vd.
Proof.
  revert vd. induction acts as [|a acts IH]; intros vd; [done|].
  cbn [VoiceDetection.well_timedb VoiceDetection.well_timed].
  intros [Ha Hacts]%andb_prop. split; [|by apply IH].
  destruct a as [p b now|p now|p]; cbn [VoiceDetection.timelyb
    VoiceDetection.timely] in *; [| |done].
  - intros st Hst. rewrite Hst in Ha. by apply Z.leb_le.
  - intros tm Htm. rewrite Htm in Ha. by apply Z.leb_le.
Qed.

Lemma turn_durations_elem (es : list VoiceDetection.Event) (d : Z) :
  d ∈ VoiceDetection.turn_durations es ->
  exists p buf, VoiceDetection.speechTurn p buf d ∈ es.
Proof.
  unfold VoiceDetection.turn_durations. rewrite list_elem_of_In, in_flat_map.
  intros (e & He & Hd). apply list_elem_of_In in He.
  destruct e as [| |p buf d'|]; try by destruct Hd.
  destruct Hd as [<-|[]]. eauto.
Qed.

(** C2, as amended: every [speechTurn] reports a duration of at least
    [minSpeechDuration]; when the frames of a participant are at most
    [g] ms apart and a timer runs at most [l] ms late, the duration is
    at most [maxSpeechDuration + debounceThreshold + g + l].  A turn
    shorter than the minimum is discarded without an event, and a frame
    of a speaking participant that does not complete the run of silence
    frames finalizes the turn as soon as the elapsed time exceeds
    [maxSpeechDuration]. *)
Theorem turn_duration_bounded
    (config : VoiceDetection.VoiceDetectionConfig) (g l : Z)
    (acts : list VoiceDetection.Action) :
  0 <= VoiceDetection.maxSpeechDuration config ->
  0 <= VoiceDetection.debounceThreshold config ->
  0 <= l ->
  VoiceDetection.well_timed config g l acts VoiceDetection.empty ->
  (forall p buf d,
     VoiceDetection.speechTurn p buf d
       ∈ (VoiceDetection.run config acts VoiceDetection.empty).2 ->
     VoiceDetection.minSpeechDuration config <= d
     <= VoiceDetection.maxSpeechDuration config
        + VoiceDetection.debounceThreshold config + g + l) /\
  Forall (fun d =>
            VoiceDetection.minSpeechDuration config <= d
            <= VoiceDetection.maxSpeechDuration config
               + VoiceDetection.debounceThreshold config + g + l)
    (VoiceDetection.turn_durations
       (VoiceDetection.run config acts VoiceDetection.empty).2) /\
  (forall p st now vd,
     now - VoiceDetection.speechStartTime st
       < VoiceDetection.minSpeechDuration config ->
     (VoiceDetection.processSpeechTurn config p st now vd).2 = []) /\
  (forall st now,
     VoiceDetection.isSpeaking st = true ->
     VoiceDetection.silenceFrameCount st
       < VoiceDetection.silenceFramesRequired config ->
     VoiceDetection.maxSpeechDuration config
       < now - VoiceDetection.speechStartTime st ->
     VoiceDetection.branch config st now = VoiceDetection.MaxDuration).
Proof.
  intros Hmax Hdeb Hl Hwt.
  assert (Hall : forall p buf d,
            VoiceDetection.speechTurn p buf d
              ∈ (VoiceDetection.run config acts VoiceDetection.empty).2 ->
            VoiceDetection.minSpeechDuration config <= d
            <= VoiceDetection.maxSpeechDuration config
               + VoiceDetection.debounceThreshold config + g + l).
  { apply (run_turn_bounds config g l Hmax Hdeb Hl acts VoiceDetection.empty);
      [|done].
    intros q. rewrite view_empty. apply turn_inv_empty. }
  split; [exact Hall|]. split; [|split].
  - apply Forall_forall. intros d Hd.
    apply turn_durations_elem in Hd as (p & buf & Hin). by eapply Hall.
  - intros p st now vd Hshort.
    unfold VoiceDetection.processSpeechTurn, VoiceDetection.turn_of.
    destruct (Z.ltb_spec (now - VoiceDetection.speechStartTime st)
                (VoiceDetection.minSpeechDuration config)); [done|lia].
  - intros st now Hspk Hsil Hlong. unfold VoiceDetection.branch.
    rewrite Hspk. cbn [negb andb].
    destruct (Z.leb_spec (VoiceDetection.silenceFramesRequired config)
                (VoiceDetection.silenceFrameCount st)); [lia|].
    destruct (Z.ltb_spec (VoiceDetection.maxSpeechDuration config)
                (now - VoiceDetection.speechStartTime st)); [done|lia].
Qed.

Lemma turn_duration_bounded_witness :
  Forall (fun d =>
            VoiceDetection.minSpeechDuration VoiceDetection.defaultConfig <= d
            <= VoiceDetection.maxSpeechDuration VoiceDetection.defaultConfig
               + VoiceDetection.debounceThreshold VoiceDetection.defaultConfig
               + 100 + 0)
    (VoiceDetection.turn_durations
       (VoiceDetection.run VoiceDetection.defaultConfig
          VoiceDetection.long_turn VoiceDetection.empty).2) /\
  VoiceDetection.turn_durations
    (VoiceDetection.run VoiceDetection.defaultConfig
       VoiceDetection.long_turn VoiceDetection.empty).2 = [11600].
Proof.
  split.
  - apply (turn_duration_bounded VoiceDetection.defaultConfig 100 0
             VoiceDetection.long_turn).
    + vm_compute. congruence.
    + vm_compute. congruence.
    + lia.
    + apply well_timedb_sound. vm_compute. reflexivity.
  - vm_compute. reflexivity.
Defined.

(** C2, as stated, fails: with the default configuration and a frame
    every 100 ms, the last silence frame of the run arrives 10100 ms
    after the start of the turn (the frame before it was exactly at the
    maximum), and the debounced turn reports 11600 ms, above
    [maxSpeechDuration + debounceThreshold = 11500]. *)
Lemma turn_longer_than_bound :
  VoiceDetection.turn_durations
    (VoiceDetection.run VoiceDetection.defaultConfig
       VoiceDetection.long_turn VoiceDetection.empty).2 = [11600] /\
  VoiceDetection.maxSpeechDuration VoiceDetection.defaultConfig
    + VoiceDetection.debounceThreshold VoiceDetection.defaultConfig < 11600.
Proof. split; [vm_compute; reflexivity | reflexivity]. Qed.

(** ** C3: silence, debounce, one turn *)

Section SilenceScenario.

Import VoiceDetection.

Variable config : VoiceDetectionConfig.
Variable p : string.

Ltac st_simpl :=
  cbn [isSpeaking speechStartTime speechEndTime buffers totalLength
       lastActivity speechFrameCount silenceFrameCount count_frame
       manageBufferSize push_frame initialState start_speaking clear_turn
       stop_speaking end_at reset_fields c_state c_timer c_flag c_upd
       c_set_timer c_set_flag fmap option_fmap option_map fst snd
       negb andb orb due cleared counted] in *.

Lemma silence_frame_counts b now c k t0 :
  silent_for k t0 c -> is_silence_frame config b ->
  k + 1 < silenceFramesRequired config ->
  now - t0 <= maxSpeechDuration config ->
  (c_processAudioFrame config p b now c).2 = [] /\
  silent_for (k + 1) t0 (c_processAudioFrame config p b now c).1.
Proof.
  intros (Hfl & st & Hst & Hsp & Ht0 & Hk) (rms & Hrms & Hgt & Hlt) Hreq Hdur.
  rewrite (c_processAudioFrame_known config p b now c st rms) by done.
  destruct c as [s0 tm0 fl0]. st_simpl. subst s0.
  unfold c_dispatch, branch. st_simpl.
  rewrite Hsp, Hgt, Hlt, Ht0, Hk. st_simpl.
  destruct (Z.leb_spec (silenceFramesRequired config) (k + 1)); [lia|].
  destruct (Z.ltb_spec (maxSpeechDuration config) (now - t0)); [lia|].
  st_simpl. split; [done|]. split; [done|].
  eexists. split; [reflexivity|]. st_simpl. by rewrite Hgt, Hlt, Hsp, Ht0, Hk.
Qed.

Lemma silence_frame_ends b now c k t0 :
  silent_for k t0 c -> is_silence_frame config b ->
  silenceFramesRequired config <= k + 1 ->
  (c_processAudioFrame config p b now c).2 = [] /\
  debouncing t0 (now + debounceThreshold config)
    (c_processAudioFrame config p b now c).1.
Proof.
  intros (Hfl & st & Hst & Hsp & Ht0 & Hk) (rms & Hrms & Hgt & Hlt) Hreq.
  rewrite (c_processAudioFrame_known config p b now c st rms) by done.
  destruct c as [s0 tm0 fl0]. st_simpl. subst s0.
  unfold c_dispatch, branch. st_simpl.
  rewrite Hsp, Hgt, Hlt, Hk. st_simpl.
  destruct (Z.leb_spec (silenceFramesRequired config) (k + 1)); [|lia].
  unfold c_setupDebouncedProcessing, c_flagged in *. st_simpl. rewrite Hfl.
  st_simpl. split; [done|]. split; [done|].
  eexists. split; [reflexivity|]. done.
Qed.

(** A run of silence frames that brings the count to
    [silenceFramesRequired] on its last frame. *)
Lemma silence_run_debounces (fs : list (Buffer * Z)) (k t0 t_last : Z) (c : Cell) :
  silent_for k t0 c ->
  k + Z.of_nat (length fs) = silenceFramesRequired config ->
  Forall (fun f => is_silence_frame config f.1 /\
                   f.2 - t0 <= maxSpeechDuration config) fs ->
  last (snd <$> fs) = Some t_last ->
  (c_run config (frames p fs) p c).2 = [] /\
  debouncing t0 (t_last + debounceThreshold config)
    (c_run config (frames p fs) p c).1.
Proof.
  revert k c. induction fs as [|[b now] fs IH]; intros k c Hc Hlen Hall Hlast;
    [done|].
  apply Forall_cons in Hall as [[Hb Ht] Hall].
  cbn [frames fmap list_fmap c_run c_step fst snd].
  rewrite decide_True by done. fold (frames p fs).
  destruct fs as [|f' fs'].
  - cbn in Hlast. injection Hlast as <-. cbn [length] in Hlen.
    destruct (silence_frame_ends b now c k t0) as [-> Hd]; [done|done|lia|].
    done.
  - destruct (silence_frame_counts b now c k t0) as [-> Hc']; [done|done| |done|].
    { cbn [length] in Hlen. lia. }
    destruct (IH (k + 1) _ Hc') as [-> Hd]; [|done| |done].
    + cbn [length] in *. lia.
    + rewrite !fmap_cons in Hlast. rewrite last_cons_cons in Hlast.
      by rewrite fmap_cons.
Qed.

Lemma valid_buffer_long (b : Buffer) :
  isValidAudioBuffer b = true -> 1024 <= blen b.
Proof.
  unfold isValidAudioBuffer.
  destruct (Z.ltb_spec (blen b) 1024); [done|lia].
Qed.

(** The debounce timer firing on time. *)
Lemma debounce_fires (c : Cell) (t0 t T : Z) (st : VoiceActivityState) :
  debouncing t0 t c -> c_state c = Some st -> t <= T ->
  minSpeechDuration config <= T - t0 ->
  totalLength st <> 0 ->
  isValidAudioBuffer (concat (buffers st)) = true ->
  (c_fireTimer config p T c).2
  = [speechEnded p (concat (buffers st));
     speechTurn p (concat (buffers st)) (T - t0)].
Proof.
  intros (Htm & st' & Hst' & Ht0) Hst Hdue Hmin Htot Hvalid.
  rewrite Hst in Hst'. injection Hst' as <-.
  unfold c_fireTimer. rewrite Htm, Hst. st_simpl.
  destruct (Z.leb_spec t T); [|lia]. st_simpl.
  unfold c_processSpeechTurn, turn_of. rewrite Ht0.
  destruct (Z.ltb_spec (T - t0) (minSpeechDuration config)); [lia|].
  assert (Hne : (Z.of_nat (length (buffers st)) =? 0) = false).
  { apply Z.eqb_neq. apply valid_buffer_long in Hvalid.
    destruct (buffers st); [unfold blen in Hvalid; simpl in Hvalid; lia|].
    cbn [length]. lia. }
  rewrite Hne, Hvalid. st_simpl.
  destruct (Z.eqb_spec (totalLength st) 0); [done|]. done.
Qed.

End SilenceScenario.

(** C3, as amended: after speech has started, 150 consecutive silence
    frames ([silenceFramesRequired = 150]), none of them later than
    [maxSpeechDuration] after the start of the turn, emit nothing and
    set the debounce timer; when the timer fires, the turn being long
    enough and its buffer valid, exactly [speechEnded] and one
    [speechTurn] are emitted, and the duration reported is the time
    from the start of the turn to the firing of the timer: the time up
    to the 150th silence frame plus the debounce wait. *)
Theorem one_turn_after_silence
    (config : VoiceDetection.VoiceDetectionConfig) (p : string)
    (vd : VoiceDetection.t) (fs : list (Buffer * Z)) (t0 t_last T : Z)
    (st : VoiceDetection.VoiceActivityState) :
  VoiceDetection.silenceFramesRequired config = 150 ->
  length fs = 150%nat ->
  VoiceDetection.silent_for 0 t0 (VoiceDetection.view p vd) ->
  Forall (fun f => VoiceDetection.is_silence_frame config f.1 /\
                   f.2 - t0 <= VoiceDetection.maxSpeechDuration config) fs ->
  last (snd <$> fs) = Some t_last ->
  t_last + VoiceDetection.debounceThreshold config <= T ->
  VoiceDetection.minSpeechDuration config <= T - t0 ->
  VoiceDetection.participantStates
    (VoiceDetection.run config (VoiceDetection.frames p fs) vd).1 !! p
    = Some st ->
  VoiceDetection.totalLength st <> 0 ->
  VoiceDetection.isValidAudioBuffer (concat (VoiceDetection.buffers st)) = true ->
  (VoiceDetection.run config
     (VoiceDetection.frames p fs ++ [VoiceDetection.Fire p T]) vd).2
  = [VoiceDetection.speechEnded p (concat (VoiceDetection.buffers st));
     VoiceDetection.speechTurn p (concat (VoiceDetection.buffers st)) (T - t0)]
  /\ (t_last - t0) + VoiceDetection.debounceThreshold config <= T - t0.
Proof.
  intros Hreq Hlen Hsil Hall Hlast Hdue Hmin Hst Htot Hvalid.
  split; [|lia].
  rewrite run_app. cbn [VoiceDetection.run VoiceDetection.step fst snd].
  rewrite (run_frames_events config p fs vd).
  destruct (silence_run_debounces config p fs 0 t0 t_last
              (VoiceDetection.view p vd)) as [-> Hdeb]; [done|lia|done|done|].
  rewrite app_nil_r, app_nil_l.
  rewrite (proj2 (fireTimer_view config p p T _)).
  rewrite run_view.
  apply (debounce_fires config p _ t0 (t_last + VoiceDetection.debounceThreshold config));
    try done.
  rewrite <- run_view. exact Hst.
Qed.

Lemma quiet_frame_is_silence :
  VoiceDetection.is_silence_frame VoiceDetection.silence_config
    VoiceDetection.quiet_frame.
Proof.
  exists 0.0050048828125%float. repeat split; vm_compute; reflexivity.
Qed.

Lemma one_turn_after_silence_witness :
  (VoiceDetection.run VoiceDetection.silence_config
     (VoiceDetection.frames "alice"
        (VoiceDetection.every 10 VoiceDetection.quiet_frame 20 150)
      ++ [VoiceDetection.Fire "alice" 3020])
     VoiceDetection.speech_started).2
  = [VoiceDetection.speechEnded "alice"
       (concat (VoiceDetection.buffers VoiceDetection.after_silence));
     VoiceDetection.speechTurn "alice"
       (concat (VoiceDetection.buffers VoiceDetection.after_silence))
       (3020 - 20)]
  /\ (1520 - 20) + VoiceDetection.debounceThreshold VoiceDetection.silence_config
     <= 3020 - 20.
Proof.
  apply (one_turn_after_silence VoiceDetection.silence_config "alice"
           VoiceDetection.speech_started
           (VoiceDetection.every 10 VoiceDetection.quiet_frame 20 150)
           20 1520 3020 VoiceDetection.after_silence).
  - reflexivity.
  - reflexivity.
  - split; [vm_compute; reflexivity|].
    eexists. split; [vm_compute; reflexivity|]. repeat split.
  - apply Forall_forall. intros f Hf.
    unfold VoiceDetection.every in Hf.
    apply list_elem_of_fmap in Hf as (k & -> & Hk%elem_of_seq).
    split; [exact quiet_frame_is_silence|]. cbn [snd]. 
    change (VoiceDetection.maxSpeechDuration VoiceDetection.silence_config)
      with 10000. lia.
  - vm_compute. reflexivity.
  - vm_compute. congruence.
  - vm_compute. congruence.
  - vm_compute. reflexivity.
  - vm_compute. congruence.
  - vm_compute. reflexivity.
Defined.

(** C3, as stated, fails: in the scenario (first speech frame at 0 ms,
    speech started at 20 ms, 150th silence frame at 1520 ms, debounce
    1500 ms elapsed at 3020 ms) the one [speechTurn] reports 3000 ms,
    the 1500 ms of debounce wait included, against 1520 ms from the
    first speech frame to the 150th silence frame. *)
Lemma duration_includes_debounce :
  VoiceDetection.turn_durations
    (VoiceDetection.run VoiceDetection.silence_config
       (VoiceDetection.frames "alice" VoiceDetection.silence_scenario
        ++ [VoiceDetection.Fire "alice" 3020])
       VoiceDetection.empty).2 = [3000] /\
  (head (snd <$> VoiceDetection.silence_scenario),
   last (snd <$> VoiceDetection.silence_scenario)) = (Some 0, Some 1520) /\
  Forall (fun f =>
            VoiceDetection.is_silence_frame VoiceDetection.silence_config f.1)
    (drop 3 VoiceDetection.silence_scenario) /\
  length (drop 3 VoiceDetection.silence_scenario) = 150%nat /\
  3000 - (1520 - 0)
  = VoiceDetection.debounceThreshold VoiceDetection.silence_config - 20.
Proof.
  split; [vm_compute; reflexivity|].
  split; [vm_compute; reflexivity|].
  split; [|split; reflexivity].
  apply Forall_forall. intros f Hf.
  change (drop 3 VoiceDetection.silence_scenario)
    with (VoiceDetection.every 10 VoiceDetection.quiet_frame 20 150) in Hf.
  unfold VoiceDetection.every in Hf.
  apply list_elem_of_fmap in Hf as (k & -> & _).
  exact quiet_frame_is_silence.
Qed.

(** ** The monitor: listeners, windows, teardown *)

Section MonitorFacts.

Variable config : AudioMonitor.AudioMonitorConfig.

(** The detector's events of an action carry its participant. *)
Lemma detector_frame_events q b now vd e :
  e ∈ (VoiceDetection.processAudioFrame
         (AudioMonitor.detectionConfig config) q b now vd).1.2 ->
  VoiceDetection.event_participant e = q.
Proof.
  rewrite (proj2 (processAudioFrame_view _ q q b now vd)).
  intros He.
  apply (c_step_events (AudioMonitor.detectionConfig config)
           (VoiceDetection.Frame q b now) q (VoiceDetection.view q vd)).
  cbn [VoiceDetection.c_step]. by rewrite decide_True.
Qed.

Lemma detector_fire_events q now vd e :
  e ∈ (VoiceDetection.fireTimer
         (AudioMonitor.detectionConfig config) q now vd).2 ->
  VoiceDetection.event_participant e = q.
Proof.
  rewrite (proj2 (fireTimer_view _ q q now vd)).
  intros He.
  apply (c_step_events (AudioMonitor.detectionConfig config)
           (VoiceDetection.Fire q now) q (VoiceDetection.view q vd)).
  cbn [VoiceDetection.c_step]. by rewrite decide_True.
Qed.

(** What the listeners do: they leave the detector, the windows and the
    monitoring flag alone, touch the state of the event's participant
    only, and emit events of that participant, none of them
    [interruptionDetected]. *)
Lemma listener_spec e now am :
  AudioMonitor.voiceDetection (AudioMonitor.listener e now am).1
    = AudioMonitor.voiceDetection am /\
  AudioMonitor.volumeBuffers (AudioMonitor.listener e now am).1
    = AudioMonitor.volumeBuffers am /\
  AudioMonitor.isMonitoring (AudioMonitor.listener e now am).1
    = AudioMonitor.isMonitoring am /\
  (forall p, p <> VoiceDetection.event_participant e ->
     AudioMonitor.participantStates (AudioMonitor.listener e now am).1 !! p
     = AudioMonitor.participantStates am !! p) /\
  Forall (fun x => AudioMonitor.emitted_participant x
                   = VoiceDetection.event_participant e /\
                   forall y, x <> AudioMonitor.monitor
                                    (AudioMonitor.interruptionDetected y))
    (AudioMonitor.listener e now am).2.
Proof.
  destruct e as [q|q buf|q buf d|q]; cbn [AudioMonitor.listener
    VoiceDetection.event_participant].
  - unfold AudioMonitor.handleSpeechStarted.
    destruct (AudioMonitor.participantStates am !! q) as [st|]; [|done].
    destruct (negb (AudioMonitor.isSpeaking st)); [|done].
    cbn. repeat split; try done.
    + intros p Hp. by rewrite lookup_insert_ne.
    + repeat constructor; done.
  - unfold AudioMonitor.handleSpeechEnded.
    destruct (AudioMonitor.participantStates am !! q) as [st|]; [|done].
    destruct (AudioMonitor.isSpeaking st); [|done].
    cbn. repeat split; try done.
    + intros p Hp. by rewrite lookup_insert_ne.
    + repeat constructor; done.
  - cbn. repeat split; try done. repeat constructor; done.
  - done.
Qed.

Lemma deliver_spec es now am q :
  Forall (fun e => VoiceDetection.event_participant e = q) es ->
  AudioMonitor.voiceDetection (AudioMonitor.deliver es now am).1
    = AudioMonitor.voiceDetection am /\
  AudioMonitor.volumeBuffers (AudioMonitor.deliver es now am).1
    = AudioMonitor.volumeBuffers am /\
  AudioMonitor.isMonitoring (AudioMonitor.deliver es now am).1
    = AudioMonitor.isMonitoring am /\
  (forall p, p <> q ->
     AudioMonitor.participantStates (AudioMonitor.deliver es now am).1 !! p
     = AudioMonitor.participantStates am !! p) /\
  Forall (fun x => AudioMonitor.emitted_participant x = q /\
                   forall y, x <> AudioMonitor.monitor
                                    (AudioMonitor.interruptionDetected y))
    (AudioMonitor.deliver es now am).2.
Proof.
  intros Hes. revert am.
  induction Hes as [|e es He _ IH]; intros am; [done|].
  cbn [AudioMonitor.deliver fst snd].
  destruct (listener_spec e now am) as (L1 & L2 & L3 & L4 & L5).
  destruct (IH (AudioMonitor.listener e now am).1) as (D1 & D2 & D3 & D4 & D5).
  split; [congruence|]. split; [congruence|]. split; [congruence|].
  split.
  - intros p Hp. rewrite D4 by done. apply L4. congruence.
  - constructor; [by split|]. apply Forall_app. split; [|done].
    eapply Forall_impl; [exact L5|]. intros x [? ?]. split; congruence.
Qed.

End MonitorFacts.

Section MonitorFrames.

Variable config : AudioMonitor.AudioMonitorConfig.

Local Abbreviation W := (AudioMonitor.volumeWindowSize config).

Lemma window_of_update q v am :
  AudioMonitor.window_of q (AudioMonitor.updateVolumeBuffer config q v am)
  = (if W <? Z.of_nat (length (AudioMonitor.window_of q am ++ [v]))
     then tail (AudioMonitor.window_of q am ++ [v])
     else AudioMonitor.window_of q am ++ [v]).
Proof.
  unfold AudioMonitor.window_of, AudioMonitor.updateVolumeBuffer. cbn.
  by rewrite lookup_insert_eq.
Qed.

Lemma length_tail_app {A} (l : list A) (x : A) :
  length (tail (l ++ [x])) = length l.
Proof. destruct l; simpl; [done|]. rewrite length_app. simpl. lia. Qed.

Lemma window_update_length q v am :
  Z.of_nat (length (AudioMonitor.window_of q
                      (AudioMonitor.updateVolumeBuffer config q v am)))
  <= Z.of_nat (length (AudioMonitor.window_of q am)) + 1 /\
  (Z.of_nat (length (AudioMonitor.window_of q am)) <= W ->
   Z.of_nat (length (AudioMonitor.window_of q
                       (AudioMonitor.updateVolumeBuffer config q v am))) <= W).
Proof.
  rewrite window_of_update.
  destruct (Z.ltb_spec W (Z.of_nat (length (AudioMonitor.window_of q am ++ [v]))))
    as [Hlt|Hge].
  - rewrite length_tail_app. rewrite length_app in Hlt. cbn [length] in Hlt. lia.
  - rewrite length_app in *. cbn [length] in *. lia.
Qed.

Lemma update_other q p v am :
  p <> q ->
  AudioMonitor.window_of p (AudioMonitor.updateVolumeBuffer config q v am)
  = AudioMonitor.window_of p am.
Proof.
  intros Hne. unfold AudioMonitor.window_of, AudioMonitor.updateVolumeBuffer.
  cbn. by rewrite lookup_insert_ne.
Qed.

(** [checkForInterruption] emits at most [interruptionDetected q], and
    only on a window of at least [W] entries whose mean is above the
    threshold; it then empties the window. *)
Lemma check_spec q am :
  let r := AudioMonitor.checkForInterruption config q am in
  AudioMonitor.voiceDetection r.1 = AudioMonitor.voiceDetection am /\
  AudioMonitor.participantStates r.1 = AudioMonitor.participantStates am /\
  AudioMonitor.isMonitoring r.1 = AudioMonitor.isMonitoring am /\
  (forall p, p <> q -> AudioMonitor.window_of p r.1 = AudioMonitor.window_of p am) /\
  ((r.2 = [] /\ AudioMonitor.window_of q r.1 = AudioMonitor.window_of q am) \/
   (r.2 = [AudioMonitor.monitor (AudioMonitor.interruptionDetected q)] /\
    AudioMonitor.window_of q r.1 = [] /\
    W <= Z.of_nat (length (AudioMonitor.window_of q am)) /\
    Num.gt (AudioMonitor.average (AudioMonitor.window_of q am))
           (AudioMonitor.speakingThreshold config) = true)).
Proof.
  unfold AudioMonitor.checkForInterruption, AudioMonitor.window_of.
  destruct (AudioMonitor.volumeBuffers am !! q) as [w|] eqn:Hw; cbn zeta.
  2:{ repeat split; try done. (left; cbn [fst snd]; by rewrite Hw). }
  destruct (Z.ltb_spec (Z.of_nat (length w)) W) as [Hlt|Hge].
  { repeat split; try done. (left; cbn [fst snd]; by rewrite Hw). }
  destruct (Num.gt _ _) eqn:Hgt.
  - cbn. repeat split; try done.
    + intros p Hp. by rewrite lookup_insert_ne.
    + right. rewrite lookup_insert_eq. done.
  - repeat split; try done. (left; cbn [fst snd]; by rewrite Hw).
Qed.

(** One frame of [q] through the monitor. *)
Lemma frame_spec q b now am :
  let r := AudioMonitor.processAudioFrame config q b now am in
  (AudioMonitor.participantStates am !! q = None -> r.1 = (am, [])) /\
  (forall p, p <> q ->
     AudioMonitor.participantStates r.1.1 !! p
       = AudioMonitor.participantStates am !! p /\
     VoiceDetection.view p (AudioMonitor.voiceDetection r.1.1)
       = VoiceDetection.view p (AudioMonitor.voiceDetection am) /\
     AudioMonitor.window_of p r.1.1 = AudioMonitor.window_of p am) /\
  Forall (fun x => AudioMonitor.emitted_participant x = q) r.1.2 /\
  (Z.of_nat (length (AudioMonitor.window_of q r.1.1))
     <= Z.of_nat (length (AudioMonitor.window_of q am)) + 1 /\
   (Z.of_nat (length (AudioMonitor.window_of q am)) <= W ->
    Z.of_nat (length (AudioMonitor.window_of q r.1.1)) <= W)) /\
  (forall x, AudioMonitor.monitor (AudioMonitor.interruptionDetected x) ∈ r.1.2 ->
     x = q /\ AudioMonitor.window_of q r.1.1 = [] /\
     exists volume,
       calculateVolume b = Ok volume /\
       W <= Z.of_nat (length (AudioMonitor.window_of q
              (AudioMonitor.updateVolumeBuffer config q volume am))) /\
       Num.gt (AudioMonitor.average (AudioMonitor.window_of q
                 (AudioMonitor.updateVolumeBuffer config q volume am)))
              (AudioMonitor.speakingThreshold config) = true).
Proof.
  cbn zeta. unfold AudioMonitor.processAudioFrame.
  destruct (AudioMonitor.participantStates am !! q) as [st|] eqn:Hst.
  2:{ cbn [fst snd]. split; [done|]. split; [done|]. split; [done|].
      split; [split; [lia|done]|]. by intros x ?%elem_of_nil. }
  destruct (AudioMonitor.isMonitoring am) eqn:Hmon; cbn [negb].
  2:{ cbn [fst snd]. split; [done|]. split; [done|]. split; [done|].
      split; [split; [lia|done]|]. by intros x ?%elem_of_nil. }
  set (am0 := AudioMonitor.set_states _ am).
  assert (H0 : AudioMonitor.voiceDetection am0 = AudioMonitor.voiceDetection am
               /\ AudioMonitor.volumeBuffers am0 = AudioMonitor.volumeBuffers am
               /\ forall p, p <> q ->
                    AudioMonitor.participantStates am0 !! p
                    = AudioMonitor.participantStates am !! p).
  { unfold am0. cbn. repeat split. intros p Hp. by rewrite lookup_insert_ne. }
  destruct H0 as (V0 & B0 & S0).
  assert (W0 : forall p, AudioMonitor.window_of p am0 = AudioMonitor.window_of p am).
  { intros p. unfold AudioMonitor.window_of. by rewrite B0. }
  destruct (calculateVolume b) as [volume|e] eqn:Hvol.
  2:{ cbn [fst snd]. split; [done|]. split.
      { intros p Hp. rewrite V0, W0, S0 by done. done. }
      split; [done|]. split; [rewrite W0; split; [lia|done]|].
      by intros x ?%elem_of_nil. }
  set (am1 := AudioMonitor.updateVolumeBuffer config q volume am0).
  assert (H1 : AudioMonitor.voiceDetection am1 = AudioMonitor.voiceDetection am0
               /\ AudioMonitor.participantStates am1
                  = AudioMonitor.participantStates am0) by done.
  destruct H1 as (V1 & S1).
  assert (Wq1 : AudioMonitor.window_of q am1
                = AudioMonitor.window_of q
                    (AudioMonitor.updateVolumeBuffer config q volume am)).
  { unfold am1. rewrite !window_of_update, W0. done. }
  pose proof (check_spec q am1) as (V2 & S2 & M2 & Wo2 & Hchk). cbn zeta in *.
  set (r1 := AudioMonitor.checkForInterruption config q am1) in *.
  destruct (VoiceDetection.processAudioFrame _ q b now
              (AudioMonitor.voiceDetection r1.1)) as [[vd es] c] eqn:Evd.
  assert (Hes : Forall (fun e => VoiceDetection.event_participant e = q) es).
  { apply Forall_forall. intros e He.
    apply (detector_frame_events config q b now
             (AudioMonitor.voiceDetection r1.1)). by rewrite Evd. }
  destruct (deliver_spec es now (AudioMonitor.set_detection vd r1.1) q Hes)
    as (D1 & D2 & D3 & D4 & D5).
  set (r2 := AudioMonitor.deliver es now (AudioMonitor.set_detection vd r1.1)) in *.
  assert (Wd : forall p, AudioMonitor.window_of p r2.1 = AudioMonitor.window_of p r1.1).
  { intros p. unfold AudioMonitor.window_of. by rewrite D2. }
  assert (Hfinal :
    (forall p, p <> q ->
       AudioMonitor.participantStates r2.1 !! p
         = AudioMonitor.participantStates am !! p /\
       VoiceDetection.view p (AudioMonitor.voiceDetection r2.1)
         = VoiceDetection.view p (AudioMonitor.voiceDetection am) /\
       AudioMonitor.window_of p r2.1 = AudioMonitor.window_of p am) /\
    (Z.of_nat (length (AudioMonitor.window_of q r2.1))
       <= Z.of_nat (length (AudioMonitor.window_of q am)) + 1 /\
     (Z.of_nat (length (AudioMonitor.window_of q am)) <= W ->
      Z.of_nat (length (AudioMonitor.window_of q r2.1)) <= W)) /\
    (forall x, AudioMonitor.monitor (AudioMonitor.interruptionDetected x)
                 ∈ r1.2 ++ r2.2 ->
       x = q /\ AudioMonitor.window_of q r2.1 = [] /\
       W <= Z.of_nat (length (AudioMonitor.window_of q
              (AudioMonitor.updateVolumeBuffer config q volume am))) /\
       Num.gt (AudioMonitor.average (AudioMonitor.window_of q
                 (AudioMonitor.updateVolumeBuffer config q volume am)))
              (AudioMonitor.speakingThreshold config) = true) /\
    Forall (fun x => AudioMonitor.emitted_participant x = q) (r1.2 ++ r2.2)).
  { split; [|split; [|split]].
    - intros p Hp. split; [|split].
      + rewrite D4 by done. cbn. rewrite S2, S1. by apply S0.
      + rewrite D1. cbn.
        pose proof (proj1 (processAudioFrame_view
          (AudioMonitor.detectionConfig config) q p b now
          (AudioMonitor.voiceDetection r1.1))) as Hv.
        rewrite Evd in Hv. cbn [fst] in Hv. rewrite Hv.
        rewrite decide_False by done. by rewrite V2, V1, V0.
      + rewrite Wd, Wo2 by done. unfold am1. rewrite update_other by done.
        apply W0.
    - rewrite Wd.
      pose proof (window_update_length q volume am) as [Hlen HlenW].
      rewrite <- Wq1 in Hlen, HlenW.
      destruct Hchk as [[_ ->]|(_ & -> & Hfull & _)]; [done|].
      cbn [length]. split; [lia|]. intros Hle. specialize (HlenW Hle). lia.
    - intros x [Hx|Hx]%elem_of_app.
      + destruct Hchk as [[E _]|(E & Wn & Hlen & Hgt)]; rewrite E in Hx.
        * by apply elem_of_nil in Hx.
        * apply list_elem_of_singleton in Hx. injection Hx as ->.
          rewrite Wd, Wn, <- Wq1. done.
      + rewrite Forall_forall in D5. destruct (D5 _ Hx) as [_ Hno].
        by destruct (Hno x).
    - apply Forall_app. split.
      + destruct Hchk as [[-> _]|(-> & _)]; repeat constructor.
      + eapply Forall_impl; [exact D5|]. by intros x [? _]. }
  destruct Hfinal as (F1 & F2 & F3 & F4).
  assert (Hsome : Some st = None -> False) by done.
  destruct c; cbn [fst snd].
  - split; [done|]. split; [exact F1|]. split.
    + rewrite app_assoc. apply Forall_app. split; [done|].
      repeat constructor.
    + split; [exact F2|]. intros x Hx. rewrite app_assoc in Hx.
      apply elem_of_app in Hx as [Hx|Hx].
      * destruct (F3 x Hx) as (? & ? & ? & ?). eauto 10.
      * apply list_elem_of_singleton in Hx. done.
  - split; [done|]. split; [exact F1|]. split; [done|].
    split; [exact F2|]. intros x Hx.
    destruct (F3 x Hx) as (? & ? & ? & ?). eauto 10.
Qed.

End MonitorFrames.

Section MonitorRuns.

Variable config : AudioMonitor.AudioMonitorConfig.

Local Abbreviation W := (AudioMonitor.volumeWindowSize config).

Lemma fire_spec q now am :
  let r := AudioMonitor.fireTimer config q now am in
  (VoiceDetection.c_timer
     (VoiceDetection.view q (AudioMonitor.voiceDetection am)) = None ->
   r = (am, [])) /\
  AudioMonitor.volumeBuffers r.1 = AudioMonitor.volumeBuffers am /\
  (forall p, p <> q ->
     AudioMonitor.participantStates r.1 !! p
       = AudioMonitor.participantStates am !! p /\
     VoiceDetection.view p (AudioMonitor.voiceDetection r.1)
       = VoiceDetection.view p (AudioMonitor.voiceDetection am)) /\
  Forall (fun x => AudioMonitor.emitted_participant x = q /\
                   forall y, x <> AudioMonitor.monitor
                                    (AudioMonitor.interruptionDetected y)) r.2.
Proof.
  cbn zeta. unfold AudioMonitor.fireTimer.
  set (r0 := VoiceDetection.fireTimer _ q now (AudioMonitor.voiceDetection am)).
  assert (Hes : Forall (fun e => VoiceDetection.event_participant e = q) r0.2).
  { apply Forall_forall. intros e He.
    by apply (detector_fire_events config q now (AudioMonitor.voiceDetection am)). }
  destruct (deliver_spec r0.2 now (AudioMonitor.set_detection r0.1 am) q Hes)
    as (D1 & D2 & D3 & D4 & D5).
  split; [|split; [done|split; [|done]]].
  - intros Hnone. subst r0. unfold VoiceDetection.fireTimer in *.
    cbn in Hnone. rewrite Hnone. cbn. by destruct am.
  - intros p Hp. split.
    + by rewrite D4.
    + rewrite D1. cbn [AudioMonitor.set_detection AudioMonitor.voiceDetection].
      subst r0.
      rewrite (proj1 (fireTimer_view _ q p now (AudioMonitor.voiceDetection am))).
      by rewrite decide_False.
Qed.

Lemma window_of_same am am' p :
  AudioMonitor.volumeBuffers am' = AudioMonitor.volumeBuffers am ->
  AudioMonitor.window_of p am' = AudioMonitor.window_of p am.
Proof. unfold AudioMonitor.window_of. by intros ->. Qed.

(** Teardown leaves nothing of the participant behind. *)
Lemma stopMonitoring_stopped p am :
  AudioMonitor.stopped p (AudioMonitor.stopMonitoring p am).
Proof.
  split; cbn.
  - apply lookup_delete_eq.
  - case_bool_decide; [apply view_empty|].
    unfold VoiceDetection.view, VoiceDetection.c_empty. cbn.
    by rewrite !lookup_delete_eq.
Qed.

(** A participant that was torn down stays so, and nothing is emitted
    for it, until it is started again. *)
Lemma step_stopped a am p :
  AudioMonitor.stopped p am ->
  match a with AudioMonitor.Start q _ => q <> p | _ => True end ->
  AudioMonitor.stopped p (AudioMonitor.step config a am).1 /\
  Forall (fun x => AudioMonitor.emitted_participant x <> p)
    (AudioMonitor.step config a am).2.
Proof.
  intros [Hst Hvd] Ha. destruct a as [q now|q|q b now|q now];
    cbn [AudioMonitor.step fst snd].
  - split; [|done]. unfold AudioMonitor.startMonitoring.
    destruct (AudioMonitor.participantStates am !! q); split; cbn; try done.
    by rewrite lookup_insert_ne.
  - split; [|done].
    unfold AudioMonitor.stopped, AudioMonitor.stopMonitoring.
    cbn [AudioMonitor.participantStates AudioMonitor.voiceDetection]. split.
    + destruct (decide (q = p)) as [->|Hne];
        [apply lookup_delete_eq|by rewrite lookup_delete_ne].
    + pose proof (cleanup_view (AudioMonitor.detectionConfig config)
        (Some q) p (AudioMonitor.voiceDetection am)) as Hc.
      rewrite Hc, Hvd. cbn. case_bool_decide; [done|].
      by destruct (decide (q = p)).
  - pose proof (frame_spec config q b now am) as (Hnone & Hoth & Hev & _).
    cbn zeta in *. destruct (decide (q = p)) as [->|Hne].
    + rewrite (Hnone Hst). by split.
    + destruct (Hoth p) as (E1 & E2 & _); [done|]. split.
      * split; congruence.
      * eapply Forall_impl; [exact Hev|]. cbn. congruence.
  - pose proof (fire_spec q now am) as (Hnone & _ & Hoth & Hev).
    cbn zeta in *. destruct (decide (q = p)) as [->|Hne].
    + rewrite Hnone; [by split|]. by rewrite Hvd.
    + destruct (Hoth p) as (E1 & E2); [done|]. split.
      * split; congruence.
      * eapply Forall_impl; [exact Hev|]. cbn. intros x [? _]. congruence.
Qed.

Lemma run_stopped acts am p :
  AudioMonitor.stopped p am ->
  AudioMonitor.never_started p acts ->
  AudioMonitor.stopped p (AudioMonitor.run config acts am).1 /\
  Forall (fun x => AudioMonitor.emitted_participant x <> p)
    (AudioMonitor.run config acts am).2.
Proof.
  intros Hs Hacts. revert am Hs.
  induction Hacts as [|a acts Ha _ IH]; intros am Hs; [done|].
  cbn [AudioMonitor.run fst snd].
  destruct (step_stopped a am p Hs Ha) as [Hs' Hev].
  destruct (IH _ Hs') as [Hs'' Hev'].
  split; [done|]. by apply Forall_app.
Qed.

(** The window of [p] grows by at most one entry per frame of [p], and
    an interruption needs [W] entries. *)
Lemma step_window a am p n :
  0 <= n ->
  Z.of_nat (length (AudioMonitor.window_of p am)) <= n ->
  let r := AudioMonitor.step config a am in
  Z.of_nat (length (AudioMonitor.window_of p r.1))
    <= n + AudioMonitor.frames_of p [a] /\
  (AudioMonitor.monitor (AudioMonitor.interruptionDetected p) ∈ r.2 ->
   W <= n + AudioMonitor.frames_of p [a]).
Proof.
  intros Hn Hlen. destruct a as [q now|q|q b now|q now];
    cbn [AudioMonitor.step AudioMonitor.frames_of fst snd]; cbn zeta.
  - split; [|by intros ?%elem_of_nil].
    unfold AudioMonitor.startMonitoring, AudioMonitor.window_of in *.
    destruct (AudioMonitor.participantStates am !! q); cbn; [lia|].
    destruct (decide (q = p)) as [->|Hne];
      [rewrite lookup_insert_eq; cbn; lia|rewrite lookup_insert_ne by done; lia].
  - split; [|by intros ?%elem_of_nil].
    unfold AudioMonitor.stopMonitoring, AudioMonitor.window_of in *. cbn.
    destruct (decide (q = p)) as [->|Hne];
      [rewrite lookup_delete_eq; cbn; lia|rewrite lookup_delete_ne by done; lia].
  - pose proof (frame_spec config q b now am) as (_ & Hoth & Hev & [Hw _] & Hint).
    cbn zeta in *. destruct (decide (q = p)) as [->|Hne].
    + split; [lia|]. intros Hx.
      destruct (Hint p Hx) as (_ & _ & volume & _ & Hfull & _).
      pose proof (proj1 (window_update_length config p volume am)). lia.
    + destruct (Hoth p) as (_ & _ & ->); [done|]. split; [lia|].
      intros Hx. rewrite Forall_forall in Hev. specialize (Hev _ Hx).
      cbn in Hev. congruence.
  - pose proof (fire_spec q now am) as (_ & Hvol & _ & Hev). cbn zeta in *.
    rewrite (window_of_same _ _ p Hvol). split; [lia|].
    intros Hx. rewrite Forall_forall in Hev. destruct (Hev _ Hx) as [_ Hno].
    by destruct (Hno p).
Qed.

Lemma frames_of_cons p a acts :
  AudioMonitor.frames_of p (a :: acts)
  = AudioMonitor.frames_of p [a] + AudioMonitor.frames_of p acts.
Proof. destruct a; cbn [AudioMonitor.frames_of]; lia. Qed.

Lemma frames_of_nonneg p acts : 0 <= AudioMonitor.frames_of p acts.
Proof.
  induction acts as [|a acts IH]; [done|]. rewrite frames_of_cons.
  destruct a as [| |q ? ?|]; cbn [AudioMonitor.frames_of]; try lia.
  destruct (decide (q = p)); lia.
Qed.

Lemma run_window acts am p n :
  0 <= n ->
  Z.of_nat (length (AudioMonitor.window_of p am)) <= n ->
  AudioMonitor.monitor (AudioMonitor.interruptionDetected p)
    ∈ (AudioMonitor.run config acts am).2 ->
  W <= n + AudioMonitor.frames_of p acts.
Proof.
  revert am n. induction acts as [|a acts IH]; intros am n Hn Hlen;
    cbn [AudioMonitor.run fst snd]; [by intros ?%elem_of_nil|].
  rewrite frames_of_cons.
  destruct (step_window a am p n Hn Hlen) as [Hlen' Hint]. cbn zeta in *.
  pose proof (frames_of_nonneg p [a]).
  pose proof (frames_of_nonneg p acts).
  intros [Hx|Hx]%elem_of_app.
  - specialize (Hint Hx). lia.
  - specialize (IH _ (n + AudioMonitor.frames_of p [a]) ltac:(lia) Hlen' Hx).
    lia.
Qed.

(** No window ever holds more than [W] entries. *)
Lemma step_window_bounded a am :
  0 <= W ->
  (forall p, Z.of_nat (length (AudioMonitor.window_of p am)) <= W) ->
  forall p, Z.of_nat (length (AudioMonitor.window_of p
                                (AudioMonitor.step config a am).1)) <= W.
Proof.
  intros HW Hall p. destruct a as [q now|q|q b now|q now];
    cbn [AudioMonitor.step fst snd].
  - specialize (Hall p).
    unfold AudioMonitor.startMonitoring, AudioMonitor.window_of in *.
    destruct (AudioMonitor.participantStates am !! q); cbn; [lia|].
    destruct (decide (q = p)) as [->|Hne];
      [rewrite lookup_insert_eq; cbn; lia|rewrite lookup_insert_ne by done; lia].
  - specialize (Hall p).
    unfold AudioMonitor.stopMonitoring, AudioMonitor.window_of in *. cbn.
    destruct (decide (q = p)) as [->|Hne];
      [rewrite lookup_delete_eq; cbn; lia|rewrite lookup_delete_ne by done; lia].
  - pose proof (frame_spec config q b now am) as (_ & Hoth & _ & [_ Hw] & _).
    cbn zeta in *. destruct (decide (q = p)) as [->|Hne].
    + by apply Hw.
    + destruct (Hoth p) as (_ & _ & ->); [done|]. apply Hall.
  - pose proof (fire_spec q now am) as (_ & Hvol & _). cbn zeta in *.
    rewrite (window_of_same _ _ p Hvol). apply Hall.
Qed.

Lemma run_window_bounded acts am :
  0 <= W ->
  (forall p, Z.of_nat (length (AudioMonitor.window_of p am)) <= W) ->
  forall p, Z.of_nat (length (AudioMonitor.window_of p
                                (AudioMonitor.run config acts am).1)) <= W.
Proof.
  intros HW. revert am. induction acts as [|a acts IH]; intros am Hall;
    cbn [AudioMonitor.run fst snd]; [done|].
  apply IH. by apply step_window_bounded.
Qed.

End MonitorRuns.

(** ** C6: teardown during the debounce wait *)

Lemma c_run_torn_down (config : VoiceDetection.VoiceDetectionConfig)
    (p : string) (acts : list VoiceDetection.Action) :
  Forall (fun a => match a with
                   | VoiceDetection.Frame q _ _ => q <> p
                   | _ => True
                   end) acts ->
  VoiceDetection.c_run config acts p VoiceDetection.c_empty
  = (VoiceDetection.c_empty, []).
Proof.
  induction 1 as [|a acts Ha _ IH]; [done|].
  cbn [VoiceDetection.c_run].
  assert (Hstep : VoiceDetection.c_step config a p VoiceDetection.c_empty
                  = (VoiceDetection.c_empty, [])).
  { destruct a as [q b now|q now|[q|]]; cbn [VoiceDetection.c_step].
    - by rewrite decide_False.
    - by destruct (decide (q = p)).
    - case_bool_decide; [done|]. by destruct (decide (q = p)).
    - done. }
  rewrite Hstep. cbn [fst snd]. by rewrite IH.
Qed.

(** C6: [stopMonitoring] (and [cleanup] of the detector) removes the
    participant's timer and state at once, pending timer and buffered
    segment included; whatever happens next, short of starting the
    participant again, no event of that participant is emitted: no
    [speechTurn], no [speechEnded], nothing. *)
Theorem no_event_after_stop
    (config : AudioMonitor.AudioMonitorConfig) (am : AudioMonitor.t)
    (p : string) (acts : list AudioMonitor.Action) :
  AudioMonitor.never_started p acts ->
  VoiceDetection.debounceTimers
    (AudioMonitor.voiceDetection (AudioMonitor.stopMonitoring p am)) !! p = None /\
  VoiceDetection.participantStates
    (AudioMonitor.voiceDetection (AudioMonitor.stopMonitoring p am)) !! p = None /\
  Forall (fun x => AudioMonitor.emitted_participant x <> p)
    (AudioMonitor.run config acts (AudioMonitor.stopMonitoring p am)).2 /\
  (forall vdconfig vd acts',
     Forall (fun a => match a with
                      | VoiceDetection.Frame q _ _ => q <> p
                      | _ => True
                      end) acts' ->
     VoiceDetection.view p (VoiceDetection.cleanup (Some p) vd)
       = VoiceDetection.c_empty /\
     filter (fun e => VoiceDetection.event_participant e = p)
       (VoiceDetection.run vdconfig acts'
          (VoiceDetection.cleanup (Some p) vd)).2 = []).
Proof.
  intros Hacts.
  pose proof (stopMonitoring_stopped p am) as Hs.
  pose proof Hs as [_ Hview].
  apply (f_equal VoiceDetection.c_timer) in Hview as Ht.
  apply (f_equal VoiceDetection.c_state) in Hview as Hst.
  split; [exact Ht|]. split; [exact Hst|]. split.
  - by apply run_stopped.
  - intros vdconfig vd acts' Hacts'.
    assert (Hc : VoiceDetection.view p (VoiceDetection.cleanup (Some p) vd)
                 = VoiceDetection.c_empty).
    { rewrite (cleanup_view vdconfig). cbn. case_bool_decide; [done|].
      by rewrite decide_True. }
    split; [exact Hc|].
    rewrite run_events, Hc. by rewrite c_run_torn_down.
Qed.

Lemma no_event_after_stop_witness :
  VoiceDetection.debounceTimers
    (AudioMonitor.voiceDetection AudioMonitor.mid_debounce) !! "alice"
    = Some (VoiceDetection.mkTimer 150 false) /\
  VoiceDetection.debounceTimers
    (AudioMonitor.voiceDetection
       (AudioMonitor.stopMonitoring "alice" AudioMonitor.mid_debounce)) !! "alice"
    = None /\
  Forall (fun x => AudioMonitor.emitted_participant x <> "alice")
    (AudioMonitor.run AudioMonitor.defaultConfig
       [AudioMonitor.Fire "alice" 150;
        AudioMonitor.Frame "alice" VoiceDetection.loud_frame 160;
        AudioMonitor.Fire "alice" 1000]
       (AudioMonitor.stopMonitoring "alice" AudioMonitor.mid_debounce)).2.
Proof.
  split; [vm_compute; reflexivity|].
  destruct (no_event_after_stop AudioMonitor.defaultConfig
              AudioMonitor.mid_debounce "alice"
              [AudioMonitor.Fire "alice" 150;
               AudioMonitor.Frame "alice" VoiceDetection.loud_frame 160;
               AudioMonitor.Fire "alice" 1000]) as (H1 & _ & H3 & _).
  - repeat constructor.
  - split; [exact H1|exact H3].
Defined.

(** ** C7: interruption needs a full window *)

(** C7: on any state the monitor can reach, a frame emits
    [interruptionDetected] for its participant only when, the volume of
    the frame pushed, the window holds exactly [volumeWindowSize]
    entries whose mean is above [speakingThreshold]; the window is
    then empty, and a later [interruptionDetected] of that participant
    needs at least [volumeWindowSize] more of its frames. *)
Theorem interruption_needs_full_window
    (config : AudioMonitor.AudioMonitorConfig)
    (acts : list AudioMonitor.Action) (p : string) (b : Buffer) (now : Z) :
  0 <= AudioMonitor.volumeWindowSize config ->
  AudioMonitor.monitor (AudioMonitor.interruptionDetected p)
    ∈ (AudioMonitor.processAudioFrame config p b now
         (AudioMonitor.run config acts AudioMonitor.empty).1).1.2 ->
  (exists volume,
     calculateVolume b = Ok volume /\
     Z.of_nat (length (AudioMonitor.window_of p
        (AudioMonitor.updateVolumeBuffer config p volume
           (AudioMonitor.run config acts AudioMonitor.empty).1)))
     = AudioMonitor.volumeWindowSize config /\
     Num.gt (AudioMonitor.average (AudioMonitor.window_of p
               (AudioMonitor.updateVolumeBuffer config p volume
                  (AudioMonitor.run config acts AudioMonitor.empty).1)))
            (AudioMonitor.speakingThreshold config) = true) /\
  AudioMonitor.window_of p
    (AudioMonitor.processAudioFrame config p b now
       (AudioMonitor.run config acts AudioMonitor.empty).1).1.1 = [] /\
  (forall more,
     AudioMonitor.monitor (AudioMonitor.interruptionDetected p)
       ∈ (AudioMonitor.run config more
            (AudioMonitor.processAudioFrame config p b now
               (AudioMonitor.run config acts AudioMonitor.empty).1).1.1).2 ->
     AudioMonitor.volumeWindowSize config <= AudioMonitor.frames_of p more).
Proof.
  intros HW Hin.
  set (am := (AudioMonitor.run config acts AudioMonitor.empty).1) in *.
  assert (Hbound : Z.of_nat (length (AudioMonitor.window_of p am))
                   <= AudioMonitor.volumeWindowSize config).
  { apply run_window_bounded; [done|]. intros q.
    unfold AudioMonitor.window_of, AudioMonitor.empty.
    cbn [AudioMonitor.volumeBuffers]. rewrite lookup_empty. cbn [length]. lia. }
  pose proof (frame_spec config p b now am) as (_ & _ & _ & _ & Hint).
  cbn zeta in Hint.
  destruct (Hint p Hin) as (_ & Hnil & volume & Hvol & Hfull & Hgt).
  pose proof (proj2 (window_update_length config p volume am) Hbound) as Hle.
  split; [|split].
  - exists volume. split; [done|]. split; [lia|done].
  - exact Hnil.
  - intros more Hmore.
    pose proof (run_window config more _ p 0 ltac:(lia)
                  ltac:(rewrite Hnil; cbn; lia) Hmore). lia.
Qed.

Lemma interruption_needs_full_window_witness :
  (exists volume,
     calculateVolume VoiceDetection.loud_frame = Ok volume /\
     Z.of_nat (length (AudioMonitor.window_of "alice"
        (AudioMonitor.updateVolumeBuffer AudioMonitor.defaultConfig "alice" volume
           (AudioMonitor.run AudioMonitor.defaultConfig AudioMonitor.nine_loud
              AudioMonitor.empty).1)))
     = AudioMonitor.volumeWindowSize AudioMonitor.defaultConfig /\
     Num.gt (AudioMonitor.average (AudioMonitor.window_of "alice"
               (AudioMonitor.updateVolumeBuffer AudioMonitor.defaultConfig
                  "alice" volume
                  (AudioMonitor.run AudioMonitor.defaultConfig
                     AudioMonitor.nine_loud AudioMonitor.empty).1)))
            (AudioMonitor.speakingThreshold AudioMonitor.defaultConfig) = true) /\
  AudioMonitor.window_of "alice"
    (AudioMonitor.processAudioFrame AudioMonitor.defaultConfig "alice"
       VoiceDetection.loud_frame 90
       (AudioMonitor.run AudioMonitor.defaultConfig AudioMonitor.nine_loud
          AudioMonitor.empty).1).1.1 = [].
Proof.
  destruct (interruption_needs_full_window AudioMonitor.defaultConfig
              AudioMonitor.nine_loud "alice" VoiceDetection.loud_frame 90)
    as (H1 & H2 & _).
  - vm_compute. congruence.
  - replace (AudioMonitor.processAudioFrame AudioMonitor.defaultConfig "alice"
               VoiceDetection.loud_frame 90
               (AudioMonitor.run AudioMonitor.defaultConfig
                  AudioMonitor.nine_loud AudioMonitor.empty).1).1.2
      with [AudioMonitor.monitor (AudioMonitor.interruptionDetected "alice");
            AudioMonitor.monitor (AudioMonitor.volumeDetected "alice" 0.5)]
      by (vm_compute; reflexivity).
    apply list_elem_of_here.
  - split; [exact H1|exact H2].
Defined.

(** ** The loop of [resampleAudio] *)

Section ResampleFacts.

Import LiveKitService.

Lemma int16LE_length (v : float) : length (int16LE v) = 2%nat.
Proof. reflexivity. Qed.

Lemma mapR_Ok {A B} (f : A -> result B) (l : list A) (bs : list B) :
  mapR f l = Ok bs -> Forall2 (fun a b => f a = Ok b) l bs.
Proof.
  revert bs. induction l as [|a l IH]; intros bs; simpl.
  - intros [= <-]. constructor.
  - destruct (f a) as [b|e] eqn:Hb; simpl; [|done].
    destruct (mapR f l) as [bs'|e]; simpl; [|done].
    intros [= <-]. constructor; [done|]. by apply IH.
Qed.

(** Writing sample [k] just after a prefix of [k] samples. *)
Lemma writeInt16LE_next (P Zs : list byte) (v : float) (k : Z) :
  0 <= k -> length P = Z.to_nat (2 * k) -> (2 <= length Zs)%nat ->
  writeInt16LE (P ++ Zs) v (k * 2)
  = (e <-! encode_sample v ; Ok (P ++ e ++ drop 2 Zs)).
Proof.
  intros Hk HP HZ. unfold writeInt16LE, encode_sample.
  destruct (Num.gt v 32767 || Num.lt v (-32768)); [done|]. simpl.
  destruct (Z.ltb_spec (k * 2) 0); [lia|].
  destruct (Z.ltb_spec (blen (P ++ Zs)) (k * 2 + 2)) as [Hlt|_].
  { unfold blen in Hlt. rewrite length_app in Hlt. lia. }
  simpl. f_equal.
  replace (Z.to_nat (k * 2)) with (length P) by lia.
  rewrite take_app_length. f_equal. f_equal.
  rewrite drop_app_ge by lia. f_equal.
  by replace (length P + 2 - length P)%nat with 2%nat by lia.
Qed.

(** The loop of writes into the zero-filled buffer yields the
    concatenation of the encoded samples. *)
Lemma fold_writes (f : Z -> result float) (m : nat) :
  forall (P : list byte) (k : Z),
    0 <= k -> length P = Z.to_nat (2 * k) ->
    foldR (fun out i => value <-! f i ; writeInt16LE out value (i * 2))
          (P ++ repeat x00 (2 * m)) (seqZ k (Z.of_nat m))
    = (samples <-! mapR (fun i => value <-! f i ; encode_sample value)
                        (seqZ k (Z.of_nat m)) ;
       Ok (P ++ concat samples)).
Proof.
  induction m as [|m IH]; intros P k Hk HP.
  - simpl. by rewrite !app_nil_r.
  - rewrite seqZ_cons by lia.
    replace (Z.pred (Z.of_nat (S m))) with (Z.of_nat m) by lia.
    cbn [foldR mapR]. destruct (f k) as [v|e]; [|done]. cbn [rbind].
    rewrite writeInt16LE_next; [|done|done|].
    2:{ rewrite repeat_length. lia. }
    destruct (encode_sample v) as [enc|e] eqn:Henc; [|done]. cbn [rbind].
    assert (Hlen : length enc = 2%nat).
    { unfold encode_sample in Henc. destruct (_ || _); [done|].
      by injection Henc as <-. }
    replace (drop 2 (repeat x00 (2 * S m))) with (repeat x00 (2 * m)).
    2:{ replace (2 * S m)%nat with (S (S (2 * m))) by lia. done. }
    rewrite (app_assoc P enc). rewrite IH.
    + destruct (mapR _ _) as [rest|e]; [|done]. cbn [rbind concat].
      by rewrite <- !app_assoc.
    + lia.
    + rewrite length_app, HP, Hlen. lia.
Qed.

Lemma resampleAudio_refines (input : Buffer) (fromRate toRate : float) :
  resampleAudio input fromRate toRate = resampleAudio_mapped input fromRate toRate.
Proof.
  unfold resampleAudio, resampleAudio_mapped, Buffer_alloc.
  destruct (PrimFloat.eqb fromRate toRate); [done|].
  destruct (outputSamples input fromRate toRate) as [n|]; [|done].
  destruct ((n * 2 <? 0) || (kMaxLength <? n * 2)) eqn:Hsize; [done|].
  apply orb_false_elim in Hsize as [Hneg _]. apply Z.ltb_ge in Hneg.
  cbn [rbind].
  pose proof (fold_writes (output_sample input fromRate toRate)
                (Z.to_nat n) [] 0 ltac:(lia) ltac:(done)) as Hfold.
  rewrite Z2Nat.id in Hfold by lia. cbn [app] in Hfold.
  replace (Z.to_nat (n * 2)) with (2 * Z.to_nat n)%nat by lia.
  exact Hfold.
Qed.

End ResampleFacts.

(** 48 kHz to 16 kHz: every third sample is kept. *)
Example resample_48k_to_16k :
  LiveKitService.resampleAudio
    (concat ((fun z => int16LE (Num.of_Z z))
               <$> [100; 200; 300; -400; 500; 600])) 48000 16000
  = Ok (concat ((fun z => int16LE (Num.of_Z z)) <$> [100; -400])).
Proof. vm_compute. reflexivity. Qed.

(** 8 kHz to 16 kHz: the midpoints are interpolated, the last sample is
    repeated. *)
Example resample_8k_to_16k :
  LiveKitService.resampleAudio
    (concat ((fun z => int16LE (Num.of_Z z)) <$> [100; 200; -400])) 8000 16000
  = Ok (concat ((fun z => int16LE (Num.of_Z z))
                  <$> [100; 150; 200; -100; -400; -400])).
Proof. vm_compute. reflexivity. Qed.

(** ** C1: a turn finalized while another is in flight *)

Section ProcessingGuard.

Import LiveKitService.

Lemma run_calls_sublist (acts : list Action) (s : t) :
  exists l, transcribeCalls (run acts s) = transcribeCalls s ++ l /\
            l `sublist_of` finalized acts.
Proof.
  revert s. induction acts as [|a acts IH]; intros s.
  - exists []. by rewrite app_nil_r.
  - cbn [run fold_left]. fold (run acts (step a s)).
    destruct (IH (step a s)) as (l & -> & Hsub).
    destruct a as [p now|p b|p]; cbn [step finalized flat_map app].
    + exists l. split; [done|]. exact Hsub.
    + unfold processSpeechTurn.
      destruct (userStates s !! p) as [u|]; [destruct (isProcessing u)|].
      * exists l. split; [done|]. by apply sublist_cons.
      * exists ((p, b) :: l). cbn. rewrite <- app_assoc. split; [done|].
        by apply sublist_skip.
      * exists l. split; [done|]. by apply sublist_cons.
    + exists l. split; [done|]. exact Hsub.
Qed.

End ProcessingGuard.

(** C1, as amended: a turn finalized while a turn of the same
    participant is being processed is skipped, the service is left as
    it was and nothing is queued; a turn finalized while the flag is
    clear raises the flag and is handed to transcription at once; so
    the calls to transcription are the finalized turns that found the
    flag clear, in their order of arrival. *)
Theorem busy_turn_is_skipped
    (s : LiveKitService.t) (p : string) (audioBuffer : Buffer)
    (u : LiveKitService.UserState) (acts : list LiveKitService.Action) :
  (LiveKitService.userStates s !! p = Some u ->
   LiveKitService.isProcessing u = true ->
   LiveKitService.processSpeechTurn p audioBuffer s = s) /\
  (LiveKitService.userStates s !! p = Some u ->
   LiveKitService.isProcessing u = false ->
   LiveKitService.transcribeCalls
     (LiveKitService.processSpeechTurn p audioBuffer s)
     = LiveKitService.transcribeCalls s ++ [(p, audioBuffer)] /\
   LiveKitService.isProcessing
     <$> LiveKitService.userStates
           (LiveKitService.processSpeechTurn p audioBuffer s) !! p
     = Some true) /\
  (exists l,
     LiveKitService.transcribeCalls (LiveKitService.run acts s)
       = LiveKitService.transcribeCalls s ++ l /\
     l `sublist_of` LiveKitService.finalized acts).
Proof.
  split; [|split].
  - intros Hu Hbusy. unfold LiveKitService.processSpeechTurn.
    by rewrite Hu, Hbusy.
  - intros Hu Hfree. unfold LiveKitService.processSpeechTurn.
    rewrite Hu, Hfree. cbn. split; [done|]. by rewrite lookup_insert_eq.
  - apply run_calls_sublist.
Qed.

(** C1, as stated, fails: the second turn arrives while the first is in
    flight; it is never handed to transcription, and once the first
    has settled the service is idle and keeps no trace of it. *)
Lemma second_turn_dropped :
  LiveKitService.finalized LiveKitService.overlapping_turns
    = [("alice", [x01; x00]); ("alice", [x02; x00])] /\
  LiveKitService.transcribeCalls
    (LiveKitService.run LiveKitService.overlapping_turns LiveKitService.empty)
    = [("alice", [x01; x00])] /\
  LiveKitService.userStates
    (LiveKitService.run LiveKitService.overlapping_turns LiveKitService.empty)
    !! "alice" = Some (LiveKitService.mkUser false 0 []) /\
  LiveKitService.transcribeCalls
    (LiveKitService.run
       (LiveKitService.overlapping_turns
        ++ [LiveKitService.TurnSettled "alice";
            LiveKitService.TurnSettled "alice"])
       LiveKitService.empty)
    = [("alice", [x01; x00])].
Proof. repeat split; vm_compute; reflexivity. Qed.

(** ** Integers held in binary64 *)

Lemma digits2_pos_bounds (p : positive) :
  2 ^ (Z.pos (digits2_pos p) - 1) <= Z.pos p < 2 ^ Z.pos (digits2_pos p).
Proof.
  induction p as [p IH|p IH|]; cbn [digits2_pos].
  - rewrite Pos2Z.inj_succ.
    replace (Z.succ (Z.pos (digits2_pos p)) - 1) with (Z.pos (digits2_pos p)) by lia.
    rewrite Z.pow_succ_r by lia.
    replace (Z.pos (digits2_pos p)) with (Z.succ (Z.pos (digits2_pos p) - 1)) at 1 by lia.
    rewrite Z.pow_succ_r by lia. lia.
  - rewrite Pos2Z.inj_succ.
    replace (Z.succ (Z.pos (digits2_pos p)) - 1) with (Z.pos (digits2_pos p)) by lia.
    rewrite Z.pow_succ_r by lia.
    replace (Z.pos (digits2_pos p)) with (Z.succ (Z.pos (digits2_pos p) - 1)) at 1 by lia.
    rewrite Z.pow_succ_r by lia. lia.
  - simpl. lia.
Qed.

Lemma digits2_pos_le (p : positive) :
  Z.pos p < 2 ^ 53 -> Z.pos (digits2_pos p) <= 53.
Proof.
  intros Hp. pose proof (digits2_pos_bounds p) as Hb.
  destruct (Z.le_gt_cases (Z.pos (digits2_pos p)) 53) as [|Hgt]; [done|].
  assert (2 ^ 53 <= 2 ^ (Z.pos (digits2_pos p) - 1))
    by (apply Z.pow_le_mono_r; lia). lia.
Qed.

Lemma digits2_pos_shift (p k : positive) :
  digits2_pos (Pos.iter xO p k) = (digits2_pos p + k)%positive.
Proof.
  induction k as [|k IH] using Pos.peano_ind.
  - simpl. lia.
  - rewrite Pos.iter_succ. cbn [digits2_pos]. rewrite IH. lia.
Qed.

Lemma Zpos_shift (p k : positive) :
  Z.pos (Pos.iter xO p k) = Z.pos p * 2 ^ Z.pos k.
Proof.
  change (Pos.iter xO p k) with (shift_pos k p).
  rewrite shift_pos_correct, Z.pow_pos_fold. lia.
Qed.

Lemma binary_round_aux_exact (s : bool) (q : positive) (e : Z) :
  Z.pos (digits2_pos q) = 53 -> -1074 <= e <= 971 ->
  binary_round_aux prec emax s (Z.pos q) e loc_Exact = S754_finite s q e.
Proof.
  intros Hd He. unfold binary_round_aux, shr_fexp, fexp, emin.
  cbn [Zdigits2 shr_record_of_loc]. rewrite Hd.
  change (3 - emax - prec) with (-1074). change prec with 53.
  replace (Z.max (53 + e - 53) (-1074) - e) with 0 by lia.
  cbn [shr shr_m loc_of_shr_record round_nearest_even Zdigits2 shr_record_of_loc].
  rewrite Hd.
  replace (Z.max (53 + e - 53) (-1074) - e) with 0 by lia.
  cbn [shr shr_m]. 
  change (emax - 53) with 971.
  destruct (Z.leb_spec e 971); [done|lia].
Qed.

Lemma binary_normalize_pos (p : positive) :
  Z.pos p < 2 ^ 53 ->
  binary_normalize prec emax (Z.pos p) 0 false = SF_of_pos p.
Proof.
  intros Hp. pose proof (digits2_pos_bounds p) as Hb.
  assert (Hd : Z.pos (digits2_pos p) <= 53).
  { destruct (Z.le_gt_cases (Z.pos (digits2_pos p)) 53) as [|Hgt]; [done|].
    assert (2 ^ 53 <= 2 ^ (Z.pos (digits2_pos p) - 1))
      by (apply Z.pow_le_mono_r; lia). lia. }
  unfold binary_normalize, binary_round, shl_align, fexp, emin, SF_of_pos.
  change (3 - emax - prec) with (-1074). change prec with 53.
  replace (Z.max (Z.pos (digits2_pos p) + 0 - 53) (-1074) - 0)
    with (- (53 - Z.pos (digits2_pos p))) by lia.
  destruct (53 - Z.pos (digits2_pos p)) as [|k|k] eqn:Hk; cbn [Z.opp].
  - apply binary_round_aux_exact; lia.
  - replace (Z.max (Z.pos (digits2_pos p) + 0 - 53) (-1074)) with (- Z.pos k) by lia.
    apply binary_round_aux_exact; [rewrite digits2_pos_shift|]; lia.
  - lia.
Qed.

Lemma Prim2SF_of_Z_pos (p : positive) :
  Z.pos p < 2 ^ 53 -> Prim2SF (Num.of_Z (Z.pos p)) = SF_of_pos p.
Proof.
  intros Hp. unfold Num.of_Z. cbn [Z.ltb Z.compare].
  rewrite of_uint63_spec, Uint63.of_Z_spec.
  rewrite Z.mod_small by (change Uint63Axioms.wB with (2 ^ 63); lia).
  by apply binary_normalize_pos.
Qed.

Lemma Prim2SF_of_Z_0 : Prim2SF (Num.of_Z 0) = S754_zero false.
Proof. reflexivity. Qed.

(** An integer below [2^53] is held exactly: its integer part is
    itself. *)
Lemma truncZ_of_Z (n : Z) :
  0 <= n < 2 ^ 53 -> Num.truncZ (Num.of_Z n) = Some n.
Proof.
  intros [H0 Hn]. destruct n as [|p|p]; [done| |lia].
  unfold Num.truncZ. rewrite Prim2SF_of_Z_pos by done.
  unfold SF_of_pos.
  destruct (53 - Z.pos (digits2_pos p)) as [|k|k] eqn:Hk.
  - cbn. f_equal. lia.
  - cbn [Z.leb Z.compare Z.opp]. 
    change (0 <=? Z.neg k) with false. cbv iota.
    rewrite Zpos_shift. change (- Z.neg k) with (Z.pos k).
    rewrite Z.shiftr_div_pow2 by lia. rewrite Z.div_mul; [done|].
    apply Z.pow_nonzero; lia.
  - cbn. f_equal. lia.
Qed.

Lemma SF_of_pos_eq (p : positive) :
  Z.pos p < 2 ^ 53 ->
  exists m, SF_of_pos p = S754_finite false m (Z.pos (digits2_pos p) - 53) /\
            Z.pos m = Z.pos p * 2 ^ (53 - Z.pos (digits2_pos p)).
Proof.
  intros Hp. unfold SF_of_pos.
  pose proof (digits2_pos_bounds p) as Hb.
  destruct (53 - Z.pos (digits2_pos p)) as [|k|k] eqn:Hk.
  - exists p. split; [f_equal; lia|]. simpl. lia.
  - exists (Pos.iter xO p k). split; [f_equal; lia|]. apply Zpos_shift.
  - assert (2 ^ 53 <= 2 ^ (Z.pos (digits2_pos p) - 1))
      by (apply Z.pow_le_mono_r; lia). lia.
Qed.

Lemma SF_of_pos_lt (p q : positive) :
  Z.pos p < 2 ^ 53 -> Z.pos q < 2 ^ 53 ->
  SFltb (SF_of_pos p) (SF_of_pos q) = (Z.pos p <? Z.pos q).
Proof.
  intros Hp Hq.
  destruct (SF_of_pos_eq p Hp) as (m & -> & Hm).
  destruct (SF_of_pos_eq q Hq) as (n & -> & Hn).
  pose proof (digits2_pos_bounds p) as Bp.
  pose proof (digits2_pos_bounds q) as Bq.
  unfold SFltb, SFcompare.
  destruct (Z.compare_spec (Z.pos (digits2_pos p) - 53)
                           (Z.pos (digits2_pos q) - 53)) as [He|He|He].
  - assert (Hd : Z.pos (digits2_pos p) = Z.pos (digits2_pos q)) by lia.
    rewrite Hd in Hm.
    pose proof (digits2_pos_le q Hq) as Lq.
    assert (Hpow : 0 < 2 ^ (53 - Z.pos (digits2_pos q)))
      by (apply Z.pow_pos_nonneg; lia).
    change (Pos.compare_cont Eq m n) with (Z.pos m ?= Z.pos n).
    generalize dependent (2 ^ (53 - Z.pos (digits2_pos q))). intros K Hm Hn HK.
    clear Bp Bq He Hd Hp Hq Lq.
    destruct (Z.compare_spec (Z.pos m) (Z.pos n)) as [Hc|Hc|Hc];
      symmetry; [apply Z.ltb_ge|apply Z.ltb_lt|apply Z.ltb_ge].
    all: rewrite Hm, Hn in Hc.
    + apply Z.mul_cancel_r in Hc; lia.
    + apply Z.mul_lt_mono_pos_r in Hc; lia.
    + apply Z.mul_lt_mono_pos_r in Hc; lia.
  - symmetry. apply Z.ltb_lt.
    assert (2 ^ Z.pos (digits2_pos p) <= 2 ^ (Z.pos (digits2_pos q) - 1))
      by (apply Z.pow_le_mono_r; lia). lia.
  - symmetry. apply Z.ltb_ge.
    assert (2 ^ Z.pos (digits2_pos q) <= 2 ^ (Z.pos (digits2_pos p) - 1))
      by (apply Z.pow_le_mono_r; lia). lia.
Qed.

(** Comparison of two integers below [2^53] held in binary64. *)
Lemma ltb_of_Z (a b : Z) :
  0 <= a < 2 ^ 53 -> 0 <= b < 2 ^ 53 ->
  PrimFloat.ltb (Num.of_Z a) (Num.of_Z b) = (a <? b).
Proof.
  intros Ha Hb. rewrite ltb_spec.
  destruct a as [|p|p], b as [|q|q]; try lia.
  - reflexivity.
  - rewrite Prim2SF_of_Z_0, Prim2SF_of_Z_pos by lia.
    destruct (SF_of_pos_eq q) as (n & -> & _); [lia|]. reflexivity.
  - rewrite Prim2SF_of_Z_0, Prim2SF_of_Z_pos by lia.
    destruct (SF_of_pos_eq p) as (n & -> & _); [lia|]. reflexivity.
  - rewrite !Prim2SF_of_Z_pos by lia. apply SF_of_pos_lt; lia.
Qed.

Lemma digits2_pos_unique (p : positive) (d : Z) :
  2 ^ (d - 1) <= Z.pos p < 2 ^ d -> Z.pos (digits2_pos p) = d.
Proof.
  intros [Hlo Hhi]. pose proof (digits2_pos_bounds p) as [Blo Bhi].
  assert (0 < d).
  { destruct (Z.lt_ge_cases 0 d); [done|].
    destruct (Z.eq_dec d 0) as [->|]; [simpl in Hhi; lia|].
    rewrite (Z.pow_neg_r 2 d) in Hhi by lia. lia. }
  destruct (Z.lt_trichotomy (Z.pos (digits2_pos p)) d) as [Hlt|[Heq|Hgt]];
    [|done|].
  - assert (2 ^ Z.pos (digits2_pos p) <= 2 ^ (d - 1))
      by (apply Z.pow_le_mono_r; lia). lia.
  - assert (2 ^ d <= 2 ^ (Z.pos (digits2_pos p) - 1))
      by (apply Z.pow_le_mono_r; lia). lia.
Qed.

(** An integer from [2^53] up to [2^54] is rounded to a binary64 with
    a positive exponent. *)
Lemma Prim2SF_of_Z_large (n : Z) :
  2 ^ 53 <= n < 2 ^ 54 ->
  exists m e, Prim2SF (Num.of_Z n) = S754_finite false m e /\ 1 <= e.
Proof.
  intros Hn. destruct n as [|p|p]; [lia| |lia].
  unfold Num.of_Z. cbn [Z.ltb Z.compare].
  rewrite of_uint63_spec, Uint63.of_Z_spec.
  rewrite Z.mod_small by (change Uint63Axioms.wB with (2 ^ 63); lia).
  assert (Hd : Z.pos (digits2_pos p) = 54) by (apply digits2_pos_unique; lia).
  unfold binary_normalize, binary_round, shl_align, fexp, emin.
  rewrite Hd. change (Z.max (54 + 0 - prec) (3 - emax - prec) - 0) with 1.
  cbv iota. unfold binary_round_aux, shr_fexp, fexp, emin.
  cbn [Zdigits2 shr_record_of_loc]. rewrite Hd.
  change (Z.max (54 + 0 - prec) (3 - emax - prec) - 0) with 1.
  cbn [shr SpecFloat.iter_pos].
  assert (Hfin : forall q : positive,
            2 ^ 52 <= Z.pos q <= 2 ^ 53 ->
            exists m e,
              (let '(mrs'', e'') :=
                 shr {| shr_m := Z.pos q; shr_r := false; shr_s := false |} (0 + 1)
                   (Z.max (Zdigits2 (Z.pos q) + (0 + 1) - prec)
                          (3 - emax - prec) - (0 + 1)) in
               match shr_m mrs'' with
               | 0 => S754_zero false
               | Z.pos m =>
                   if e'' <=? emax - prec then S754_finite false m e''
                   else S754_infinity false
               | Z.neg _ => S754_nan
               end) = S754_finite false m e /\ 1 <= e).
  { intros q Hq. destruct (Z.eq_dec (Z.pos q) (2 ^ 53)) as [Heq|Hne].
    - injection Heq as ->. do 2 eexists. split; [vm_compute; reflexivity|lia].
    - assert (Hdq : Z.pos (digits2_pos q) = 53)
        by (apply digits2_pos_unique; lia).
      cbn [Zdigits2 shr_record_of_loc]. rewrite Hdq.
      change (Z.max (53 + (0 + 1) - prec) (3 - emax - prec) - (0 + 1)) with 0.
      cbn [shr shr_m]. change (0 + 1 <=? emax - prec) with true.
      cbv iota. exists q, (0 + 1). split; [done|lia]. }
  destruct p as [q|q|]; [| |lia];
    cbn [shr_1 loc_of_shr_record shr_m orb round_nearest_even].
  - destruct (Z.even (Z.pos q)).
    + apply Hfin. lia.
    + change (Z.pos q + 1) with (Z.pos (q + 1)). apply Hfin. lia.
  - apply Hfin. lia.
Qed.

Lemma ltb_of_Z_large (a n : Z) :
  0 <= a < 2 ^ 53 -> 2 ^ 53 <= n < 2 ^ 54 ->
  PrimFloat.ltb (Num.of_Z a) (Num.of_Z n) = true.
Proof.
  intros Ha Hn. rewrite ltb_spec.
  destruct (Prim2SF_of_Z_large n Hn) as (m & e & -> & He).
  destruct a as [|p|p]; [reflexivity| |lia].
  rewrite Prim2SF_of_Z_pos by lia.
  destruct (SF_of_pos_eq p) as (k & -> & _); [lia|].
  pose proof (digits2_pos_le p ltac:(lia)).
  unfold SFltb, SFcompare.
  destruct (Z.compare_spec (Z.pos (digits2_pos p) - 53) e); [lia|done|lia].
Qed.

(** Comparison with an integer below [2^53], for every integer below
    [2^54]. *)
Lemma gt_of_Z (n a : Z) :
  0 <= a < 2 ^ 53 -> 0 <= n < 2 ^ 54 ->
  Num.gt (Num.of_Z n) (Num.of_Z a) = (a <? n).
Proof.
  intros Ha Hn. unfold Num.gt.
  destruct (Z.lt_ge_cases n (2 ^ 53)).
  - apply ltb_of_Z; lia.
  - rewrite ltb_of_Z_large by lia. symmetry. apply Z.ltb_lt. lia.
Qed.

(** ** Exact operations on integers held in binary64 *)

Lemma iter_pos_iter {A} (f : A -> A) (n : positive) (x : A) :
  SpecFloat.iter_pos f n x = Pos.iter f x n.
Proof.
  revert x. induction n as [n IH|n IH|]; intros x; cbn [SpecFloat.iter_pos].
  - rewrite !IH. cbn [Pos.iter]. by rewrite <- !Pos.iter_swap.
  - rewrite !IH. done.
  - done.
Qed.

(** Shifting out the zeros that were shifted in loses nothing. *)
Lemma iter_shr_exact (m k : positive) :
  SpecFloat.iter_pos shr_1 k
    {| shr_m := Z.pos (Pos.iter xO m k); shr_r := false; shr_s := false |}
  = {| shr_m := Z.pos m; shr_r := false; shr_s := false |}.
Proof.
  rewrite iter_pos_iter.
  induction k as [|k IH] using Pos.peano_ind; [done|].
  rewrite Pos.iter_succ_r, Pos.iter_succ. cbn [shr_1 orb]. exact IH.
Qed.

(** Rounding a mantissa of 53 bits followed by [k] zeros: the zeros
    are dropped and the exponent raised. *)
Lemma binary_round_aux_scaled (s : bool) (q m : positive) (k e : Z) :
  0 <= k -> Z.pos q = Z.pos m * 2 ^ k ->
  Z.pos (digits2_pos m) = 53 -> -1074 <= e + k <= 971 ->
  binary_round_aux prec emax s (Z.pos q) e loc_Exact
  = S754_finite s m (e + k).
Proof.
  intros Hk Hq Hd He. destruct k as [|k|k]; [| |lia].
  - rewrite Z.mul_1_r in Hq. injection Hq as ->. rewrite Z.add_0_r in *.
    by apply binary_round_aux_exact.
  - assert (q = Pos.iter xO m k) as ->.
    { apply Pos2Z.inj. by rewrite Zpos_shift. }
    unfold binary_round_aux, shr_fexp, fexp, emin.
    cbn [Zdigits2 shr_record_of_loc]. rewrite digits2_pos_shift.
    change (3 - emax - prec) with (-1074). change prec with 53.
    rewrite Pos2Z.inj_add, Hd.
    replace (Z.max (53 + Z.pos k + e - 53) (-1074) - e) with (Z.pos k) by lia.
    cbn [shr]. rewrite iter_shr_exact.
    cbn [shr_m loc_of_shr_record round_nearest_even Zdigits2 shr_record_of_loc].
    rewrite Hd.
    replace (Z.max (53 + (e + Z.pos k) - 53) (-1074) - (e + Z.pos k))
      with 0 by lia.
    cbn [shr shr_m]. change (emax - 53) with 971.
    destruct (Z.leb_spec (e + Z.pos k) 971); [done|lia].
Qed.

(** The mantissa and the exponent of a positive integer below
    [2^53]. *)
Lemma Prim2SF_of_Z_mantissa (p : positive) :
  Z.pos p < 2 ^ 53 ->
  exists m,
    Prim2SF (Num.of_Z (Z.pos p))
      = S754_finite false m (Z.pos (digits2_pos p) - 53) /\
    Z.pos m = Z.pos p * 2 ^ (53 - Z.pos (digits2_pos p)) /\
    Z.pos (digits2_pos m) = 53.
Proof.
  intros Hp. rewrite Prim2SF_of_Z_pos by done.
  destruct (SF_of_pos_eq p Hp) as (m & -> & Hm).
  exists m. split; [done|]. split; [done|].
  pose proof (digits2_pos_bounds p) as Hb.
  pose proof (digits2_pos_le p Hp) as Hle.
  apply digits2_pos_unique. rewrite Hm.
  set (d := Z.pos (digits2_pos p)) in *.
  replace (2 ^ (53 - 1)) with (2 ^ (d - 1) * 2 ^ (53 - d)).
  2:{ rewrite <- Z.pow_add_r by lia. f_equal. lia. }
  replace (2 ^ 53) with (2 ^ d * 2 ^ (53 - d)).
  2:{ rewrite <- Z.pow_add_r by lia. f_equal. lia. }
  assert (0 < 2 ^ (53 - d)) by (apply Z.pow_pos_nonneg; lia).
  split; [apply Z.mul_le_mono_nonneg_r; lia|apply Z.mul_lt_mono_pos_r; lia].
Qed.

(** A float is determined by a mantissa of 53 bits and its value. *)
Lemma of_Z_from_mantissa (f : float) (p m : positive) (e : Z) :
  Z.pos p < 2 ^ 53 ->
  Prim2SF f = S754_finite false m e ->
  Z.pos (digits2_pos m) = 53 ->
  e = Z.pos (digits2_pos p) - 53 ->
  Z.pos m = Z.pos p * 2 ^ (53 - Z.pos (digits2_pos p)) ->
  f = Num.of_Z (Z.pos p).
Proof.
  intros Hp Hf Hd He Hm. apply Prim2SF_inj. rewrite Hf.
  destruct (Prim2SF_of_Z_mantissa p Hp) as (m' & -> & Hm' & _).
  f_equal; [|done]. apply Pos2Z.inj. congruence.
Qed.

(** Halving an even integer below [2^53] is exact. *)
Lemma div2_of_Z (n : Z) :
  0 <= n -> 2 * n < 2 ^ 53 ->
  PrimFloat.div (Num.of_Z (2 * n)) 2 = Num.of_Z n.
Proof.
  intros H0 Hn. destruct n as [|p|p]; [reflexivity| |lia].
  destruct (Prim2SF_of_Z_mantissa p ltac:(lia)) as (m & Hp & Hm & Hd).
  destruct (Prim2SF_of_Z_mantissa (xO p) ltac:(lia)) as (m2 & Hp2 & Hm2 & Hd2).
  cbn [digits2_pos] in Hp2, Hm2. rewrite Pos2Z.inj_succ in Hp2, Hm2.
  assert (m2 = m) as ->.
  { apply Pos2Z.inj. rewrite Hm, Hm2.
    replace (53 - Z.pos (digits2_pos p))
      with (Z.succ (53 - Z.succ (Z.pos (digits2_pos p)))) by lia.
    pose proof (digits2_pos_le (xO p) ltac:(lia)) as Hle.
    cbn [digits2_pos] in Hle. rewrite Pos2Z.inj_succ in Hle.
    rewrite Z.pow_succ_r by lia. lia. }
  apply Prim2SF_inj. rewrite div_spec.
  change (2 * Z.pos p) with (Z.pos (xO p)). rewrite Hp, Hp2.
  change (Prim2SF 2) with (S754_finite false 4503599627370496 (-51)).
  set (d := Z.pos (digits2_pos p)) in *.
  pose proof (digits2_pos_le (xO p) ltac:(lia)) as Hle.
  cbn [digits2_pos] in Hle. rewrite Pos2Z.inj_succ in Hle. fold d in Hle.
  pose proof (Pos2Z.is_pos (digits2_pos p)) as Hpos. fold d in Hpos.
  unfold SF64div, SFdiv, SFdiv_core_binary, fexp, emin.
  cbn [Zdigits2]. rewrite Hd.
  change (Z.pos (digits2_pos 4503599627370496)) with 53.
  change (3 - emax - prec) with (-1074). change prec with 53.
  replace (Z.min (Z.max (53 + (Z.succ d - 53) - (53 + -51) - 53) (-1074))
             (Z.succ d - 53 - -51)) with (Z.succ d - 53 - 2) by lia.
  replace (Z.succ d - 53 - -51 - (Z.succ d - 53 - 2)) with 53 by lia.
  cbv iota.
  assert (Hdiv : Z.div_eucl (Z.shiftl (Z.pos m) 53) 4503599627370496
                 = (Z.pos (xO m), 0)).
  { rewrite Z.shiftl_mul_pow2 by lia.
    pose proof (Z_div_mod (Z.pos m * 2 ^ 53) 4503599627370496 ltac:(lia)) as H.
    destruct (Z.div_eucl _ _) as [q r]. destruct H as [Heq Hr].
    change (2 ^ 53) with (2 * 4503599627370496) in Heq.
    assert (q = 2 * Z.pos m) by nia. assert (r = 0) by nia. subst. done. }
  rewrite Hdiv. cbn [xorb].
  change (new_location 4503599627370496 0) with loc_Exact.
  etrans;
    [exact (binary_round_aux_scaled false (xO m) m 1 (Z.succ d - 53 - 2)
              ltac:(lia) ltac:(lia) Hd ltac:(lia))|].
  f_equal. lia.
Qed.

Lemma shl_align_fst (m : positive) (ex ex' : Z) :
  ex' <= ex ->
  Z.pos (shl_align m ex ex').1 = Z.pos m * 2 ^ (ex - ex').
Proof.
  intros Hle. unfold shl_align.
  destruct (ex' - ex) as [|k|k] eqn:Hk; cbn [fst]; [|lia|].
  - replace (ex - ex') with 0 by lia. lia.
  - rewrite Zpos_shift. f_equal. f_equal. lia.
Qed.

Lemma shl_align_ge (m : positive) (ex ex' : Z) :
  ex <= ex' -> shl_align m ex ex' = (m, ex).
Proof.
  intros Hle. unfold shl_align. destruct (ex' - ex) as [|k|k] eqn:Hk; [done..|lia].
Qed.

(** Rounding an integer [p * 2^52] held at exponent [-52]. *)
Lemma binary_normalize_scaled (p : positive) (q : positive) :
  Z.pos p < 2 ^ 53 -> Z.pos q = Z.pos p * 2 ^ 52 ->
  binary_normalize prec emax (Z.pos q) (-52) false
  = Prim2SF (Num.of_Z (Z.pos p)).
Proof.
  intros Hp Hq.
  destruct (Prim2SF_of_Z_mantissa p Hp) as (m & -> & Hm & Hd).
  pose proof (digits2_pos_le p Hp) as Hle.
  pose proof (Pos2Z.is_pos (digits2_pos p)) as Hpos.
  set (d := Z.pos (digits2_pos p)) in *.
  assert (Hdq : Z.pos (digits2_pos q) = d + 52).
  { assert (q = Pos.iter xO p 52) as ->.
    { apply Pos2Z.inj. by rewrite Zpos_shift. }
    rewrite digits2_pos_shift. subst d. lia. }
  unfold binary_normalize, binary_round, fexp, emin.
  rewrite Hdq. change (3 - emax - prec) with (-1074). change prec with 53.
  rewrite shl_align_ge by lia.
  etrans;
    [exact (binary_round_aux_scaled false q m (d - 1) (-52)
              ltac:(lia)
              ltac:(rewrite Hq, Hm, <- Z.mul_assoc, <- Z.pow_add_r by lia;
                    do 2 f_equal; lia)
              Hd ltac:(lia))|].
  f_equal. lia.
Qed.

(** Taking 1 from a positive integer below [2^53] is exact. *)
Lemma sub1_of_Z (n : Z) :
  1 <= n < 2 ^ 53 ->
  PrimFloat.sub (Num.of_Z n) 1 = Num.of_Z (n - 1).
Proof.
  intros [H1 Hn]. destruct n as [|p|p]; [lia| |lia].
  destruct (Prim2SF_of_Z_mantissa p Hn) as (m & Hp & Hm & Hd).
  pose proof (digits2_pos_le p Hn) as Hle.
  pose proof (Pos2Z.is_pos (digits2_pos p)) as Hpos.
  set (d := Z.pos (digits2_pos p)) in *.
  apply Prim2SF_inj. rewrite sub_spec, Hp.
  change (Prim2SF 1) with (S754_finite false 4503599627370496 (-52)).
  unfold SF64sub, SFsub. cbn [cond_Zopp].
  replace (Z.min (d - 53) (-52)) with (-52) by lia.
  rewrite shl_align_fst by lia.
  rewrite (shl_align_ge 4503599627370496 (-52) (-52)) by lia. cbn [fst].
  replace (Z.pos m * 2 ^ (d - 53 - -52) - 4503599627370496)
    with ((Z.pos p - 1) * 2 ^ 52).
  2:{ rewrite Hm, <- Z.mul_assoc, <- Z.pow_add_r by lia.
      replace (53 - d + (d - 53 - -52)) with 52 by lia.
      change (2 ^ 52) with 4503599627370496. lia. }
  destruct (Z.pos p - 1) as [|r|r] eqn:Hr; [done| |lia].
  change (Z.pos r * 2 ^ 52) with (Z.pos (r * 4503599627370496)).
  apply binary_normalize_scaled; [lia|]. lia.
Qed.

(** ** Signs of products and quotients *)

(** Rounding keeps the sign. *)
Lemma binary_round_aux_sign (s : bool) (m e : Z) (l : location) :
  match binary_round_aux prec emax s m e l with
  | S754_zero s' | S754_infinity s' | S754_finite s' _ _ => s' = s
  | S754_nan => True
  end.
Proof.
  unfold binary_round_aux.
  destruct (shr_fexp prec emax m e l) as [mrs' e'].
  destruct (shr_fexp prec emax _ e' loc_Exact) as [mrs'' e''].
  destruct (shr_m mrs''); [done| |done].
  by destruct (e'' <=? emax - prec).
Qed.

(** A number without a negative sign: a zero, a finite number or an
    infinity of sign [false], or NaN. *)
Lemma mul_sign (x y : float) :
  match Prim2SF x with
  | S754_zero false | S754_finite false _ _ => True
  | _ => False
  end ->
  match Prim2SF y with
  | S754_finite false _ _ => True
  | _ => False
  end ->
  match Prim2SF (PrimFloat.mul x y) with
  | S754_zero s | S754_infinity s | S754_finite s _ _ => s = false
  | S754_nan => True
  end.
Proof.
  intros Hx Hy. rewrite mul_spec. unfold SF64mul, SFmul.
  destruct (Prim2SF x) as [[|]|[|]| |[|] mx ex]; try done;
    destruct (Prim2SF y) as [[|]|[|]| |[|] my ey]; try done.
  cbn [xorb]. apply binary_round_aux_sign.
Qed.

(** A quotient of a non-negative integer whose integer part is at
    least 1 has a positive finite divisor. *)
Lemma div_floor_positive (n : Z) (y : float) (k : Z) :
  0 <= n < 2 ^ 53 ->
  Num.floorZ (PrimFloat.div (Num.of_Z n) y) = Some k -> 1 <= k ->
  0 < n /\
  match Prim2SF y with
  | S754_finite false _ _ => True
  | _ => False
  end.
Proof.
  intros Hn Hfl Hk. unfold Num.floorZ in Hfl. rewrite div_spec in Hfl.
  destruct n as [|p|p]; [| |lia].
  - rewrite Prim2SF_of_Z_0 in Hfl. unfold SF64div, SFdiv in Hfl.
    destruct (Prim2SF y) as [sy|sy| |sy my ey]; try done;
      injection Hfl as <-; lia.
  - split; [lia|].
    destruct (Prim2SF_of_Z_mantissa p ltac:(lia)) as (m & Hp & _).
    rewrite Hp in Hfl. unfold SF64div, SFdiv in Hfl.
    destruct (Prim2SF y) as [sy|sy| |sy my ey]; try done.
    { injection Hfl as <-. lia. }
    destruct (SFdiv_core_binary prec emax (Z.pos m) _ (Z.pos my) ey)
      as [[mz ez] lz].
    pose proof (binary_round_aux_sign (xorb false sy) mz ez lz) as Hs.
    destruct (binary_round_aux prec emax (xorb false sy) mz ez lz)
      as [s|s| |s mr er]; try done.
    { injection Hfl as <-. lia. }
    cbn [xorb] in Hs. subst s. destruct sy; [|done].
    injection Hfl as <-. exfalso. cbn [Num.signed] in Hk.
    destruct (Z.leb_spec 0 er).
    + pose proof (Z.pow_nonneg 2 er ltac:(lia)). nia.
    + rewrite Z.shiftr_div_pow2 in Hk by lia.
      assert (0 < 2 ^ (- er)) by (apply Z.pow_pos_nonneg; lia).
      pose proof (Z.div_lt_upper_bound (Z.neg mr) (2 ^ (- er)) 1
                    ltac:(lia) ltac:(lia)). lia.
Qed.

(** ** Samples of a buffer *)

Lemma list_pair_ind {A} (P : list A -> Prop) :
  P [] -> (forall a, P [a]) -> (forall a b l, P l -> P (a :: b :: l)) ->
  forall l, P l.
Proof.
  intros H0 H1 H2 l.
  assert (H : P l /\ forall a, P (a :: l)); [|by destruct H].
  induction l as [|b l [IH1 IH2]]; [by split|].
  split; [apply IH2|]. intros a. by apply H2.
Qed.

Lemma even_offsets_cons2 (n : nat) :
  even_offsets (S (S n)) = 0 :: ((fun i => i + 2) <$> even_offsets n).
Proof.
  unfold even_offsets.
  replace (S (S n) + 1)%nat with (S (S (n + 1))) by lia.
  cbn [Nat.div2 seq fmap list_fmap]. f_equal.
  rewrite <- seq_shift, <- !list_fmap_compose.
  apply list_fmap_ext. intros _ k _. simpl. lia.
Qed.

(** A read two bytes further in a buffer two bytes longer: the same
    value, or ERR_OUT_OF_RANGE, the longer buffer holding a sample. *)
Lemma readInt16LE_cons2 (lo hi : byte) (rest : Buffer) (i : Z) :
  0 <= i ->
  readInt16LE (lo :: hi :: rest) (i + 2)
  = match readInt16LE rest i with
    | Ok v => Ok v
    | Throw _ => Throw ERR_OUT_OF_RANGE
    end.
Proof.
  intros Hi. unfold readInt16LE.
  destruct (Z.ltb_spec (i + 2) 0); [lia|].
  destruct (Z.ltb_spec i 0); [lia|].
  replace (Z.to_nat (i + 2)) with (S (S (Z.to_nat i))) by lia.
  replace (Z.to_nat (i + 2 + 1)) with (S (S (Z.to_nat (i + 1)))) by lia.
  cbn [lookup list_lookup].
  assert (Hb : boundsError (blen (lo :: hi :: rest) - 2) = ERR_OUT_OF_RANGE).
  { apply boundsError_nonneg. unfold blen. cbn [length]. lia. }
  rewrite Hb.
  by destruct (rest !! Z.to_nat i), (rest !! Z.to_nat (i + 1)).
Qed.

Lemma readInt16LE_head (lo hi : byte) (rest : Buffer) :
  readInt16LE (lo :: hi :: rest) 0
  = Ok (to_int16 (byte_val lo + 256 * byte_val hi)).
Proof. reflexivity. Qed.

(** Every exception of a read is the one [boundsError] chooses from
    the length of the buffer. *)
Lemma readInt16LE_error (buf : Buffer) (i : Z) (e : error) :
  readInt16LE buf i = Throw e -> e = boundsError (blen buf - 2).
Proof.
  unfold readInt16LE. destruct (i <? 0); [by intros [= <-]|].
  destruct (buf !! Z.to_nat i), (buf !! Z.to_nat (i + 1)); try done;
    by intros [= <-].
Qed.

Lemma even_offsets_nonneg (n : nat) (i : Z) : i ∈ even_offsets n -> 0 <= i.
Proof. intros H. apply elem_of_even_offsets in H. lia. Qed.

Section ReadingLoops.

Context {S : Type} (f : S -> Z -> S).

Local Abbreviation body := (reading f).

Lemma foldR_reading_shift (lo hi : byte) (rest : Buffer) (offs : list Z) :
  (forall i, i ∈ offs -> 0 <= i) ->
  forall acc,
    foldR (body (lo :: hi :: rest)) acc ((fun i => i + 2) <$> offs)
    = match foldR (body rest) acc offs with
      | Ok acc' => Ok acc'
      | Throw _ => Throw ERR_OUT_OF_RANGE
      end.
Proof.
  induction offs as [|i offs IH]; intros Hpos acc; [done|].
  cbn [fmap list_fmap foldR]. unfold reading at 1 3.
  rewrite readInt16LE_cons2 by (apply Hpos; left).
  destruct (readInt16LE rest i); cbn [rbind]; [|done].
  apply IH. intros j Hj. apply Hpos. by right.
Qed.

Lemma foldR_reading_even (buffer : Buffer) (acc : S) :
  blen buffer mod 2 = 0 ->
  foldR (body buffer) acc (even_offsets (length buffer))
  = Ok (fold_left f (samples buffer) acc).
Proof.
  revert acc. induction buffer as [|a|lo hi rest IH] using list_pair_ind;
    intros acc Hev.
  - done.
  - by vm_compute in Hev.
  - rewrite length_cons, length_cons, even_offsets_cons2.
    cbn [foldR]. unfold reading at 1. rewrite readInt16LE_head.
    cbn [rbind samples fold_left].
    rewrite foldR_reading_shift by apply even_offsets_nonneg.
    rewrite IH; [done|]. unfold blen in *. rewrite !length_cons in Hev.
    rewrite !Nat2Z.inj_succ in Hev.
    replace (Z.succ (Z.succ (Z.of_nat (length rest))))
      with (Z.of_nat (length rest) + 1 * 2) in Hev by lia.
    by rewrite Z.mod_add in Hev by lia.
Qed.

(** On an odd length the loop raises at its last offset: the error
    is ERR_BUFFER_OUT_OF_BOUNDS on a single byte, ERR_OUT_OF_RANGE on
    three bytes or more. *)
Lemma foldR_reading_odd (buffer : Buffer) (acc : S) :
  blen buffer mod 2 = 1 ->
  foldR (body buffer) acc (even_offsets (length buffer))
  = Throw (boundsError (blen buffer - 2)).
Proof.
  revert acc. induction buffer as [|a|lo hi rest IH] using list_pair_ind;
    intros acc Hodd.
  - by vm_compute in Hodd.
  - done.
  - rewrite length_cons, length_cons, even_offsets_cons2.
    cbn [foldR]. unfold reading at 1. rewrite readInt16LE_head.
    cbn [rbind].
    rewrite foldR_reading_shift by apply even_offsets_nonneg.
    rewrite IH.
    + rewrite boundsError_nonneg; [done|]. unfold blen. cbn [length]. lia.
    + unfold blen in *. rewrite !length_cons in Hodd.
      rewrite !Nat2Z.inj_succ in Hodd.
      replace (Z.succ (Z.succ (Z.of_nat (length rest))))
        with (Z.of_nat (length rest) + 1 * 2) in Hodd by lia.
      by rewrite Z.mod_add in Hodd by lia.
Qed.

Lemma foldR_reading_error (buffer : Buffer) (offs : list Z) (acc : S)
    (e : error) :
  foldR (body buffer) acc offs = Throw e ->
  e = boundsError (blen buffer - 2).
Proof.
  revert acc. induction offs as [|i offs IH]; intros acc; cbn [foldR];
    [done|].
  unfold reading at 1.
  destruct (readInt16LE buffer i) as [v|e'] eqn:Hr; cbn [rbind].
  - apply IH.
  - intros [= <-]. by apply readInt16LE_error in Hr.
Qed.

End ReadingLoops.

Lemma blen_parity (b : Buffer) : blen b mod 2 = 0 \/ blen b mod 2 = 1.
Proof. pose proof (Z.mod_pos_bound (blen b) 2). lia. Qed.

Lemma samples_range (b : Buffer) :
  Forall (fun s => -32768 <= s <= 32767) (samples b).
Proof.
  induction b as [|a|lo hi rest IH] using list_pair_ind; cbn [samples];
    [done|done|].
  constructor; [|done].
  unfold to_int16, byte_val.
  pose proof (Byte.to_N_bounded lo). pose proof (Byte.to_N_bounded hi).
  destruct (Z.ltb_spec (Z.of_N (Byte.to_N lo) + 256 * Z.of_N (Byte.to_N hi)) 32768);
    lia.
Qed.

(** ** Writing the WAV header *)

Lemma uintLE_length (n : nat) (z : Z) : length (uintLE n z) = n.
Proof. unfold uintLE. by rewrite length_fmap, length_seq. Qed.

(** A write just after the part already written, into the zeros that
    follow it. *)
Lemma writeUIntLE_next (written : list byte) (n r total : nat)
    (v : float) (off : Z) :
  off = blen written -> total = (n + r)%nat ->
  writeUIntLE n (written ++ repeat x00 total) v off
  = if Num.gt v (Num.of_Z (2 ^ (8 * Z.of_nat n) - 1)) || Num.lt v 0%float
    then Throw ERR_OUT_OF_RANGE
    else Ok ((written
                ++ uintLE n match Num.truncZ v with Some z => z | None => 0 end)
               ++ repeat x00 r).
Proof.
  intros -> ->. unfold writeUIntLE.
  destruct (_ || _); [done|].
  destruct (Z.ltb_spec (blen written) 0) as [Hneg|_];
    [unfold blen in Hneg; lia|].
  destruct (Z.ltb_spec (blen (written ++ repeat x00 (n + r)))
                       (blen written + Z.of_nat n)) as [Hlt|_].
  { unfold blen in Hlt. rewrite length_app, repeat_length in Hlt. lia. }
  cbn [orb]. f_equal. unfold blen. rewrite Nat2Z.id.
  rewrite take_app_length, <- app_assoc. do 2 f_equal.
  rewrite drop_app_ge by lia.
  replace (length written + n - length written)%nat with n by lia.
  by rewrite repeat_app, drop_app_length'
    by (by rewrite repeat_length).
Qed.

Lemma Buffer_write_next (written : list byte) (s : string) (r total : nat)
    (off : Z) :
  off = blen written ->
  total = (length (String.list_byte_of_string s) + r)%nat ->
  Buffer_write (written ++ repeat x00 total) s off
  = Ok ((written ++ String.list_byte_of_string s) ++ repeat x00 r).
Proof.
  intros -> ->. unfold Buffer_write.
  destruct (Z.ltb_spec (blen written) 0) as [Hneg|_];
    [unfold blen in Hneg; lia|].
  destruct (Z.ltb_spec (blen (written ++ repeat x00
              (length (String.list_byte_of_string s) + r)))
              (blen written)) as [Hlt|_].
  { unfold blen in Hlt. rewrite length_app in Hlt. lia. }
  cbn [orb]. f_equal. unfold blen. rewrite Nat2Z.id.
  rewrite length_app, repeat_length.
  rewrite (take_ge (String.list_byte_of_string s)) by lia.
  rewrite take_app_length, <- app_assoc. do 2 f_equal.
  rewrite drop_app_ge by lia.
  replace (length written + length (String.list_byte_of_string s)
           - length written)%nat
    with (length (String.list_byte_of_string s)) by lia.
  by rewrite repeat_app, drop_app_length'
    by (by rewrite repeat_length).
Qed.

(** The range test of a size, an integer, against the largest
    unsigned 32-bit integer. *)
Lemma size_in_range (n : Z) :
  0 <= n < 2 ^ 54 ->
  Num.gt (Num.of_Z n) (Num.of_Z (2 ^ (8 * Z.of_nat 4) - 1))
    || Num.lt (Num.of_Z n) 0%float
  = (4294967295 <? n).
Proof.
  intros Hn. rewrite gt_of_Z by (change (2 ^ (8 * Z.of_nat 4) - 1) with 4294967295; lia).
  change (2 ^ (8 * Z.of_nat 4) - 1) with 4294967295.
  replace (Num.lt (Num.of_Z n) 0) with false; [by rewrite orb_false_r|].
  symmetry. unfold Num.lt. change 0%float with (Num.of_Z 0).
  destruct (Z.lt_ge_cases n (2 ^ 53)).
  - rewrite ltb_of_Z by lia. apply Z.ltb_ge. lia.
  - rewrite ltb_spec.
    destruct (Prim2SF_of_Z_large n) as (m & e & -> & _); [lia|]. done.
Qed.

Section Wav.

Import Transcription.

Lemma convertPCMToWAV_whisper (pcm : Buffer) :
  blen pcm <= kMaxLength ->
  convertPCMToWAV pcm 16000 1 16 LE
  = if blen pcm <=? 4294967259
    then Ok (whisper_header (blen pcm) ++ pcm)
    else Throw ERR_OUT_OF_RANGE.
Proof.
  intros Hmax. unfold kMaxLength in Hmax.
  pose proof (blen_nonneg pcm) as Hpos.
  unfold convertPCMToWAV. cbn [rbind].
  change (Buffer_alloc 44) with (Ok ([] ++ repeat x00 44)). cbn [rbind].
  rewrite (Buffer_write_next [] "RIFF" 40) by done. cbn [rbind].
  unfold writeUInt32LE at 1.
  rewrite (writeUIntLE_next _ 4 36) by done.
  rewrite size_in_range by lia.
  destruct (Z.ltb_spec 4294967295 (36 + blen pcm)) as [Hbig|Hfit].
  { destruct (Z.leb_spec (blen pcm) 4294967259); [lia|done]. }
  destruct (Z.leb_spec (blen pcm) 4294967259) as [_|?]; [|lia].
  rewrite truncZ_of_Z by lia. cbn [rbind].
  rewrite (Buffer_write_next _ "WAVE" 32) by done. cbn [rbind].
  rewrite (Buffer_write_next _ "fmt " 28) by done. cbn [rbind].
  unfold writeUInt32LE at 1.
  rewrite (writeUIntLE_next _ 4 24) by done.
  change (Num.gt 16 (Num.of_Z (2 ^ (8 * Z.of_nat 4) - 1)) || Num.lt 16 0)
    with false. cbv iota. cbn [rbind].
  change (Num.truncZ 16) with (Some 16).
  unfold writeUInt16LE at 1.
  rewrite (writeUIntLE_next _ 2 22) by done.
  change (Num.gt 1 (Num.of_Z (2 ^ (8 * Z.of_nat 2) - 1)) || Num.lt 1 0)
    with false. cbv iota. cbn [rbind].
  change (Num.truncZ 1) with (Some 1).
  unfold writeUInt16LE at 1.
  rewrite (writeUIntLE_next _ 2 20) by done.
  change (Num.gt 1 (Num.of_Z (2 ^ (8 * Z.of_nat 2) - 1)) || Num.lt 1 0)
    with false. cbv iota. cbn [rbind].
  change (Num.truncZ 1) with (Some 1).
  unfold writeUInt32LE at 1.
  rewrite (writeUIntLE_next _ 4 16) by done.
  change (Num.gt 16000 (Num.of_Z (2 ^ (8 * Z.of_nat 4) - 1)) || Num.lt 16000 0)
    with false. cbv iota. cbn [rbind].
  change (Num.truncZ 16000) with (Some 16000).
  unfold writeUInt32LE at 1.
  rewrite (writeUIntLE_next _ 4 12) by done.
  change (PrimFloat.mul (PrimFloat.mul 16000 1) (PrimFloat.div 16 8))
    with 32000%float.
  change (Num.gt 32000 (Num.of_Z (2 ^ (8 * Z.of_nat 4) - 1)) || Num.lt 32000 0)
    with false. cbv iota. cbn [rbind].
  change (Num.truncZ 32000) with (Some 32000).
  unfold writeUInt16LE at 1.
  rewrite (writeUIntLE_next _ 2 10) by done.
  change (PrimFloat.mul 1 (PrimFloat.div 16 8)) with 2%float.
  change (Num.gt 2 (Num.of_Z (2 ^ (8 * Z.of_nat 2) - 1)) || Num.lt 2 0)
    with false. cbv iota. cbn [rbind].
  change (Num.truncZ 2) with (Some 2).
  unfold writeUInt16LE at 1.
  rewrite (writeUIntLE_next _ 2 8) by done.
  change (Num.gt 16 (Num.of_Z (2 ^ (8 * Z.of_nat 2) - 1)) || Num.lt 16 0)
    with false. cbv iota. cbn [rbind].
  change (Num.truncZ 16) with (Some 16).
  rewrite (Buffer_write_next _ "data" 4) by done. cbn [rbind].
  unfold writeUInt32LE at 1.
  rewrite (writeUIntLE_next _ 4 0) by done.
  rewrite size_in_range by lia.
  destruct (Z.ltb_spec 4294967295 (blen pcm)) as [?|_]; [lia|].
  rewrite truncZ_of_Z by lia. cbn [rbind].
  reflexivity.
Qed.

End Wav.

Section Swap.

Import Transcription.

Lemma swapped_length (b : Buffer) : length (swapped b) = length b.
Proof.
  induction b as [|a|b0 b1 rest IH] using list_pair_ind; cbn [swapped length];
    congruence.
Qed.

Lemma swap_body_length (pcm out : Buffer) (i : Z) :
  length (swap_body pcm out i) = length out.
Proof. unfold swap_body. by rewrite !length_insert. Qed.

Lemma swap_loop_shift (b0 b1 : byte) (rest : Buffer) (offs : list Z) :
  (forall i, i ∈ offs -> 0 <= i) ->
  forall (o0 o1 : byte) (out : Buffer),
    fold_left (swap_body (b0 :: b1 :: rest)) ((fun i => i + 2) <$> offs)
              (o0 :: o1 :: out)
    = o0 :: o1 :: fold_left (swap_body rest) offs out.
Proof.
  induction offs as [|i offs IH]; intros Hpos o0 o1 out; [done|].
  cbn [fmap list_fmap fold_left].
  assert (Hi : 0 <= i) by (apply Hpos; left).
  replace (swap_body (b0 :: b1 :: rest) (o0 :: o1 :: out) (i + 2))
    with (o0 :: o1 :: swap_body rest out i).
  { apply IH. intros j Hj. apply Hpos. by right. }
  unfold swap_body.
  replace (Z.to_nat (i + 2)) with (S (S (Z.to_nat i))) by lia.
  done.
Qed.

(** The byte-swapping loop run on a zero-filled buffer of the length
    of its input. *)
Lemma swap_loop_spec (pcm : Buffer) :
  fold_left (swap_body pcm) (even_offsets (length pcm))
            (repeat x00 (length pcm))
  = swapped pcm.
Proof.
  induction pcm as [|a|b0 b1 rest IH] using list_pair_ind.
  - done.
  - done.
  - rewrite !length_cons, even_offsets_cons2.
    cbn [repeat fold_left]. 
    change (swap_body (b0 :: b1 :: rest)
              (x00 :: x00 :: repeat x00 (length rest)) 0)
      with (b1 :: b0 :: repeat x00 (length rest)).
    rewrite swap_loop_shift by apply even_offsets_nonneg.
    cbn [swapped]. by rewrite IH.
Qed.

Lemma swapped_involutive (b : Buffer) :
  blen b mod 2 = 0 -> swapped (swapped b) = b.
Proof.
  induction b as [|a|b0 b1 rest IH] using list_pair_ind; intros Hev.
  - done.
  - by vm_compute in Hev.
  - cbn [swapped]. rewrite IH; [done|].
    unfold blen in *. rewrite !length_cons, !Nat2Z.inj_succ in Hev.
    replace (Z.succ (Z.succ (Z.of_nat (length rest))))
      with (Z.of_nat (length rest) + 1 * 2) in Hev by lia.
    by rewrite Z.mod_add in Hev by lia.
Qed.

End Swap.

Section Layout.

Import Transcription.

(** What the encoder returns, whatever the format parameters: the
    two magic words, two size fields and a 32-byte format chunk around
    them, and the samples. *)
Lemma convertPCMToWAV_layout (pcm : Buffer) (sampleRate channels bits : float)
    (order : ByteOrder) (wavBuffer : Buffer) :
  convertPCMToWAV pcm sampleRate channels bits order = Ok wavBuffer ->
  exists (fileSize fmt dataSize : list byte),
    length fileSize = 4%nat /\ length fmt = 24%nat /\
    length dataSize = 4%nat /\
    wavBuffer = String.list_byte_of_string "RIFF" ++ fileSize
                ++ String.list_byte_of_string "WAVE" ++ fmt
                ++ String.list_byte_of_string "data" ++ dataSize
                ++ match order with LE => pcm | BE => swapped pcm end.
Proof.
  unfold convertPCMToWAV.
  assert (Hproc :
    match order with
    | BE =>
        processedBuffer <-! Buffer_alloc (blen pcm) ;
        Ok (fold_left (swap_body pcm) (even_offsets (length pcm))
                      processedBuffer)
    | LE => Ok pcm
    end = match order with
          | LE => Ok pcm
          | BE => if (blen pcm <? 0) || (kMaxLength <? blen pcm)
                  then Throw ERR_OUT_OF_RANGE else Ok (swapped pcm)
          end).
  { destruct order; [done|]. unfold Buffer_alloc.
    destruct (_ || _); [done|]. cbn [rbind]. f_equal.
    unfold blen. rewrite Nat2Z.id. apply swap_loop_spec. }
  rewrite Hproc. clear Hproc.
  set (processed := match order with LE => pcm | BE => swapped pcm end).
  assert (Hcase :
    match order with
    | LE => Ok pcm
    | BE => if (blen pcm <? 0) || (kMaxLength <? blen pcm)
            then Throw ERR_OUT_OF_RANGE else Ok (swapped pcm)
    end = Ok processed \/
    match order with
    | LE => Ok pcm
    | BE => if (blen pcm <? 0) || (kMaxLength <? blen pcm)
            then Throw ERR_OUT_OF_RANGE else Ok (swapped pcm)
    end = Throw ERR_OUT_OF_RANGE).
  { destruct order; [by left|]. destruct (_ || _); [by right|by left]. }
  destruct Hcase as [-> | ->]; [|done]. cbn [rbind].
  change (Buffer_alloc 44) with (Ok ([] ++ repeat x00 44)). cbn [rbind].
  rewrite (Buffer_write_next [] "RIFF" 40) by done. cbn [rbind].
  unfold writeUInt32LE at 1.
  rewrite (writeUIntLE_next _ 4 36) by done.
  destruct (_ || _); [done|]. cbn [rbind].
  rewrite (Buffer_write_next _ "WAVE" 32) by done. cbn [rbind].
  rewrite (Buffer_write_next _ "fmt " 28) by done. cbn [rbind].
  unfold writeUInt32LE at 1.
  rewrite (writeUIntLE_next _ 4 24) by done.
  destruct (_ || _); [done|]. cbn [rbind].
  unfold writeUInt16LE at 1.
  rewrite (writeUIntLE_next _ 2 22) by done.
  destruct (_ || _); [done|]. cbn [rbind].
  unfold writeUInt16LE at 1.
  rewrite (writeUIntLE_next _ 2 20) by done.
  destruct (_ || _); [done|]. cbn [rbind].
  unfold writeUInt32LE at 1.
  rewrite (writeUIntLE_next _ 4 16) by done.
  destruct (_ || _); [done|]. cbn [rbind].
  unfold writeUInt32LE at 1.
  rewrite (writeUIntLE_next _ 4 12) by done.
  destruct (_ || _); [done|]. cbn [rbind].
  unfold writeUInt16LE at 1.
  rewrite (writeUIntLE_next _ 2 10) by done.
  destruct (_ || _); [done|]. cbn [rbind].
  unfold writeUInt16LE at 1.
  rewrite (writeUIntLE_next _ 2 8) by done.
  destruct (_ || _); [done|]. cbn [rbind].
  rewrite (Buffer_write_next _ "data" 4) by done. cbn [rbind].
  unfold writeUInt32LE at 1.
  rewrite (writeUIntLE_next _ 4 0) by done.
  destruct (_ || _); [done|]. cbn [rbind].
  intros [= <-].
  eexists (uintLE 4 _), (String.list_byte_of_string "fmt " ++ uintLE 4 _ ++ uintLE 2 _
              ++ uintLE 2 _ ++ uintLE 4 _ ++ uintLE 4 _ ++ uintLE 2 _
              ++ uintLE 2 _), (uintLE 4 _).
  split; [done|]. split; [done|]. split; [done|]. reflexivity.
Qed.

End Layout.

(** ** Reading the header back *)

Lemma byte_val_of_Z (z : Z) : byte_val (byte_of_Z z) = z mod 256.
Proof.
  unfold byte_of_Z, byte_val.
  pose proof (Z.mod_pos_bound z 256 ltac:(lia)) as Hb.
  destruct (Byte.of_N (Z.to_N (z mod 256))) as [b|] eqn:Hof.
  - apply Byte.to_of_N in Hof. rewrite Hof. lia.
  - apply Byte.of_N_None_iff in Hof. lia.
Qed.

Lemma le_value_uintLE (n : nat) (z : Z) :
  0 <= z -> le_value (uintLE n z) = z mod 2 ^ (8 * Z.of_nat n).
Proof.
  unfold uintLE. revert z. induction n as [|n IH]; intros z Hz.
  - simpl. by rewrite Z.mod_1_r.
  - cbn [seq fmap list_fmap le_value].
    rewrite <- seq_shift, <- list_fmap_compose.
    rewrite byte_val_of_Z. change (8 * Z.of_nat 0) with 0.
    rewrite Z.shiftr_0_r.
    replace (le_value _) with (le_value
      ((fun k => byte_of_Z (Z.shiftr (Z.shiftr z 8) (8 * Z.of_nat k)))
         <$> seq 0 n)).
    2:{ f_equal. apply list_fmap_ext. intros _ k _. cbn [compose].
        rewrite Z.shiftr_shiftr by lia. do 2 f_equal. lia. }
    rewrite IH by (apply Z.shiftr_nonneg; lia).
    rewrite Z.shiftr_div_pow2 by lia.
    replace (8 * Z.of_nat (S n)) with (8 + 8 * Z.of_nat n) by lia.
    rewrite Z.pow_add_r by lia. change (2 ^ 8) with 256.
    rewrite (Z.rem_mul_r z 256 (2 ^ (8 * Z.of_nat n))); [lia|lia|].
    apply Z.pow_pos_nonneg; lia.
Qed.

Lemma le_value_uint32 (z : Z) :
  0 <= z <= 4294967295 -> le_value (uintLE 4 z) = z.
Proof.
  intros Hz. rewrite le_value_uintLE by lia. apply Z.mod_small.
  change (2 ^ (8 * Z.of_nat 4)) with 4294967296. lia.
Qed.

Section Whisper.

Import Transcription.

Lemma whisper_header_length (n : Z) : length (whisper_header n) = 44%nat.
Proof. reflexivity. Qed.

End Whisper.

(** ** The audio metrics of [transcribeAudio] *)

Section Metrics.

Import Transcription.

Lemma getMaxAudioValue_even (b : Buffer) :
  blen b mod 2 = 0 ->
  getMaxAudioValue b
  = Ok (fold_left (fun max s => if max <? Z.abs s then Z.abs s else max)
                  (samples b) 0).
Proof.
  intros Hev. unfold getMaxAudioValue.
  exact (foldR_reading_even
           (fun max s => if max <? Z.abs s then Z.abs s else max) b 0 Hev).
Qed.

Lemma getMaxAudioValue_odd (b : Buffer) :
  blen b mod 2 = 1 ->
  getMaxAudioValue b = Throw (boundsError (blen b - 2)).
Proof.
  intros Hodd. unfold getMaxAudioValue.
  exact (foldR_reading_odd
           (fun max s => if max <? Z.abs s then Z.abs s else max) b 0 Hodd).
Qed.

Lemma getAverageAudioValue_odd (b : Buffer) :
  blen b mod 2 = 1 ->
  getAverageAudioValue b = Throw (boundsError (blen b - 2)).
Proof.
  intros Hodd. unfold getAverageAudioValue.
  change (VoiceDetectionStatic.abs_body b)
    with (reading (fun sum s => PrimFloat.add sum (Num.of_Z (Z.abs s))) b).
  by rewrite foldR_reading_odd.
Qed.

Lemma fold_max_spec (l : list Z) (a : Z) :
  let r := fold_left (fun max s => if max <? Z.abs s then Z.abs s else max)
                     l a in
  a <= r /\ Forall (fun s => Z.abs s <= r) l /\
  (r = a \/ exists s, s ∈ l /\ Z.abs s = r).
Proof.
  revert a. induction l as [|s l IH]; intros a; cbn [fold_left].
  - split; [lia|]. split; [constructor|by left].
  - destruct (IH (if a <? Z.abs s then Z.abs s else a)) as (Hle & Hall & Hex).
    destruct (Z.ltb_spec a (Z.abs s)) as [Hlt|Hge].
    + split; [lia|]. split; [constructor; [lia|done]|].
      right. destruct Hex as [->|(s' & Hs' & Heq)].
      * exists s. split; [left|done].
      * exists s'. split; [by right|done].
    + split; [lia|]. split; [constructor; [lia|done]|].
      destruct Hex as [->|(s' & Hs' & Heq)]; [by left|].
      right. exists s'. split; [by right|done].
Qed.

(** The last offset of the variation loop on an even length is
    [length - 1], whose second byte does not exist. *)
Lemma variation_loop_last (b : Buffer) (first : Z) (offs : list Z) (i : Z)
    (e : error) :
  readInt16LE b i = Throw e ->
  variation_loop b first (offs ++ [i]) <> Ok false.
Proof.
  intros Hi. induction offs as [|j offs IH]; cbn [app variation_loop].
  - by rewrite Hi.
  - destruct (readInt16LE b j); cbn [rbind]; [|done].
    by destruct (tolerance <? _).
Qed.

Lemma checkAudioVariation_error (b : Buffer) (e : error) :
  checkAudioVariation b = Throw e -> e = boundsError (blen b - 2).
Proof.
  unfold checkAudioVariation.
  destruct (readInt16LE b 0) as [first|e'] eqn:Hfirst; cbn [rbind].
  2:{ intros [= <-]. by apply readInt16LE_error in Hfirst. }
  induction (odd_offsets (length b)) as [|i offs IH]; cbn [variation_loop];
    [done|].
  destruct (readInt16LE b i) as [v|e'] eqn:Hr; cbn [rbind].
  - by destruct (tolerance <? _).
  - intros [= <-]. by apply readInt16LE_error in Hr.
Qed.

Lemma getAverageAudioValue_error (b : Buffer) (e : error) :
  getAverageAudioValue b = Throw e -> e = boundsError (blen b - 2).
Proof.
  unfold getAverageAudioValue.
  change (VoiceDetectionStatic.abs_body b)
    with (reading (fun sum s => PrimFloat.add sum (Num.of_Z (Z.abs s))) b).
  destruct (foldR _ _ _) as [sum|e'] eqn:Hf; cbn [rbind]; [done|].
  intros [= <-]. by apply foldR_reading_error in Hf.
Qed.

Lemma checkAudioVariation_even (b : Buffer) :
  blen b mod 2 = 0 -> checkAudioVariation b <> Ok false.
Proof.
  intros Hev. unfold checkAudioVariation.
  destruct (readInt16LE b 0) as [first|e] eqn:Hfirst; cbn [rbind]; [|done].
  assert (Hlen : 2 <= blen b).
  { destruct (Z.lt_ge_cases (blen b) 2) as [Hlt|]; [|done].
    rewrite readInt16LE_past_end in Hfirst by lia. done. }
  unfold odd_offsets.
  pose proof (Nat.div2_odd (length b)) as Hd.
  assert (Ho : Nat.odd (length b) = false).
  { unfold blen in Hev. destruct (Nat.odd (length b)) eqn:Ho; [|done].
    apply Nat.odd_spec in Ho as [k Hk]. rewrite Hk in Hev.
    rewrite Nat2Z.inj_add, Nat2Z.inj_mul in Hev.
    rewrite Z.add_comm, Z.mul_comm, Z.mod_add in Hev by lia. done. }
  rewrite Ho in Hd. cbn in Hd.
  destruct (Nat.div2 (length b)) as [|m] eqn:Hm.
  { unfold blen in Hlen. lia. }
  rewrite seq_S, fmap_app. cbn [fmap list_fmap].
  apply (variation_loop_last _ _ _ _ (boundsError (blen b - 2))).
  apply readInt16LE_past_end. unfold blen. lia.
Qed.

End Metrics.

(** ** The WAV file handed to the transcription model *)

(** X1: for the parameters of its one call (16 kHz, mono, 16 bits,
    little-endian) and any buffer Node can hold, [convertPCMToWAV]
    returns the 44-byte canonical header followed by the samples
    unchanged: ['RIFF'], the file size less 8, ['WAVEfmt '], a format
    chunk of 16 bytes declaring PCM, 1 channel, 16000 Hz, 32000 bytes
    per second, 2 bytes per block and 16 bits, then ['data'] and the
    number of bytes of samples. *)
Theorem wav_header_for_whisper (pcm wavBuffer : Buffer) :
  blen pcm <= kMaxLength ->
  Transcription.convertPCMToWAV pcm 16000 1 16 Transcription.LE
    = Ok wavBuffer ->
  take 4 wavBuffer = String.list_byte_of_string "RIFF" /\
  le_value (take 4 (drop 4 wavBuffer)) = 36 + blen pcm /\
  take 8 (drop 8 wavBuffer) = String.list_byte_of_string "WAVEfmt " /\
  le_value (take 4 (drop 16 wavBuffer)) = 16 /\
  le_value (take 2 (drop 20 wavBuffer)) = 1 /\
  le_value (take 2 (drop 22 wavBuffer)) = 1 /\
  le_value (take 4 (drop 24 wavBuffer)) = 16000 /\
  le_value (take 4 (drop 28 wavBuffer)) = 32000 /\
  le_value (take 2 (drop 32 wavBuffer)) = 2 /\
  le_value (take 2 (drop 34 wavBuffer)) = 16 /\
  take 4 (drop 36 wavBuffer) = String.list_byte_of_string "data" /\
  le_value (take 4 (drop 40 wavBuffer)) = blen pcm /\
  drop 44 wavBuffer = pcm.
Proof.
  intros Hmax. rewrite convertPCMToWAV_whisper by done.
  destruct (Z.leb_spec (blen pcm) 4294967259) as [Hfit|]; [|done].
  intros [= <-]. pose proof (blen_nonneg pcm).
  repeat split; try reflexivity.
  - change (take 4 (drop 4 (Transcription.whisper_header (blen pcm) ++ pcm)))
      with (uintLE 4 (36 + blen pcm)).
    apply le_value_uint32. lia.
  - change (take 4 (drop 40 (Transcription.whisper_header (blen pcm) ++ pcm)))
      with (uintLE 4 (blen pcm)).
    apply le_value_uint32. lia.
Qed.

Lemma wav_header_for_whisper_witness :
  exists wavBuffer,
    Transcription.convertPCMToWAV [x01; x02; x03; x04] 16000 1 16
      Transcription.LE = Ok wavBuffer /\
    le_value (take 4 (drop 4 wavBuffer)) = 40 /\
    le_value (take 4 (drop 24 wavBuffer)) = 16000 /\
    le_value (take 4 (drop 40 wavBuffer)) = 4 /\
    drop 44 wavBuffer = [x01; x02; x03; x04].
Proof.
  eexists. split; [vm_compute; reflexivity|].
  match goal with
  | |- context [le_value (take 4 (drop 4 ?w))] =>
      destruct (wav_header_for_whisper [x01; x02; x03; x04] w)
        as (_ & H4 & _ & _ & _ & _ & H24 & _ & _ & _ & _ & H40 & Hd)
  end.
  - vm_compute. congruence.
  - vm_compute. reflexivity.
  - split; [exact H4|]. split; [exact H24|]. split; [exact H40|exact Hd].
Defined.

(** X2: the size fields are unsigned 32-bit integers: with the
    parameters of the call, the encoder returns exactly when the
    samples take at most 4294967259 bytes (the file size field,
    36 bytes more, still fits); beyond that [writeUInt32LE] raises
    ERR_OUT_OF_RANGE. *)
Theorem wav_size_limit (pcm : Buffer) :
  blen pcm <= kMaxLength ->
  (blen pcm <= 4294967259 ->
   exists wavBuffer,
     Transcription.convertPCMToWAV pcm 16000 1 16 Transcription.LE
       = Ok wavBuffer /\
     blen wavBuffer = 44 + blen pcm) /\
  (4294967259 < blen pcm ->
   Transcription.convertPCMToWAV pcm 16000 1 16 Transcription.LE
     = Throw ERR_OUT_OF_RANGE).
Proof.
  intros Hmax. rewrite convertPCMToWAV_whisper by done.
  destruct (Z.leb_spec (blen pcm) 4294967259) as [Hfit|Hbig].
  - split; [|lia]. intros _. eexists. split; [done|].
    unfold blen. rewrite length_app, whisper_header_length. lia.
  - split; [lia|done].
Qed.

Lemma wav_size_limit_witness :
  (exists wavBuffer,
     Transcription.convertPCMToWAV [x01; x02] 16000 1 16 Transcription.LE
       = Ok wavBuffer /\
     blen wavBuffer = 46) /\
  Transcription.convertPCMToWAV (repeat x00 (Z.to_nat 4294967260)) 16000 1 16
    Transcription.LE = Throw ERR_OUT_OF_RANGE.
Proof.
  split.
  - apply (wav_size_limit [x01; x02]); vm_compute; congruence.
  - assert (Hlen : blen (repeat x00 (Z.to_nat 4294967260)) = 4294967260).
    { unfold blen. rewrite repeat_length. apply Z2Nat.id. lia. }
    apply (wav_size_limit (repeat x00 (Z.to_nat 4294967260))).
    + rewrite Hlen. unfold kMaxLength. lia.
    + rewrite Hlen. lia.
Defined.

(** X3: whatever the format parameters and the byte order, a file the
    encoder returns is 44 bytes longer than the samples, is classified
    ['wav'] by [AudioConverter.detectAudioFormat], and passes the
    detector's [isValidAudioBuffer] exactly when it has 1024 bytes, that
    is when there are at least 980 bytes of samples. *)
Theorem wav_is_recognised (pcm : Buffer) (sampleRate channels bits : float)
    (order : Transcription.ByteOrder) (wavBuffer : Buffer) :
  Transcription.convertPCMToWAV pcm sampleRate channels bits order
    = Ok wavBuffer ->
  blen wavBuffer = 44 + blen pcm /\
  AudioConverter.detectAudioFormat wavBuffer = AudioConverter.wav /\
  VoiceDetection.isValidAudioBuffer wavBuffer = (980 <=? blen pcm).
Proof.
  intros Hok.
  destruct (convertPCMToWAV_layout _ _ _ _ _ _ Hok)
    as (fs & fmt & ds & Hfs & Hfmt & Hds & ->).
  destruct fs as [|f0 [|f1 [|f2 [|f3 [|]]]]]; try done.
  set (payload := match order with
                  | Transcription.LE => pcm
                  | Transcription.BE => Transcription.swapped pcm
                  end).
  assert (Hpay : blen payload = blen pcm).
  { unfold payload, blen. destruct order; [done|].
    by rewrite swapped_length. }
  assert (Hlen : blen (String.list_byte_of_string "RIFF" ++ [f0; f1; f2; f3]
                   ++ String.list_byte_of_string "WAVE" ++ fmt
                   ++ String.list_byte_of_string "data" ++ ds ++ payload)
                 = 44 + blen pcm).
  { unfold blen in *. rewrite !length_app, Hfmt, Hds.
    change (length (String.list_byte_of_string "RIFF")) with 4%nat.
    change (length (String.list_byte_of_string "WAVE")) with 4%nat.
    change (length (String.list_byte_of_string "data")) with 4%nat.
    cbn [length]. lia. }
  pose proof (blen_nonneg pcm).
  split; [done|]. split.
  - unfold AudioConverter.detectAudioFormat. rewrite Hlen.
    destruct (Z.ltb_spec (44 + blen pcm) 4); [lia|]. reflexivity.
  - unfold VoiceDetection.isValidAudioBuffer. rewrite Hlen.
    destruct (Z.ltb_spec (44 + blen pcm) 1024) as [Hs|Hl].
    { symmetry. apply Z.leb_gt. lia. }
    destruct (Z.ltb_spec 12 (44 + blen pcm)) as [_|]; [|lia].
    cbn [andb].
    change (bool_decide (VoiceDetection.ascii_slice _ 0 4 = VoiceDetection.RIFF))
      with true. cbv iota.
    change (bool_decide (VoiceDetection.ascii_slice _ 8 12 = VoiceDetection.WAVE))
      with true.
    symmetry. apply Z.leb_le. lia.
Qed.

Lemma wav_is_recognised_witness :
  exists wavBuffer,
    Transcription.convertPCMToWAV [x01; x02; x03] 44100 2 16 Transcription.BE
      = Ok wavBuffer /\
    blen wavBuffer = 47 /\
    AudioConverter.detectAudioFormat wavBuffer = AudioConverter.wav /\
    VoiceDetection.isValidAudioBuffer wavBuffer = false.
Proof.
  eexists. split; [vm_compute; reflexivity|].
  eapply (wav_is_recognised [x01; x02; x03] 44100 2 16 Transcription.BE).
  vm_compute. reflexivity.
Defined.

Lemma swapped_lookup (b : Buffer) (k : nat) :
  (2 * k + 1 < length b)%nat ->
  Transcription.swapped b !! (2 * k)%nat = b !! (2 * k + 1)%nat /\
  Transcription.swapped b !! (2 * k + 1)%nat = b !! (2 * k)%nat.
Proof.
  revert k. induction b as [|a|b0 b1 rest IH] using list_pair_ind;
    intros k Hk; cbn [length] in Hk; [lia|lia|].
  destruct k as [|k]; [done|].
  replace (2 * S k)%nat with (S (S (2 * k))) by lia.
  cbn [Transcription.swapped]. apply IH. cbn [length] in Hk. lia.
Qed.

Lemma swapped_last_odd (b : Buffer) :
  blen b mod 2 = 1 -> last (Transcription.swapped b) = Some x00.
Proof.
  induction b as [|a|b0 b1 rest IH] using list_pair_ind; intros Hodd.
  - by vm_compute in Hodd.
  - done.
  - cbn [Transcription.swapped].
    assert (Hrest : blen rest mod 2 = 1).
    { unfold blen in *. rewrite !length_cons, !Nat2Z.inj_succ in Hodd.
      replace (Z.succ (Z.succ (Z.of_nat (length rest))))
        with (Z.of_nat (length rest) + 1 * 2) in Hodd by lia.
      by rewrite Z.mod_add in Hodd by lia. }
    specialize (IH Hrest).
    destruct (Transcription.swapped rest) as [|x l] eqn:Hs; [done|].
    exact IH.
Qed.

(** X4: with byte order ['BE'] the samples part of the file has the
    length of the input and holds it with the two bytes of every
    sample exchanged; when the input has an odd number of bytes, its
    last byte is lost: a 0 is stored in its place. *)
Theorem big_endian_payload (pcm : Buffer) (sampleRate channels bits : float)
    (wavBuffer : Buffer) :
  Transcription.convertPCMToWAV pcm sampleRate channels bits Transcription.BE
    = Ok wavBuffer ->
  length (drop 44 wavBuffer) = length pcm /\
  (forall k : nat, (2 * k + 1 < length pcm)%nat ->
     drop 44 wavBuffer !! (2 * k)%nat = pcm !! (2 * k + 1)%nat /\
     drop 44 wavBuffer !! (2 * k + 1)%nat = pcm !! (2 * k)%nat) /\
  (blen pcm mod 2 = 1 -> last (drop 44 wavBuffer) = Some x00).
Proof.
  intros Hok.
  destruct (convertPCMToWAV_layout _ _ _ _ _ _ Hok)
    as (fs & fmt & ds & Hfs & Hfmt & Hds & ->).
  assert (Hdrop : drop 44
            (String.list_byte_of_string "RIFF" ++ fs
             ++ String.list_byte_of_string "WAVE" ++ fmt
             ++ String.list_byte_of_string "data" ++ ds
             ++ Transcription.swapped pcm)
          = Transcription.swapped pcm).
  { rewrite !app_assoc. apply drop_app_length'.
    rewrite !length_app, Hfs, Hfmt, Hds. reflexivity. }
  rewrite Hdrop. split; [apply swapped_length|]. split.
  - apply swapped_lookup.
  - apply swapped_last_odd.
Qed.

Lemma big_endian_payload_witness :
  exists wavBuffer,
    Transcription.convertPCMToWAV [x12; x34; x56; x78; x9a] 16000 1 16
      Transcription.BE = Ok wavBuffer /\
    drop 44 wavBuffer = [x34; x12; x78; x56; x00].
Proof.
  eexists. split; [vm_compute; reflexivity|].
  match goal with
  | |- drop 44 ?w = _ =>
      destruct (big_endian_payload [x12; x34; x56; x78; x9a] 16000 1 16 w)
        as (Hlen & Hswap & Hlast); [vm_compute; reflexivity|]
  end.
  reflexivity.
Defined.

(** ** The audio checks of [transcribeAudio] *)

(** X5: [getMaxAudioValue] raises on a buffer of odd length (the read
    at the last even offset lacks its second byte) and so does
    [getAverageAudioValue]: ERR_BUFFER_OUT_OF_BOUNDS on a single byte,
    ERR_OUT_OF_RANGE on three bytes or more; on an even length
    [getMaxAudioValue] returns the largest absolute value of a sample:
    a number between 0 and 32768 that bounds every sample and, unless
    it is 0, is reached by one. *)
Theorem getMaxAudioValue_is_peak (audioBuffer : Buffer) :
  (blen audioBuffer mod 2 = 1 ->
   Transcription.getMaxAudioValue audioBuffer
   = Throw (if blen audioBuffer =? 1 then ERR_BUFFER_OUT_OF_BOUNDS
            else ERR_OUT_OF_RANGE) /\
   Transcription.getAverageAudioValue audioBuffer
   = Throw (if blen audioBuffer =? 1 then ERR_BUFFER_OUT_OF_BOUNDS
            else ERR_OUT_OF_RANGE)) /\
  (blen audioBuffer mod 2 = 0 ->
   exists maxValue,
     Transcription.getMaxAudioValue audioBuffer = Ok maxValue /\
     0 <= maxValue <= 32768 /\
     Forall (fun s => Z.abs s <= maxValue) (samples audioBuffer) /\
     (maxValue = 0 \/
      exists s, s ∈ samples audioBuffer /\ Z.abs s = maxValue)).
Proof.
  split.
  - intros Hodd.
    rewrite getMaxAudioValue_odd, getAverageAudioValue_odd by done.
    assert (Hb : boundsError (blen audioBuffer - 2)
                 = if blen audioBuffer =? 1 then ERR_BUFFER_OUT_OF_BOUNDS
                   else ERR_OUT_OF_RANGE).
    { pose proof (blen_nonneg audioBuffer).
      destruct (Z.eqb_spec (blen audioBuffer) 1) as [->|Hne]; [done|].
      apply boundsError_nonneg.
      assert (blen audioBuffer <> 0) by (intros E; by rewrite E in Hodd).
      lia. }
    by rewrite Hb.
  - intros Hev. rewrite getMaxAudioValue_even by done.
    eexists. split; [done|].
    destruct (fold_max_spec (samples audioBuffer) 0) as (Hle & Hall & Hex).
    split; [|by split].
    split; [done|].
    destruct Hex as [->|(s & Hs & <-)]; [lia|].
    pose proof (samples_range audioBuffer) as Hr.
    rewrite Forall_forall in Hr. specialize (Hr s Hs). lia.
Qed.

(** X6: [checkAudioVariation] walks the odd offsets, so on a buffer
    of even length its last read is out of range: it never returns
    [false] there.  As the two other metrics raise on an odd length,
    [hasVariation] is [true] whenever the metrics of [transcribeAudio]
    all return: audio is taken for silence by its peak alone. *)
Theorem variation_whenever_measured (audioBuffer : Buffer)
    (hasVariation : bool) (maxValue : Z) :
  Transcription.checkAudioVariation audioBuffer = Ok hasVariation ->
  Transcription.getMaxAudioValue audioBuffer = Ok maxValue ->
  hasVariation = true /\ 2 <= blen audioBuffer /\ blen audioBuffer mod 2 = 0.
Proof.
  intros Hvar Hmax.
  destruct (blen_parity audioBuffer) as [Hev|Hodd].
  2:{ by rewrite getMaxAudioValue_odd in Hmax. }
  split; [|split; [|done]].
  - destruct hasVariation; [done|]. by apply checkAudioVariation_even in Hvar.
  - destruct (Z.lt_ge_cases (blen audioBuffer) 2) as [Hlt|]; [|done].
    unfold Transcription.checkAudioVariation in Hvar.
    rewrite readInt16LE_past_end in Hvar by lia. done.
Qed.

Lemma variation_whenever_measured_witness :
  true = true /\ 2 <= blen [x00; x00; x40; x00] /\
  blen [x00; x00; x40; x00] mod 2 = 0.
Proof.
  apply (variation_whenever_measured [x00; x00; x40; x00] true 64);
    vm_compute; reflexivity.
Defined.

Lemma writeInt16LE_length (buf : Buffer) (v : float) (off : Z) (out : Buffer) :
  writeInt16LE buf v off = Ok out -> length out = length buf.
Proof.
  unfold writeInt16LE. destruct (_ || _); [done|].
  destruct (Z.ltb_spec off 0); [done|].
  destruct (Z.ltb_spec (blen buf) (off + 2)) as [|Hfit]; [done|].
  cbn [orb]. intros [= <-]. unfold blen in Hfit.
  rewrite !length_app, length_take. cbn [length]. rewrite length_drop. lia.
Qed.

Lemma foldR_invariant {A S} (P : S -> Prop) (body : S -> A -> result S)
    (l : list A) :
  (forall s a s', P s -> body s a = Ok s' -> P s') ->
  forall s s', P s -> foldR body s l = Ok s' -> P s'.
Proof.
  intros Hbody. induction l as [|a l IH]; intros s s' Hs; cbn [foldR].
  - by intros [= <-].
  - destruct (body s a) as [s1|] eqn:Hb; cbn [rbind]; [|done].
    apply IH. by eapply Hbody.
Qed.

(** The resampled audio is no longer than Node lets a buffer be. *)
Lemma resampleAudio_bounded (input : Buffer) (fromRate toRate : float)
    (out : Buffer) :
  blen input <= kMaxLength ->
  LiveKitService.resampleAudio input fromRate toRate = Ok out ->
  blen out <= kMaxLength.
Proof.
  intros Hin. unfold LiveKitService.resampleAudio.
  destruct (PrimFloat.eqb fromRate toRate); [by intros [= <-]|].
  destruct (LiveKitService.outputSamples input fromRate toRate) as [n|];
    [|done].
  unfold Buffer_alloc.
  destruct ((n * 2 <? 0) || (kMaxLength <? n * 2)) eqn:Hsize; [done|].
  apply orb_false_elim in Hsize as [Hneg Hbig].
  apply Z.ltb_ge in Hneg, Hbig. cbn [rbind]. intros Hfold.
  apply (foldR_invariant (fun b : Buffer => blen b <= kMaxLength)) in Hfold;
    [done| |].
  - intros s i s' Hs. unfold LiveKitService.resample_body.
    destruct (LiveKitService.output_sample input fromRate toRate i);
      cbn [rbind]; [|done].
    intros Hw. apply writeInt16LE_length in Hw. unfold blen in *. lia.
  - unfold blen. rewrite repeat_length. lia.
Qed.

Section Request.

Import Transcription.

(** When the model is called: the metrics returned, the peak is 100
    or more, and the file is the header of X1 before the resampled
    audio. *)
Lemma transcribeAudio_request_Some (audioBuffer : Buffer)
    (sampleRate : option float) (wavBuffer : Buffer) :
  blen audioBuffer <= kMaxLength ->
  transcribeAudio_request audioBuffer sampleRate = Ok (Some wavBuffer) ->
  exists maxValue payload,
    getMaxAudioValue audioBuffer = Ok maxValue /\ 100 <= maxValue /\
    LiveKitService.resampleAudio audioBuffer (originalSampleRate sampleRate)
      WHISPER_SAMPLE_RATE = Ok payload /\
    blen payload <= 4294967259 /\
    wavBuffer = whisper_header (blen payload) ++ payload.
Proof.
  intros Hmax. unfold transcribeAudio_request.
  destruct (checkAudioVariation audioBuffer) as [v|]; cbn [rbind]; [|done].
  destruct (getAverageAudioValue audioBuffer) as [a|]; cbn [rbind]; [|done].
  destruct (getMaxAudioValue audioBuffer) as [m|]; cbn [rbind]; [|done].
  destruct (Z.ltb_spec m 100) as [|Hm].
  { rewrite orb_true_r. done. }
  destruct (negb v); cbn [orb]; [done|].
  assert (Hres :
    (if negb (PrimFloat.eqb (originalSampleRate sampleRate) WHISPER_SAMPLE_RATE)
     then LiveKitService.resampleAudio audioBuffer
            (originalSampleRate sampleRate) WHISPER_SAMPLE_RATE
     else Ok audioBuffer)
    = LiveKitService.resampleAudio audioBuffer
        (originalSampleRate sampleRate) WHISPER_SAMPLE_RATE).
  { unfold LiveKitService.resampleAudio.
    by destruct (PrimFloat.eqb (originalSampleRate sampleRate)
                               WHISPER_SAMPLE_RATE). }
  rewrite Hres.
  destruct (LiveKitService.resampleAudio audioBuffer
              (originalSampleRate sampleRate) WHISPER_SAMPLE_RATE)
    as [payload|] eqn:Hpay; cbn [rbind]; [|done].
  pose proof (resampleAudio_bounded _ _ _ _ Hmax Hpay) as Hbound.
  change WHISPER_SAMPLE_RATE with 16000%float.
  rewrite convertPCMToWAV_whisper by done.
  destruct (Z.leb_spec (blen payload) 4294967259); cbn [rbind]; [|done].
  intros [= <-]. exists m, payload. done.
Qed.

End Request.

(** X7: when [transcribeAudio] reaches the transcription model, what
    it sends is a WAV file of 16 kHz mono 16-bit PCM whose samples are
    the turn's audio resampled from the configured rate (48000 when
    none is usable) to 16000 Hz and whose data-size field is the
    number of bytes of those samples; the turn's audio has an even
    number of bytes and a sample of absolute value 100 or more. *)
Theorem transcription_request_is_wav (audioBuffer : Buffer)
    (sampleRate : option float) (wavBuffer : Buffer) :
  blen audioBuffer <= kMaxLength ->
  Transcription.transcribeAudio_request audioBuffer sampleRate
    = Ok (Some wavBuffer) ->
  blen audioBuffer mod 2 = 0 /\
  (exists s, s ∈ samples audioBuffer /\ 100 <= Z.abs s) /\
  AudioConverter.detectAudioFormat wavBuffer = AudioConverter.wav /\
  le_value (take 2 (drop 22 wavBuffer)) = 1 /\
  le_value (take 4 (drop 24 wavBuffer)) = 16000 /\
  le_value (take 2 (drop 34 wavBuffer)) = 16 /\
  LiveKitService.resampleAudio audioBuffer
    (Transcription.originalSampleRate sampleRate) 16000
    = Ok (drop 44 wavBuffer) /\
  le_value (take 4 (drop 40 wavBuffer)) = blen (drop 44 wavBuffer).
Proof.
  intros Hmax Hreq.
  destruct (transcribeAudio_request_Some _ _ _ Hmax Hreq)
    as (m & payload & Hm & H100 & Hres & Hfit & ->).
  destruct (blen_parity audioBuffer) as [Hev|Hodd].
  2:{ by rewrite getMaxAudioValue_odd in Hm. }
  split; [done|]. split.
  { rewrite getMaxAudioValue_even in Hm by done. injection Hm as Hm.
    destruct (fold_max_spec (samples audioBuffer) 0) as (_ & _ & Hex).
    cbv zeta in Hex. rewrite Hm in Hex.
    destruct Hex as [->|(s & Hs & Heq)]; [lia|].
    exists s. split; [done|lia]. }
  pose proof (blen_nonneg payload).
  split.
  { unfold AudioConverter.detectAudioFormat.
    destruct (Z.ltb_spec (blen (Transcription.whisper_header (blen payload)
                                  ++ payload)) 4) as [Hlt|_]; [|reflexivity].
    unfold blen in Hlt. rewrite length_app, whisper_header_length in Hlt. lia. }
  split; [reflexivity|]. split; [reflexivity|]. split; [reflexivity|].
  change (drop 44 (Transcription.whisper_header (blen payload) ++ payload))
    with payload.
  split; [exact Hres|].
  change (take 4 (drop 40 (Transcription.whisper_header (blen payload) ++ payload)))
    with (uintLE 4 (blen payload)).
  apply le_value_uint32. lia.
Qed.

Lemma transcription_request_is_wav_witness :
  exists wavBuffer,
    Transcription.transcribeAudio_request
      [x00; x80; x00; x40; x00; x80; x00; x40; x00; x80; x00; x40] None
      = Ok (Some wavBuffer) /\
    LiveKitService.resampleAudio
      [x00; x80; x00; x40; x00; x80; x00; x40; x00; x80; x00; x40]
      48000 16000 = Ok (drop 44 wavBuffer) /\
    le_value (take 4 (drop 40 wavBuffer)) = blen (drop 44 wavBuffer).
Proof.
  eexists. split; [vm_compute; reflexivity|].
  match goal with
  | |- context [drop 44 ?w] =>
      destruct (transcription_request_is_wav
                  [x00; x80; x00; x40; x00; x80; x00; x40; x00; x80; x00; x40]
                  None w)
        as (_ & _ & _ & _ & _ & _ & Hres & Hsize)
  end.
  - vm_compute. congruence.
  - vm_compute. reflexivity.
  - split; [exact Hres|exact Hsize].
Defined.

(** X8: audio in which every sample is below 100 in absolute value is
    never sent to the transcription model: [transcribeAudio] returns
    [null] before resampling, by the silence exit or through its
    [catch], which then holds the exception of a read out of bounds. *)
Theorem quiet_audio_is_not_transcribed (audioBuffer : Buffer)
    (sampleRate : option float) :
  Forall (fun s => Z.abs s < 100) (samples audioBuffer) ->
  Transcription.transcribeAudio_request audioBuffer sampleRate = Ok None \/
  Transcription.transcribeAudio_request audioBuffer sampleRate
    = Throw (boundsError (blen audioBuffer - 2)).
Proof.
  intros Hquiet. unfold Transcription.transcribeAudio_request.
  destruct (Transcription.checkAudioVariation audioBuffer) as [v|e] eqn:Hv;
    cbn [rbind].
  2:{ right. f_equal. by apply checkAudioVariation_error in Hv. }
  destruct (Transcription.getAverageAudioValue audioBuffer) as [a|e] eqn:Ha;
    cbn [rbind].
  2:{ right. f_equal. by apply getAverageAudioValue_error in Ha. }
  destruct (blen_parity audioBuffer) as [Hev|Hodd].
  2:{ rewrite getMaxAudioValue_odd by done. by right. }
  rewrite getMaxAudioValue_even by done. cbn [rbind].
  destruct (fold_max_spec (samples audioBuffer) 0) as (_ & _ & Hex).
  cbv zeta in Hex.
  set (m := fold_left _ _ _) in *.
  assert (Hm : m < 100).
  { destruct Hex as [->|(s & Hs & <-)]; [lia|].
    rewrite Forall_forall in Hquiet. by apply Hquiet. }
  destruct (Z.ltb_spec m 100); [|lia].
  rewrite orb_true_r. by left.
Qed.

Lemma quiet_audio_is_not_transcribed_witness :
  Transcription.transcribeAudio_request
    [x00; x00; x63; x00; x9d; xff; x00; x00] (Some 48000%float) = Ok None \/
  Transcription.transcribeAudio_request
    [x00; x00; x63; x00; x9d; xff; x00; x00] (Some 48000%float)
    = Throw (boundsError
               (blen [x00; x00; x63; x00; x9d; xff; x00; x00] - 2)).
Proof.
  apply (quiet_audio_is_not_transcribed
           [x00; x00; x63; x00; x9d; xff; x00; x00]).
  repeat constructor.
Defined.

(** ** Format detection and the static loudness tests *)

Lemma byte_val_range (x : byte) : 0 <= byte_val x <= 255.
Proof. unfold byte_val. pose proof (Byte.to_N_bounded x). lia. Qed.

Lemma byte_val_255 (x : byte) : byte_val x = 255 -> x = xff.
Proof.
  intros H. unfold byte_val in H.
  assert (Hn : Byte.to_N x = 255%N) by lia.
  pose proof (Byte.of_to_N x) as Hof. rewrite Hn in Hof.
  by injection Hof.
Qed.

Lemma land_224 (z : Z) : 224 <= z <= 255 -> Z.land z 224 = 224.
Proof.
  intros Hz.
  assert (Hcases : exists k : nat, (k < 32)%nat /\ z = 224 + Z.of_nat k).
  { exists (Z.to_nat (z - 224)). lia. }
  destruct Hcases as (k & Hk & ->).
  do 32 (destruct k as [|k]; [reflexivity|]). lia.
Qed.

(** X9: raw PCM is taken for MP3 when its first sample is a small
    negative number with a low byte of 255 (-1, -257, ... down to
    -7937): the two bytes of such a sample, [0xFF] and [0xE0] or more,
    are read as an MPEG frame sync by [detectAudioFormat], so
    [AudioConverter.toPcm] would hand the samples to the MP3 decoder. *)
Theorem pcm_taken_for_mp3 (buffer : Buffer) (sample : Z) :
  4 <= blen buffer ->
  readInt16LE buffer 0 = Ok sample ->
  -7937 <= sample <= -1 -> sample mod 256 = 255 ->
  AudioConverter.detectAudioFormat buffer = AudioConverter.mp3 /\
  AudioManager.detectAudioFormat buffer = AudioConverter.mp3.
Proof.
  intros Hlen Hread Hrange Hlow.
  assert (AudioConverter.detectAudioFormat buffer = AudioConverter.mp3);
    [|by split].
  destruct buffer as [|lo [|hi rest]]; [done|done|].
  rewrite readInt16LE_head in Hread. injection Hread as Hs.
  pose proof (byte_val_range lo) as Blo.
  pose proof (byte_val_range hi) as Bhi.
  unfold to_int16 in Hs.
  destruct (Z.ltb_spec (byte_val lo + 256 * byte_val hi) 32768); [lia|].
  assert (Hlo : byte_val lo = 255).
  { rewrite <- Hs in Hlow.
    replace (byte_val lo + 256 * byte_val hi - 65536)
      with (byte_val lo + (byte_val hi - 256) * 256) in Hlow by lia.
    rewrite Z.mod_add in Hlow by lia.
    rewrite Z.mod_small in Hlow by lia. done. }
  assert (Hhi : 224 <= byte_val hi <= 255) by lia.
  apply byte_val_255 in Hlo as ->.
  unfold AudioConverter.detectAudioFormat.
  destruct (Z.ltb_spec (blen (xff :: hi :: rest)) 4); [lia|].
  destruct rest as [|b2 [|b3 rest]];
    [unfold blen in Hlen; cbn in Hlen; lia
    |unfold blen in Hlen; cbn in Hlen; lia|].
  cbn [take VoiceDetection.ascii_slice drop Nat.sub fmap list_fmap].
  rewrite bool_decide_eq_false_2.
  2:{ unfold VoiceDetection.RIFF. by intros [= Habs]. }
  cbn [lookup list_lookup].
  change (byte_val xff =? 255) with true. cbn [andb].
  by rewrite land_224 by done.
Qed.

Lemma pcm_taken_for_mp3_witness :
  AudioConverter.detectAudioFormat [xff; xff; x02; x00; xfe; xff]
    = AudioConverter.mp3 /\
  AudioManager.detectAudioFormat [xff; xff; x02; x00; xfe; xff]
    = AudioConverter.mp3.
Proof.
  apply (pcm_taken_for_mp3 [xff; xff; x02; x00; xfe; xff] (-1));
    [vm_compute; congruence | reflexivity | lia | reflexivity].
Defined.

Section Loudness.

Import VoiceDetectionStatic.

Lemma isLoudEnough_odd (b : Buffer) (threshold : option float) :
  2 <= blen b -> blen b mod 2 = 1 ->
  isLoudEnough b threshold = Throw ERR_OUT_OF_RANGE.
Proof.
  intros H2 Hodd. unfold isLoudEnough.
  destruct (Z.ltb_spec (blen b) 2); [lia|].
  change (abs_body b)
    with (reading (fun sum s => PrimFloat.add sum (Num.of_Z (Z.abs s))) b).
  rewrite foldR_reading_odd by done.
  by rewrite boundsError_nonneg by lia.
Qed.

Lemma isLoudEnough_even (b : Buffer) (threshold : option float) :
  blen b mod 2 = 0 -> exists loud, isLoudEnough b threshold = Ok loud.
Proof.
  intros Hev. unfold isLoudEnough.
  destruct (Z.ltb_spec (blen b) 2); [by eauto|].
  change (abs_body b)
    with (reading (fun sum s => PrimFloat.add sum (Num.of_Z (Z.abs s))) b).
  rewrite foldR_reading_even by done. cbn [rbind]. eauto.
Qed.

Lemma calculateRms_odd (b : Buffer) :
  2 <= blen b -> blen b mod 2 = 1 ->
  calculateRms b = Throw ERR_OUT_OF_RANGE.
Proof.
  intros H2 Hodd. unfold calculateRms.
  destruct (Z.ltb_spec (blen b) 2); [lia|].
  change (square_body b)
    with (reading (fun sum s =>
            PrimFloat.add sum (PrimFloat.mul (Num.of_Z s) (Num.of_Z s))) b).
  rewrite foldR_reading_odd by done.
  by rewrite boundsError_nonneg by lia.
Qed.

Lemma calculateRms_even (b : Buffer) :
  blen b mod 2 = 0 -> exists rms, calculateRms b = Ok rms.
Proof.
  intros Hev. unfold calculateRms.
  destruct (Z.ltb_spec (blen b) 2); [by eauto|].
  change (square_body b)
    with (reading (fun sum s =>
            PrimFloat.add sum (PrimFloat.mul (Num.of_Z s) (Num.of_Z s))) b).
  rewrite foldR_reading_even by done. cbn [rbind]. eauto.
Qed.

Lemma containsSpeech_eq (b : Buffer) (minAmplitude : option float) :
  containsSpeech b minAmplitude = isLoudEnough b minAmplitude.
Proof. by destruct minAmplitude. Qed.

End Loudness.

(** X10: the static loudness tests on short and ragged input.  A
    buffer of fewer than 2 bytes is never loud and has RMS 0, whatever
    the threshold; a buffer of 3 or more bytes of odd length makes
    [isLoudEnough], [containsSpeech], [calculateRms] and
    [AudioManager.isLoudEnough] raise ERR_OUT_OF_RANGE (the read at the
    last even offset lacks a byte); on an even length all of them
    return, [containsSpeech] with the verdict of [isLoudEnough]. *)
Theorem static_loudness_edges (pcmBuffer : Buffer) (threshold : option float)
    (settings : AudioManager.AudioSettings) :
  (blen pcmBuffer < 2 ->
   VoiceDetectionStatic.isLoudEnough pcmBuffer threshold = Ok false /\
   VoiceDetectionStatic.containsSpeech pcmBuffer threshold = Ok false /\
   VoiceDetectionStatic.calculateRms pcmBuffer = Ok 0%float /\
   AudioManager.isLoudEnough settings pcmBuffer threshold = Ok false) /\
  (2 <= blen pcmBuffer -> blen pcmBuffer mod 2 = 1 ->
   VoiceDetectionStatic.isLoudEnough pcmBuffer threshold
     = Throw ERR_OUT_OF_RANGE /\
   VoiceDetectionStatic.containsSpeech pcmBuffer threshold
     = Throw ERR_OUT_OF_RANGE /\
   VoiceDetectionStatic.calculateRms pcmBuffer = Throw ERR_OUT_OF_RANGE /\
   AudioManager.isLoudEnough settings pcmBuffer threshold
     = Throw ERR_OUT_OF_RANGE) /\
  (blen pcmBuffer mod 2 = 0 ->
   exists loud rms loud',
     VoiceDetectionStatic.isLoudEnough pcmBuffer threshold = Ok loud /\
     VoiceDetectionStatic.containsSpeech pcmBuffer threshold = Ok loud /\
     VoiceDetectionStatic.calculateRms pcmBuffer = Ok rms /\
     AudioManager.isLoudEnough settings pcmBuffer threshold = Ok loud').
Proof.
  pose proof (containsSpeech_eq pcmBuffer threshold) as Hc.
  set (speech := VoiceDetectionStatic.containsSpeech pcmBuffer threshold) in *.
  split; [|split].
  - intros Hshort.
    assert (Hb : (blen pcmBuffer <? 2) = true) by (apply Z.ltb_lt; lia).
    rewrite Hc.
    unfold AudioManager.isLoudEnough, VoiceDetectionStatic.isLoudEnough,
      VoiceDetectionStatic.calculateRms.
    by rewrite Hb.
  - intros H2 Hodd. rewrite Hc.
    unfold AudioManager.isLoudEnough.
    rewrite !isLoudEnough_odd, calculateRms_odd by done. done.
  - intros Hev. rewrite Hc.
    unfold AudioManager.isLoudEnough.
    destruct (isLoudEnough_even pcmBuffer threshold Hev) as [loud ->].
    destruct (calculateRms_even pcmBuffer Hev) as [rms ->].
    match goal with
    | |- context [VoiceDetectionStatic.isLoudEnough pcmBuffer (Some ?t)] =>
        destruct (isLoudEnough_even pcmBuffer (Some t) Hev) as [loud' ->]
    end.
    by exists loud, rms, loud'.
Qed.

(** ** The detector seen through its queries and its events *)

Section DetectorProtocol.

Import VoiceDetection.

Local Abbreviation c_isSpeaking := VoiceDetectionQueries.c_isSpeaking.

Variable config : VoiceDetectionConfig.

Lemma step_events_of (a : Action) (q : string) (vd : t) :
  filter (fun e => event_participant e = q) (step config a vd).2
  = (c_step config a q (view q vd)).2.
Proof.
  pose proof (run_events config [a] q vd) as H.
  cbn [run c_run fst snd] in H. by rewrite !app_nil_r in H.
Qed.

Lemma step_event_of (a : Action) (q : string) (vd : t) (e : Event) :
  event_participant e = q ->
  e ∈ (step config a vd).2 <-> e ∈ (c_step config a q (view q vd)).2.
Proof.
  intros He. rewrite <- step_events_of, list_elem_of_filter. tauto.
Qed.

Lemma isSpeaking_view (q : string) (vd : t) :
  VoiceDetectionQueries.isSpeaking q vd = c_isSpeaking (view q vd).
Proof. reflexivity. Qed.

Lemma turn_of_valid st now b d :
  turn_of config st now = Some (b, d) ->
  b = concat (buffers st) /\ isValidAudioBuffer b = true /\
  d = now - speechStartTime st /\ minSpeechDuration config <= d.
Proof.
  unfold turn_of.
  destruct (Z.ltb_spec (now - speechStartTime st) (minSpeechDuration config));
    [done|].
  destruct (_ || _); [done|].
  destruct (isValidAudioBuffer (concat (buffers st))) eqn:Hv; [|done].
  cbn [negb]. by intros [= <- <-].
Qed.

Lemma isValidAudioBuffer_length (b : Buffer) :
  isValidAudioBuffer b = true -> 1024 <= blen b.
Proof.
  unfold isValidAudioBuffer. by destruct (Z.ltb_spec (blen b) 1024).
Qed.

Local Abbreviation event_shape := (VoiceDetectionQueries.event_shape config).

Lemma c_processSpeechTurn_shape p st now c :
  event_shape (c_processSpeechTurn config p st now c).2.
Proof.
  unfold c_processSpeechTurn.
  destruct (turn_of config st now) as [[b d]|] eqn:Hturn; [|by left].
  apply turn_of_valid in Hturn as (_ & Hv & _ & Hd).
  right. right. exists p, b, d. split; [done|].
  split; [done|]. split; [by apply isValidAudioBuffer_length|done].
Qed.

Lemma c_step_shape a q c : event_shape (c_step config a q c).2.
Proof.
  destruct a as [p b now|p now|[p|]]; cbn [c_step].
  - destruct (decide (p = q)) as [->|_]; [|by left].
    unfold c_processAudioFrame.
    destruct (calculateRMS b); [|by left].
    unfold c_dispatch. destruct (c_state _) as [st|]; [|by left].
    destruct (branch config st now); cbn [snd]; try by left.
    + unfold c_handleSpeechStart. destruct (c_flagged _); [by left|].
      right. left. by exists q.
    + apply c_processSpeechTurn_shape.
  - destruct (decide (p = q)) as [->|_]; [|by left].
    unfold c_fireTimer. destruct (c_timer c) as [tm|]; [|by left].
    destruct (_ && _); [|by left].
    destruct (c_state c) as [st|]; [|by left]. cbn [snd].
    apply c_processSpeechTurn_shape.
  - case_bool_decide; [by left|]. destruct (decide (p = q)); by left.
  - by left.
Qed.


(** How a step moves [isSpeaking], on the cell. *)
Lemma c_processSpeechTurn_idle p st now c :
  c_isSpeaking (c_processSpeechTurn config p st now c).1 = false.
Proof.
  unfold c_processSpeechTurn, c_isSpeaking.
  destruct (turn_of config st now) as [[b d]|]; cbn [fst c_upd c_state];
    by destruct (c_state c).
Qed.

Lemma c_processSpeechTurn_not_started p q st now c :
  speechStarted q ∉ (c_processSpeechTurn config p st now c).2.
Proof.
  unfold c_processSpeechTurn.
  destruct (turn_of config st now) as [[b d]|]; cbn [snd];
    [|by intros ?%elem_of_nil].
  intros [?|[?|?%elem_of_nil]%elem_of_cons]%elem_of_cons; done.
Qed.

Lemma c_step_speaking a q c :
  quiescent c ->
  (speechStarted q ∈ (c_step config a q c).2 <->
   c_isSpeaking c = false /\ c_isSpeaking (c_step config a q c).1 = true) /\
  (forall b d, speechTurn q b d ∈ (c_step config a q c).2 ->
     c_isSpeaking c = true \/
     (exists tm, c_timer c = Some tm /\ cleared tm = false)) /\
  (forall b d, speechTurn q b d ∈ (c_step config a q c).2 ->
     c_isSpeaking (c_step config a q c).1 = false).
Proof.
  intros [Hfl Hlive].
  assert (Hnone : forall P : Prop, speechStarted q ∈ @nil Event <-> P /\ false = true).
  { intros P. split; [by intros ?%elem_of_nil|by intros [_ ?]]. }
  assert (Hsame : speechStarted q ∈ @nil Event <->
                  c_isSpeaking c = false /\ c_isSpeaking c = true).
  { split; [by intros ?%elem_of_nil|]. intros [-> ?]. done. }
  assert (Hno : forall b d, speechTurn q b d ∈ @nil Event -> False).
  { by intros b d ?%elem_of_nil. }
  destruct a as [p b now|p now|[p|]]; cbn [c_step].
  - destruct (decide (p = q)) as [->|_];
      [|split; [done|split; intros ?? []%Hno]].
    unfold c_processAudioFrame.
    destruct c as [s0 tm0 fl0]. unfold c_flagged in Hfl. cbn in Hfl, Hlive.
    destruct (calculateRMS b) as [rms|e].
    2:{ cbn [fst snd]. split; [|split; intros ?? []%Hno].
        destruct s0 as [st0|]; cbn; [apply Hsame|].
        split; [by intros ?%elem_of_nil|by intros [_ ?]]. }
    set (c0 := c_upd _ _).
    assert (Hc0 : exists st1 fl1,
              c0 = mkCell (Some st1) tm0 fl1 /\
              c_flagged (mkCell (Some st1) tm0 fl1) = false /\
              isSpeaking st1 = c_isSpeaking (mkCell s0 tm0 fl0)).
    { unfold c0. destruct s0 as [st0|]; cbn.
      - eexists _, fl0. split; [done|]. split; [exact Hfl|done].
      - eexists _, (Some false). split; [done|]. split; done. }
    destruct Hc0 as (st1 & fl1 & Hc0 & Hfl1 & Hsp1). rewrite Hc0. clear c0 Hc0.
    unfold c_dispatch. cbn [c_state].
    pose proof (branch_cases config st1 now) as Hbr.
    destruct (branch config st1 now).
    + unfold c_handleSpeechStart. rewrite Hfl1. cbn [fst snd].
      split; [|split; intros b' d' Hin].
      * rewrite <- Hsp1, Hbr. split; [done|]. intros _. by left.
      * apply list_elem_of_singleton in Hin. done.
      * apply list_elem_of_singleton in Hin. done.
    + cbn [fst snd]. split; [|split; intros ?? []%Hno].
      rewrite <- Hsp1, Hbr. split; [by intros ?%elem_of_nil|by intros [? _]].
    + destruct Hbr as [Hbr _]. split; [|split].
      * rewrite c_processSpeechTurn_idle, <- Hsp1, Hbr.
        split; [|by intros [? _]].
        by intros Hin%c_processSpeechTurn_not_started.
      * intros _ _ _. left. by rewrite <- Hsp1.
      * intros _ _ _. apply c_processSpeechTurn_idle.
    + cbn [fst snd]. split; [|split; intros ?? []%Hno].
      unfold c_isSpeaking at 2. cbn [c_state]. rewrite Hsp1. apply Hsame.
  - destruct (decide (p = q)) as [->|_];
      [|split; [done|split; intros ?? []%Hno]].
    unfold c_fireTimer.
    destruct (c_timer c) as [tm|] eqn:Htm;
      [|split; [done|split; intros ?? []%Hno]].
    destruct (negb (cleared tm) && (due tm <=? now)) eqn:Hdue;
      [|split; [done|split; intros ?? []%Hno]].
    destruct (c_state c) as [st|] eqn:Hst;
      [|split; [done|split; intros ?? []%Hno]].
    cbn [fst snd].
    assert (Hidle : c_isSpeaking
              (c_set_timer None (c_set_flag (Some false)
                 (c_processSpeechTurn config q st now
                    (c_set_flag (Some true) c)).1)) = false).
    { exact (c_processSpeechTurn_idle q st now (c_set_flag (Some true) c)). }
    split; [|split].
    + rewrite Hidle. split; [|by intros [_ ?]].
      by intros Hin%c_processSpeechTurn_not_started.
    + intros _ _ _. right. exists tm. split; [done|].
      apply andb_prop in Hdue as [Hcl _]. by destruct (cleared tm).
    + intros _ _ _. exact Hidle.
  - case_bool_decide.
    { split; [|split; intros ?? []%Hno]. cbn. apply Hnone. }
    destruct (decide (p = q));
      (split; [|split; intros ?? []%Hno]); [cbn; apply Hnone|apply Hsame].
  - split; [|split; intros ?? []%Hno]. cbn. apply Hnone.
Qed.


Lemma manageBufferSize_loop_suffix (bufs : list Buffer) (total : Z) :
  (manageBufferSize_loop bufs total).1 `suffix_of` bufs.
Proof.
  revert total. induction bufs as [|b bufs IH]; intros total; [done|].
  destruct bufs as [|b' bufs']; [done|].
  rewrite manageBufferSize_loop_step.
  destruct (maxBufferSize <? total); [|done].
  by apply suffix_cons_r.
Qed.

Local Abbreviation buffers_end := VoiceDetectionQueries.buffers_end.
Local Abbreviation buffered_frames := VoiceDetectionQueries.buffered_frames.

Local Abbreviation carries := VoiceDetectionQueries.carries.

Lemma c_processSpeechTurn_carries p st now c e q b :
  e ∈ (c_processSpeechTurn config p st now c).2 -> carries e q b ->
  b = concat (buffers st).
Proof.
  unfold c_processSpeechTurn.
  destruct (turn_of config st now) as [[b' d']|] eqn:Hturn; cbn [snd];
    [|by intros ?%elem_of_nil].
  apply turn_of_valid in Hturn as (-> & _).
  intros [->|[->|?%elem_of_nil]%elem_of_cons]%elem_of_cons; [| |done].
  - intros [[= _ <-]|[d [=]]]. done.
  - intros [[=]|[d [= _ <- _]]]. done.
Qed.

Lemma c_processSpeechTurn_buffers_end p st now c hist :
  buffers_end hist (c_processSpeechTurn config p st now c).1.
Proof.
  intros st'. unfold c_processSpeechTurn.
  destruct (turn_of config st now) as [[b d]|]; cbn [fst c_upd c_state];
    destruct (c_state c); cbn; intros [= <-]; apply suffix_nil.
Qed.

Lemma c_step_buffers_end a q c hist :
  buffers_end hist c ->
  buffers_end (hist ++ buffered_frames q [a]) (c_step config a q c).1 /\
  forall e b, e ∈ (c_step config a q c).2 -> carries e q b ->
    exists fs, fs `suffix_of` (hist ++ buffered_frames q [a]) /\
               b = concat fs.
Proof.
  intros Hend.
  destruct a as [p b now|p now|[p|]]; cbn [c_step].
  - unfold buffered_frames. cbn [flat_map]. rewrite app_nil_r.
    destruct (decide (p = q)) as [->|_].
    2:{ rewrite app_nil_r. split; [done|]. by intros e b' ?%elem_of_nil. }
    unfold c_processAudioFrame.
    destruct c as [s0 tm0 fl0]. cbn [c_state c_timer].
    destruct (calculateRMS b) as [rms|err].
    2:{ split; [|by intros e b' ?%elem_of_nil]. rewrite app_nil_r.
        destruct s0 as [st0|]; [done|].
        intros st [= <-]. apply suffix_nil. }
    set (c0 := c_upd _ _).
    assert (Hc0 : exists st1 fl1,
              c0 = mkCell (Some st1) tm0 fl1 /\
              buffers st1 `suffix_of` (hist ++ [b])).
    { unfold c0. destruct s0 as [st0|]; cbn.
      - eexists _, fl0. split; [done|]. cbn.
        etrans; [apply manageBufferSize_loop_suffix|].
        apply suffix_app. by apply Hend.
      - eexists _, (Some false). split; [done|]. cbn.
        apply suffix_app_r. done. }
    destruct Hc0 as (st1 & fl1 & Hc0 & Hsuf). rewrite Hc0. clear c0 Hc0.
    unfold c_dispatch. cbn [c_state].
    destruct (branch config st1 now).
    + unfold c_handleSpeechStart. destruct (c_flagged _); cbn [fst snd].
      * split; [by intros st [= <-]|by intros e b' ?%elem_of_nil].
      * split; [intros st [= <-]; apply suffix_nil|].
        intros e b' ->%list_elem_of_singleton [[=]|[d [=]]].
    + cbn [fst snd]. split; [|by intros e b' ?%elem_of_nil].
      unfold c_setupDebouncedProcessing. cbn.
      destruct (c_flagged _); cbn; intros st [= <-]; [apply suffix_nil|done].
    + split; [apply c_processSpeechTurn_buffers_end|].
      intros e b' He Hc. exists (buffers st1). split; [done|].
      by eapply c_processSpeechTurn_carries.
    + cbn [fst snd]. split; [by intros st [= <-]|by intros e b' ?%elem_of_nil].
  - unfold buffered_frames. cbn [flat_map]. rewrite app_nil_r.
    destruct (decide (p = q)) as [->|_].
    2:{ split; [done|]. by intros e b' ?%elem_of_nil. }
    unfold c_fireTimer.
    destruct (c_timer c) as [tm|];
      [|split; [done|by intros e b' ?%elem_of_nil]].
    destruct (_ && _); [|split; [done|by intros e b' ?%elem_of_nil]].
    destruct (c_state c) as [st|] eqn:Hst;
      [|split; [done|by intros e b' ?%elem_of_nil]].
    cbn [fst snd]. split.
    + exact (c_processSpeechTurn_buffers_end q st now
               (c_set_flag (Some true) c) hist).
    + intros e b' He Hc. exists (buffers st). split; [by apply Hend|].
      by eapply c_processSpeechTurn_carries.
  - unfold buffered_frames. cbn [flat_map]. rewrite app_nil_r.
    case_bool_decide; [split; [done|by intros e b' ?%elem_of_nil]|].
    destruct (decide (p = q)) as [Heq|Hne];
      (split; [done|by intros e b' ?%elem_of_nil]).
  - unfold buffered_frames. cbn [flat_map]. rewrite app_nil_r.
    split; [done|by intros e b' ?%elem_of_nil].
Qed.

Lemma buffered_frames_app q acts1 acts2 :
  buffered_frames q (acts1 ++ acts2)
  = buffered_frames q acts1 ++ buffered_frames q acts2.
Proof. unfold buffered_frames. apply flat_map_app. Qed.

Lemma c_run_buffers_end acts q : forall c hist,
  buffers_end hist c ->
  forall e b, e ∈ (c_run config acts q c).2 -> carries e q b ->
    exists before fs after,
      hist ++ buffered_frames q acts = before ++ fs ++ after /\
      b = concat fs.
Proof.
  induction acts as [|a acts IH]; intros c hist Hend e b;
    cbn [c_run fst snd]; [by intros ?%elem_of_nil|].
  destruct (c_step_buffers_end a q c hist Hend) as [Hend' Hev].
  change (a :: acts) with ([a] ++ acts).
  rewrite buffered_frames_app, app_assoc.
  intros [He|He]%elem_of_app Hc.
  - destruct (Hev e b He Hc) as (fs & [before Hsuf] & ->).
    exists before, fs, (buffered_frames q acts). split; [|done].
    rewrite Hsuf. by rewrite <- !app_assoc.
  - by eapply IH.
Qed.

End DetectorProtocol.

(** X11: between two calls no turn is being processed:
    [isProcessing(p)] is [false] for every participant in every state
    the detector reaches, the timer callback having lowered the flag
    in its [finally] before it returned.  So the exits of
    [handleSpeechStart] and [setupDebouncedProcessing] for a
    participant "already processing" are never taken: the first
    always emits [speechStarted], the second always arms a timer. *)
Theorem isProcessing_false_between_calls
    (config : VoiceDetection.VoiceDetectionConfig)
    (acts : list VoiceDetection.Action) (p : string) (now : Z) :
  let vd := (VoiceDetection.run config acts VoiceDetection.empty).1 in
  VoiceDetectionQueries.isProcessing p vd = false /\
  (VoiceDetection.handleSpeechStart p now vd).2
    = [VoiceDetection.speechStarted p] /\
  VoiceDetection.debounceTimers
    (VoiceDetection.setupDebouncedProcessing config p now vd) !! p
    = Some (VoiceDetection.mkTimer
              (now + VoiceDetection.debounceThreshold config) false).
Proof.
  intros vd.
  destruct (reachable_quiescent config acts p) as [Hfl _]. fold vd in Hfl.
  assert (Hflag : VoiceDetection.flag p vd = false) by exact Hfl.
  split; [exact Hfl|]. split.
  - unfold VoiceDetection.handleSpeechStart. by rewrite Hflag.
  - unfold VoiceDetection.setupDebouncedProcessing.
    change (VoiceDetection.flag p (VoiceDetection.set_timers _ vd))
      with (VoiceDetection.flag p vd).
    rewrite Hflag. cbn. by rewrite lookup_insert_eq.
Qed.

(** X12: the query [isSpeaking] and the events agree.  In a state the
    detector reaches, a call emits [speechStarted] for [q] exactly
    when it turns [isSpeaking(q)] from [false] to [true]; and when it
    emits a [speechTurn] for [q], the participant was speaking or
    waiting on a live debounce timer, and [isSpeaking(q)] is [false]
    afterwards. *)
Theorem speechStarted_iff_isSpeaking_rises
    (config : VoiceDetection.VoiceDetectionConfig)
    (acts : list VoiceDetection.Action) (a : VoiceDetection.Action)
    (q : string) :
  let vd := (VoiceDetection.run config acts VoiceDetection.empty).1 in
  let r := VoiceDetection.step config a vd in
  (VoiceDetection.speechStarted q ∈ r.2 <->
   VoiceDetectionQueries.isSpeaking q vd = false /\
   VoiceDetectionQueries.isSpeaking q r.1 = true) /\
  (forall b d, VoiceDetection.speechTurn q b d ∈ r.2 ->
     VoiceDetectionQueries.isSpeaking q r.1 = false /\
     (VoiceDetectionQueries.isSpeaking q vd = true \/
      exists tm, VoiceDetection.debounceTimers vd !! q = Some tm /\
                 VoiceDetection.cleared tm = false)).
Proof.
  intros vd r.
  pose proof (reachable_quiescent config acts q) as Hq. fold vd in Hq.
  destruct (c_step_speaking config a q _ Hq) as (Hstart & Hwas & Hidle).
  unfold r. rewrite !isSpeaking_view, step_view.
  split.
  - rewrite (step_event_of config a q vd) by done. exact Hstart.
  - intros b d Hin.
    apply (step_event_of config a q vd) in Hin; [|done].
    split; [by eapply Hidle|]. by eapply Hwas.
Qed.

(** X13: one call of the detector ([processAudioFrame], a debounce
    timer firing, [cleanup]) emits nothing, or one [speechStarted], or
    the pair [speechEnded], [speechTurn] for one participant with the
    same audio; that audio passed [isValidAudioBuffer], so it has at
    least 1024 bytes, and the duration is at least
    [minSpeechDuration]. *)
Theorem one_call_one_event_group
    (config : VoiceDetection.VoiceDetectionConfig)
    (a : VoiceDetection.Action) (vd : VoiceDetection.t) :
  VoiceDetectionQueries.event_shape config (VoiceDetection.step config a vd).2.
Proof.
  rewrite step_events.
  destruct a as [p b now|p now|p]; [apply c_step_shape..|by left].
Qed.

(** X14: the audio of a turn is made of the participant's own frames:
    the buffer carried by a [speechEnded] or a [speechTurn] of [q] is
    the concatenation of consecutive frames among those delivered for
    [q] and buffered, in the order of their arrival. *)
Theorem turn_audio_is_own_frames
    (config : VoiceDetection.VoiceDetectionConfig)
    (acts : list VoiceDetection.Action) (q : string)
    (e : VoiceDetection.Event) (b : Buffer) :
  e ∈ (VoiceDetection.run config acts VoiceDetection.empty).2 ->
  VoiceDetectionQueries.carries e q b ->
  exists before fs after,
    VoiceDetectionQueries.buffered_frames q acts = before ++ fs ++ after /\
    b = concat fs.
Proof.
  intros He Hc.
  assert (Hq : VoiceDetection.event_participant e = q).
  { by destruct Hc as [->|[d ->]]. }
  assert (Hin : e ∈ filter (fun e => VoiceDetection.event_participant e = q)
                  (VoiceDetection.run config acts VoiceDetection.empty).2).
  { by apply list_elem_of_filter. }
  rewrite run_events, view_empty in Hin.
  apply (c_run_buffers_end config acts q VoiceDetection.c_empty []
           ltac:(by intros st) e b Hin Hc).
Qed.

Lemma turn_audio_is_own_frames_witness :
  exists before fs after,
    VoiceDetectionQueries.buffered_frames "alice"
      VoiceDetectionQueries.short_turn = before ++ fs ++ after /\
    VoiceDetectionQueries.silent_frame = concat fs.
Proof.
  apply (turn_audio_is_own_frames VoiceDetectionQueries.eager_config
           VoiceDetectionQueries.short_turn "alice"
           (VoiceDetection.speechTurn "alice"
              VoiceDetectionQueries.silent_frame 110)).
  - replace (VoiceDetection.run VoiceDetectionQueries.eager_config
               VoiceDetectionQueries.short_turn VoiceDetection.empty).2
      with [VoiceDetection.speechStarted "alice";
            VoiceDetection.speechStarted "bob";
            VoiceDetection.speechEnded "alice"
              VoiceDetectionQueries.silent_frame;
            VoiceDetection.speechTurn "alice"
              VoiceDetectionQueries.silent_frame 110]
      by (vm_compute; reflexivity).
    do 3 apply list_elem_of_further. apply list_elem_of_here.
  - right. by exists 110.
Defined.

(** ** Turns under way, in the detector *)

Section Activity.

Import VoiceDetection.

Variable config : VoiceDetectionConfig.

Local Abbreviation c_isSpeaking := VoiceDetectionQueries.c_isSpeaking.
Local Abbreviation active := AudioMonitorControl.active.
Local Abbreviation settled_cell := AudioMonitorControl.settled_cell.

Lemma active_speaking c : c_isSpeaking c = true -> active c.
Proof. by left. Qed.

Lemma not_active c :
  c_isSpeaking c = false ->
  (forall tm, c_timer c = Some tm -> cleared tm = true) ->
  ~ active c.
Proof.
  intros Hs Ht [Hsp|(tm & Htm & Hcl)]; [congruence|].
  specialize (Ht tm Htm). congruence.
Qed.

(** One step on the cell of [q]: the cell stays settled; a turn under
    way after the step was under way before it or has just been
    announced by [speechStarted]; a [speechTurn] closes a turn that
    was under way; a [speechStarted] opens one. *)
Lemma c_step_activity a q c :
  settled_cell c ->
  settled_cell (c_step config a q c).1 /\
  (active (c_step config a q c).1 ->
   active c \/ speechStarted q ∈ (c_step config a q c).2) /\
  (forall b d, speechTurn q b d ∈ (c_step config a q c).2 ->
     active c /\ ~ active (c_step config a q c).1) /\
  (speechStarted q ∈ (c_step config a q c).2 ->
   c_isSpeaking (c_step config a q c).1 = true).
Proof.
  intros [Hq Hlive].
  split.
  { split; [by apply c_step_quiescent|].
    pose proof (c_step_speaking config a q c Hq) as (Hstart & _ & _).
    destruct a as [p b now|p now|[p|]]; cbn [c_step] in *.
    - destruct (decide (p = q)) as [->|_]; [|done].
      unfold c_processAudioFrame in *.
      destruct c as [s0 tm0 fl0]. cbn [c_state c_timer] in *.
      destruct (calculateRMS b) as [rms|e].
      2:{ cbn [fst]. destruct s0 as [st0|]; [done|].
          cbn. intros tm -> Hcl. done. }
      set (c0 := c_upd _ _) in *.
      assert (Hc0 : exists st1 fl1,
                c0 = mkCell (Some st1) tm0 fl1 /\
                isSpeaking st1 = c_isSpeaking (mkCell s0 tm0 fl0)).
      { unfold c0. destruct s0 as [st0|]; cbn; eauto. }
      destruct Hc0 as (st1 & fl1 & Hc0 & Hsp1). rewrite Hc0 in *.
      clear c0 Hc0. unfold c_dispatch in *. cbn [c_state] in *.
      pose proof (branch_cases config st1 now) as Hbr.
      destruct (branch config st1 now).
      + unfold c_handleSpeechStart. destruct (c_flagged _); cbn.
        * intros tm -> Hcl. rewrite Hsp1. by eapply Hlive.
        * done.
      + unfold c_setupDebouncedProcessing. cbn.
        destruct (c_flagged _); cbn; done.
      + intros tm _ _. apply c_processSpeechTurn_idle.
      + cbn. intros tm -> Hcl. rewrite Hsp1. by eapply Hlive.
    - destruct (decide (p = q)) as [->|_]; [|done].
      unfold c_fireTimer.
      destruct (c_timer c) as [tm|] eqn:Htm;
        [|by cbn [fst]; rewrite Htm].
      destruct (_ && _); [|by cbn [fst]; rewrite Htm].
      destruct (c_state c) as [st|]; [|by cbn [fst]; rewrite Htm].
      cbn [fst]. done.
    - case_bool_decide; [done|]. destruct (decide (p = q)); done.
    - done. }
  pose proof (c_step_speaking config a q c Hq) as (Hstart & Hwas & Hidle).
  split; [|split].
  - destruct a as [p b now|p now|[p|]]; cbn [c_step] in *.
    + destruct (decide (p = q)) as [->|_]; [|by left].
      unfold c_processAudioFrame in *.
      destruct c as [s0 tm0 fl0]. cbn [c_state c_timer] in *.
      destruct (calculateRMS b) as [rms|e].
      2:{ cbn [fst snd]. destruct s0 as [st0|]; [by left|].
          intros [Hs|(tm & Htm & Hcl)]; [done|]. left. right. eauto. }
      set (c0 := c_upd _ _) in *.
      assert (Hc0 : exists st1 fl1,
                c0 = mkCell (Some st1) tm0 fl1 /\
                isSpeaking st1 = c_isSpeaking (mkCell s0 tm0 fl0)).
      { unfold c0. destruct s0 as [st0|]; cbn; eauto. }
      destruct Hc0 as (st1 & fl1 & Hc0 & Hsp1). rewrite Hc0 in *.
      clear c0 Hc0. unfold c_dispatch in *. cbn [c_state] in *.
      pose proof (branch_cases config st1 now) as Hbr.
      destruct (branch config st1 now).
      * unfold c_handleSpeechStart in *. destruct (c_flagged _); cbn.
        -- intros [Hs|(tm & Htm & Hcl)]; left; [left|right; eauto].
           by rewrite <- Hsp1.
        -- intros _. right. apply list_elem_of_here.
      * intros _. left. left. by rewrite <- Hsp1.
      * intros [Hs|(tm & Htm & Hcl)].
        -- by rewrite c_processSpeechTurn_idle in Hs.
        -- left. left. rewrite <- Hsp1. apply Hbr.
      * cbn. intros [Hs|(tm & Htm & Hcl)]; left; [left|right; eauto].
        by rewrite <- Hsp1.
    + destruct (decide (p = q)) as [->|_]; [|by left].
      unfold c_fireTimer.
      destruct (c_timer c) as [tm|] eqn:Htm; [|by left].
      destruct (_ && _); [|by left].
      destruct (c_state c) as [st|]; [|by left].
      cbn [fst snd]. intros [Hs|(tm' & Htm' & _)]; [|done].
      exfalso.
      pose proof (c_processSpeechTurn_idle config q st now
                    (c_set_flag (Some true) c)) as Hidle'.
      unfold VoiceDetectionQueries.c_isSpeaking in Hs, Hidle'.
      cbn [c_set_timer c_set_flag c_state] in Hs. congruence.
    + case_bool_decide.
      { intros [Hs|(tm & Htm & _)]; done. }
      destruct (decide (p = q)); [|by left].
      intros [Hs|(tm & Htm & _)]; done.
    + intros [Hs|(tm & Htm & _)]; done.
  - intros b d Hin. specialize (Hwas b d Hin). specialize (Hidle b d Hin).
    split; [exact Hwas|].
    apply not_active; [exact Hidle|].
    destruct a as [p b' now|p now|[p|]]; cbn [c_step] in *.
    + destruct (decide (p = q)) as [->|_]; [|by apply elem_of_nil in Hin].
      unfold c_processAudioFrame in *.
      destruct c as [s0 tm0 fl0]. cbn [c_state c_timer] in *.
      destruct (calculateRMS b') as [rms|e]; [|by apply elem_of_nil in Hin].
      set (c0 := c_upd _ _) in *.
      assert (Hc0 : exists st1 fl1,
                c0 = mkCell (Some st1) tm0 fl1 /\
                isSpeaking st1 = c_isSpeaking (mkCell s0 tm0 fl0)).
      { unfold c0. destruct s0 as [st0|]; cbn; eauto. }
      destruct Hc0 as (st1 & fl1 & Hc0 & Hsp1). rewrite Hc0 in *.
      clear c0 Hc0. unfold c_dispatch in *. cbn [c_state] in *.
      pose proof (branch_cases config st1 now) as Hbr.
      destruct (branch config st1 now).
      * unfold c_handleSpeechStart in Hin. destruct (c_flagged _);
          cbn in Hin; [by apply elem_of_nil in Hin|].
        by apply list_elem_of_singleton in Hin.
      * by apply elem_of_nil in Hin.
      * destruct Hbr as [Hbr _].
        destruct (c_processSpeechTurn_state config q st1 now
                    (mkCell (Some st1) tm0 fl1)) as (_ & -> & _).
        cbn. intros tm -> . destruct (cleared tm) eqn:Hcl; [done|].
        specialize (Hlive tm eq_refl Hcl). congruence.
      * by apply elem_of_nil in Hin.
    + destruct (decide (p = q)) as [->|_]; [|by apply elem_of_nil in Hin].
      unfold c_fireTimer in *.
      destruct (c_timer c) as [tm|] eqn:Htm; [|by apply elem_of_nil in Hin].
      destruct (_ && _); [|by apply elem_of_nil in Hin].
      destruct (c_state c) as [st|]; [|by apply elem_of_nil in Hin].
      cbn [fst]. done.
    + case_bool_decide; [by apply elem_of_nil in Hin|].
      destruct (decide (p = q)); by apply elem_of_nil in Hin.
    + by apply elem_of_nil in Hin.
  - intros Hin. by apply Hstart in Hin as [_ ?].
Qed.

End Activity.

(** ** The monitor and its detector between two calls *)

Section MonitorCoherence.

Variable config : AudioMonitor.AudioMonitorConfig.

Local Abbreviation dc := (AudioMonitor.detectionConfig config).
Local Abbreviation coherent := AudioMonitorControl.coherent.
Local Abbreviation active := AudioMonitorControl.active.
Local Abbreviation settled_cell := AudioMonitorControl.settled_cell.
Local Abbreviation turn_trace := AudioMonitorControl.turn_trace.
Local Abbreviation m_isSpeaking := AudioMonitorControl.isSpeaking.

Lemma active_empty : ~ active VoiceDetection.c_empty.
Proof. intros [?|(tm & ? & _)]; done. Qed.

Lemma settled_cell_empty : settled_cell VoiceDetection.c_empty.
Proof. repeat split; done. Qed.

Lemma coherent_empty : coherent AudioMonitor.empty.
Proof.
  split; [|split; [|split]].
  - intros q. rewrite view_empty. apply settled_cell_empty.
  - intros q. cbn [AudioMonitor.empty AudioMonitor.voiceDetection].
    rewrite view_empty. by intros ?%active_empty.
  - intros q _. apply view_empty.
  - by left.
Qed.

(** The detector's [cleanup], on a cell. *)
Lemma c_cleanup_cell p q c :
  settled_cell c ->
  settled_cell (VoiceDetection.c_step dc (VoiceDetection.Cleanup p) q c).1 /\
  (active (VoiceDetection.c_step dc (VoiceDetection.Cleanup p) q c).1 ->
   active c /\ p <> None /\ p <> Some q) /\
  (c = VoiceDetection.c_empty ->
   (VoiceDetection.c_step dc (VoiceDetection.Cleanup p) q c).1
   = VoiceDetection.c_empty).
Proof.
  intros Hc. destruct p as [p|]; cbn [VoiceDetection.c_step].
  - case_bool_decide.
    { split; [apply settled_cell_empty|].
      split; [by intros ?%active_empty|done]. }
    destruct (decide (p = q)) as [->|Hne]; cbn [fst].
    + split; [apply settled_cell_empty|].
      split; [by intros ?%active_empty|done].
    + split; [done|]. split; [|done]. intros Ha.
      split; [done|]. split; [done|congruence].
  - split; [apply settled_cell_empty|].
    split; [by intros ?%active_empty|done].
Qed.

(** The listeners emit monitor events only. *)
Lemma deliver_detector es now am e :
  AudioMonitor.detector e ∈ (AudioMonitor.deliver es now am).2 -> e ∈ es.
Proof.
  revert am. induction es as [|e' es IH]; intros am;
    cbn [AudioMonitor.deliver fst snd]; [by intros ?%elem_of_nil|].
  intros [Hx|Hx]%elem_of_cons.
  { injection Hx as ->. apply list_elem_of_here. }
  apply list_elem_of_further.
  apply elem_of_app in Hx as [Hx|Hx]; [|by eapply IH].
  exfalso. destruct e' as [p|p b|p b d|p]; cbn [AudioMonitor.listener] in Hx.
  - unfold AudioMonitor.handleSpeechStarted in Hx.
    destruct (_ !! p) as [st|]; [|by apply elem_of_nil in Hx].
    destruct (negb _); [|by apply elem_of_nil in Hx].
    by apply list_elem_of_singleton in Hx.
  - unfold AudioMonitor.handleSpeechEnded in Hx.
    destruct (_ !! p) as [st|]; [|by apply elem_of_nil in Hx].
    destruct (AudioMonitor.isSpeaking st); [|by apply elem_of_nil in Hx].
    by apply list_elem_of_singleton in Hx.
  - by apply list_elem_of_singleton in Hx.
  - by apply elem_of_nil in Hx.
Qed.

Local Abbreviation same_speaking := AudioMonitorControl.same_speaking.
Local Abbreviation delivery_shape := AudioMonitorControl.delivery_shape.
Local Abbreviation trace_shape := AudioMonitorControl.trace_shape.
Local Abbreviation inert := AudioMonitorControl.inert.

Lemma same_speaking_coherent am am' :
  coherent am -> same_speaking am am' -> coherent am'.
Proof.
  intros (H1 & H2 & H3 & H4) (Hv & Hm & Hs).
  split; [|split; [|split]].
  - intros q. rewrite Hv. apply H1.
  - intros q. rewrite Hv. intros Ha. specialize (H2 q Ha).
    unfold AudioMonitorControl.isSpeaking in *. specialize (Hs q).
    destruct (AudioMonitor.participantStates am' !! q),
             (AudioMonitor.participantStates am !! q); cbn in Hs;
      try done; congruence.
  - intros q Hn. rewrite Hv. apply H3. specialize (Hs q).
    rewrite Hn in Hs. by destruct (AudioMonitor.participantStates am !! q).
  - destruct H4 as [He|Hm']; [left|right; congruence].
    apply map_eq. intros p. specialize (Hs p).
    rewrite He in Hs. rewrite lookup_empty in *.
    by destruct (AudioMonitor.participantStates am' !! p).
Qed.

(** A change confined to one known participant keeps the monitor
    coherent if it leaves the participant known, its cell settled, and
    held as speaking where a turn is under way. *)
Lemma coherent_after am am' q :
  coherent am ->
  is_Some (AudioMonitor.participantStates am !! q) ->
  AudioMonitor.isMonitoring am' = AudioMonitor.isMonitoring am ->
  (forall p, p <> q ->
     VoiceDetection.view p (AudioMonitor.voiceDetection am')
     = VoiceDetection.view p (AudioMonitor.voiceDetection am)) ->
  (forall p, p <> q ->
     AudioMonitor.participantStates am' !! p
     = AudioMonitor.participantStates am !! p) ->
  settled_cell (VoiceDetection.view q (AudioMonitor.voiceDetection am')) ->
  is_Some (AudioMonitor.participantStates am' !! q) ->
  (active (VoiceDetection.view q (AudioMonitor.voiceDetection am')) ->
   m_isSpeaking q am' = true) ->
  coherent am'.
Proof.
  intros (H1 & H2 & H3 & H4) Hq Hm Hv Hs Hset Hq' Hact.
  split; [|split; [|split]].
  - intros p. destruct (decide (p = q)) as [->|Hne]; [done|].
    rewrite Hv by done. apply H1.
  - intros p. destruct (decide (p = q)) as [->|Hne]; [done|].
    rewrite Hv by done. intros Ha. specialize (H2 p Ha).
    unfold AudioMonitorControl.isSpeaking in *. by rewrite Hs.
  - intros p Hn. destruct (decide (p = q)) as [->|Hne].
    + rewrite Hn in Hq'. by destruct Hq'.
    + rewrite Hv by done. apply H3. by rewrite <- Hs.
  - right. rewrite Hm. destruct H4 as [He|?]; [|done].
    rewrite He, lookup_empty in Hq. by destruct Hq.
Qed.

(** The detector takes a step for a participant the monitor knows, and
    its events are delivered to the monitor's listeners. *)
Lemma detector_step_coherent a q now am :
  coherent am ->
  is_Some (AudioMonitor.participantStates am !! q) ->
  match a with
  | VoiceDetection.Frame p _ _ | VoiceDetection.Fire p _ => p = q
  | VoiceDetection.Cleanup _ => False
  end ->
  coherent (AudioMonitor.deliver
              (VoiceDetection.step dc a (AudioMonitor.voiceDetection am)).2 now
              (AudioMonitor.set_detection
                 (VoiceDetection.step dc a (AudioMonitor.voiceDetection am)).1
                 am)).1 /\
  delivery_shape
    (AudioMonitor.deliver
       (VoiceDetection.step dc a (AudioMonitor.voiceDetection am)).2 now
       (AudioMonitor.set_detection
          (VoiceDetection.step dc a (AudioMonitor.voiceDetection am)).1
          am)).2.
Proof.
  intros Hco Hq Ha.
  pose proof Hco as (H1 & H2 & H3 & H4).
  set (vd := AudioMonitor.voiceDetection am) in *.
  set (c := VoiceDetection.view q vd).
  assert (Hev : (VoiceDetection.step dc a vd).2
                = (VoiceDetection.c_step dc a q c).2).
  { rewrite step_events. destruct a as [p ? ?|p ?|?]; [by subst..|done]. }
  assert (Hvq : VoiceDetection.view q (VoiceDetection.step dc a vd).1
                = (VoiceDetection.c_step dc a q c).1) by apply step_view.
  assert (Hvo : forall p, p <> q ->
            VoiceDetection.view p (VoiceDetection.step dc a vd).1
            = VoiceDetection.view p vd).
  { intros p Hp. rewrite step_view.
    destruct a as [p' ? ?|p' ?|?]; [subst p'..|done];
      cbn [VoiceDetection.c_step]; by rewrite decide_False. }
  destruct (c_step_activity dc a q c (H1 q)) as (A1 & A2 & A3 & A4).
  pose proof (c_step_shape dc a q c) as Hshape.
  pose proof (c_step_events dc a q c) as Hpart.
  rewrite Hev. set (vd' := (VoiceDetection.step dc a vd).1) in *.
  set (es := (VoiceDetection.c_step dc a q c).2) in *.
  set (c' := (VoiceDetection.c_step dc a q c).1) in *.
  destruct Hq as [st Hst].
  destruct Hshape as [E|[(p & E)|(p & b & d & E & _)]]; rewrite E in *.
  - cbn [AudioMonitor.deliver fst snd]. split; [|by left].
    refine (coherent_after am _ q Hco _ _ _ _ _ _ _).
    + by rewrite Hst.
    + done.
    + done.
    + done.
    + cbn. by rewrite Hvq.
    + cbn. by rewrite Hst.
    + cbn [AudioMonitor.set_detection AudioMonitor.voiceDetection].
      rewrite Hvq. intros Hact. destruct (A2 Hact) as [?|Hin]; [by apply H2|].
      by apply elem_of_nil in Hin.
  - assert (p = q) as -> by (apply (Hpart (VoiceDetection.speechStarted p));
                             apply list_elem_of_here).
    cbn [AudioMonitor.deliver AudioMonitor.listener fst snd].
    unfold AudioMonitor.handleSpeechStarted.
    cbn [AudioMonitor.set_detection AudioMonitor.participantStates].
    rewrite Hst. destruct (AudioMonitor.isSpeaking st) eqn:Hsp; cbn [negb fst snd].
    + split; [|right; left; by exists q].
      refine (coherent_after am _ q Hco _ _ _ _ _ _ _).
      * by rewrite Hst.
      * done.
      * done.
      * done.
      * cbn. by rewrite Hvq.
      * cbn. by rewrite Hst.
      * intros _. unfold AudioMonitorControl.isSpeaking. cbn. by rewrite Hst.
    + split; [|right; right; left; by exists q].
      refine (coherent_after am _ q Hco _ _ _ _ _ _ _).
      * by rewrite Hst.
      * done.
      * done.
      * intros p Hp. cbn. by rewrite lookup_insert_ne.
      * cbn. by rewrite Hvq.
      * cbn. by rewrite lookup_insert_eq.
      * intros _. unfold AudioMonitorControl.isSpeaking. cbn.
        by rewrite lookup_insert_eq.
  - assert (p = q) as -> by (apply (Hpart (VoiceDetection.speechEnded p b));
                             apply list_elem_of_here).
    destruct (A3 b d) as [Hwas Hnot];
      [apply list_elem_of_further, list_elem_of_here|].
    pose proof (H2 q Hwas) as Hsp.
    unfold AudioMonitorControl.isSpeaking in Hsp. rewrite Hst in Hsp.
    cbn [AudioMonitor.deliver AudioMonitor.listener fst snd].
    unfold AudioMonitor.handleSpeechEnded.
    cbn [AudioMonitor.set_detection AudioMonitor.participantStates].
    rewrite Hst, Hsp. cbn [fst snd app].
    split; [|right; right; right; by exists q, b, d].
    refine (coherent_after am _ q Hco _ _ _ _ _ _ _).
    + by rewrite Hst.
    + done.
    + done.
    + intros p Hp. cbn. by rewrite lookup_insert_ne.
    + cbn. by rewrite Hvq.
    + cbn. by rewrite lookup_insert_eq.
    + cbn [AudioMonitor.set_states AudioMonitor.voiceDetection
           AudioMonitor.set_detection].
      by rewrite Hvq.
Qed.

Lemma trace_shape_nil : trace_shape [].
Proof. exists [], [], []. repeat split; try done. by left. Qed.

Lemma frame_coherent q b now am :
  coherent am ->
  coherent (AudioMonitor.processAudioFrame config q b now am).1.1 /\
  trace_shape (AudioMonitor.processAudioFrame config q b now am).1.2.
Proof.
  intros Hco. unfold AudioMonitor.processAudioFrame.
  destruct (AudioMonitor.participantStates am !! q) as [st|] eqn:Hst;
    [|split; [done|apply trace_shape_nil]].
  destruct (AudioMonitor.isMonitoring am) eqn:Hmon; cbn [negb];
    [|split; [done|apply trace_shape_nil]].
  set (am0 := AudioMonitor.set_states _ am).
  assert (Hsame0 : same_speaking am am0).
  { split; [done|]. split; [done|]. intros p. cbn.
    destruct (decide (p = q)) as [->|Hne];
      [by rewrite lookup_insert_eq, Hst|by rewrite lookup_insert_ne]. }
  destruct (calculateVolume b) as [volume|e].
  2:{ cbn [fst snd]. split; [by eapply same_speaking_coherent|].
      apply trace_shape_nil. }
  set (am1 := AudioMonitor.updateVolumeBuffer config q volume am0).
  pose proof (check_spec config q am1) as (V2 & S2 & M2 & _ & Hchk).
  cbn zeta in *.
  set (r1 := AudioMonitor.checkForInterruption config q am1) in *.
  assert (Hsame1 : same_speaking am r1.1).
  { split; [by rewrite V2|]. split; [by rewrite M2|].
    intros p. rewrite S2. apply Hsame0. }
  pose proof (same_speaking_coherent _ _ Hco Hsame1) as Hco1.
  assert (Hq1 : is_Some (AudioMonitor.participantStates r1.1 !! q)).
  { rewrite S2. cbn. rewrite lookup_insert_eq. eauto. }
  pose proof (detector_step_coherent (VoiceDetection.Frame q b now) q now
                r1.1 Hco1 Hq1 eq_refl) as [Hc Hs].
  cbn [VoiceDetection.step] in Hc, Hs.
  destruct (VoiceDetection.processAudioFrame dc q b now
              (AudioMonitor.voiceDetection r1.1)) as [[vd es] c].
  cbn [fst snd] in Hc, Hs.
  assert (Hpre : Forall inert r1.2).
  { destruct Hchk as [[-> _]|(-> & _)]; repeat constructor. }
  destruct c; cbn [fst snd]; (split; [done|]).
  - eexists _, _, _. split; [reflexivity|]. split; [done|].
    split; [|done]. repeat constructor.
  - exists r1.2, (AudioMonitor.deliver es now
                   (AudioMonitor.set_detection vd r1.1)).2, [].
    split; [by rewrite app_nil_r|]. done.
Qed.

Lemma fire_coherent q now am :
  coherent am ->
  coherent (AudioMonitor.fireTimer config q now am).1 /\
  trace_shape (AudioMonitor.fireTimer config q now am).2.
Proof.
  intros Hco.
  destruct (AudioMonitor.participantStates am !! q) as [st|] eqn:Hst.
  - pose proof (detector_step_coherent (VoiceDetection.Fire q now) q now
                  am Hco ltac:(by rewrite Hst) eq_refl) as [Hc Hs].
    split; [exact Hc|].
    eexists [], _, []. split; [by rewrite app_nil_r|].
    split; [done|]. split; [done|]. exact Hs.
  - pose proof Hco as (_ & _ & H3 & _). pose proof (H3 q Hst) as Hv.
    destruct (fire_spec config q now am) as [Hnone _].
    cbn zeta in Hnone. rewrite Hnone by (by rewrite Hv).
    split; [done|apply trace_shape_nil].
Qed.

Lemma start_coherent p now am :
  coherent am -> coherent (AudioMonitor.startMonitoring p now am).
Proof.
  intros (H1 & H2 & H3 & H4). unfold AudioMonitor.startMonitoring.
  destruct (AudioMonitor.participantStates am !! p) eqn:Hp.
  { split; [done|]. split; [done|]. split; [done|]. by right. }
  split; [done|]. split; [|split; [|by right]].
  - intros q Ha. specialize (H2 q Ha).
    unfold AudioMonitorControl.isSpeaking in *. cbn.
    destruct (decide (q = p)) as [->|Hne]; [by rewrite Hp in H2|].
    by rewrite lookup_insert_ne.
  - intros q. cbn. destruct (decide (q = p)) as [->|Hne];
      [by rewrite lookup_insert_eq|].
    rewrite lookup_insert_ne by done. apply H3.
Qed.

(** What [cleanup] of the detector does to a coherent monitor whose
    map of states is changed along. *)
Lemma cleanup_coherent p am am' :
  coherent am ->
  AudioMonitor.voiceDetection am'
    = VoiceDetection.cleanup p (AudioMonitor.voiceDetection am) ->
  (forall q, p <> None -> p <> Some q ->
     AudioMonitor.isSpeaking <$> AudioMonitor.participantStates am' !! q
     = AudioMonitor.isSpeaking <$> AudioMonitor.participantStates am !! q) ->
  (forall q, AudioMonitor.participantStates am' !! q = None ->
     AudioMonitor.participantStates am !! q = None \/ p = Some q \/ p = None) ->
  (AudioMonitor.participantStates am' = ∅ \/
   AudioMonitor.isMonitoring am' = true) ->
  coherent am'.
Proof.
  intros (H1 & H2 & H3 & H4) Hv Hs Hn Hm.
  split; [|split; [|split; [|done]]].
  - intros q. rewrite Hv, (cleanup_view dc). by apply c_cleanup_cell.
  - intros q. rewrite Hv, (cleanup_view dc). intros Ha.
    destruct (c_cleanup_cell p q _ (H1 q)) as (_ & Hact & _).
    destruct (Hact Ha) as (Hb & Hp & Hq). specialize (H2 q Hb).
    specialize (Hs q Hp Hq). unfold AudioMonitorControl.isSpeaking in *.
    destruct (AudioMonitor.participantStates am' !! q),
             (AudioMonitor.participantStates am !! q); cbn in Hs;
      try done; congruence.
  - intros q Hq. rewrite Hv, (cleanup_view dc).
    destruct (Hn q Hq) as [Hnone|[->| ->]].
    + apply c_cleanup_cell; [apply H1|by apply H3].
    + cbn [VoiceDetection.c_step]. case_bool_decide; [done|].
      by rewrite decide_True.
    + done.
Qed.

Lemma stop_coherent p am :
  coherent am -> coherent (AudioMonitor.stopMonitoring p am).
Proof.
  intros Hco. apply (cleanup_coherent (Some p) am); [done|done|..].
  - intros q _ Hq. cbn. rewrite lookup_delete_ne; [done|congruence].
  - intros q. cbn. destruct (decide (p = q)) as [->|Hne]; [by right; left|].
    rewrite lookup_delete_ne by done. by left.
  - cbn. case_bool_decide as Hsz; [left; by apply map_size_empty_iff|].
    right. destruct Hco as (_ & _ & _ & [He|Hm]); [|done].
    rewrite He, delete_empty, map_size_empty in Hsz. done.
Qed.

Lemma reset_coherent p now am :
  coherent am -> coherent (AudioMonitorControl.reset p now am).
Proof.
  intros Hco.
  assert (Hall : coherent (AudioMonitorControl.reset_all am)).
  { apply (cleanup_coherent None am); [done|done|done|..].
    - intros q _. by right; right.
    - by left. }
  destruct p as [p|]; [|done]. cbn [AudioMonitorControl.reset].
  case_bool_decide; [done|].
  apply (cleanup_coherent (Some p) am); [done|done|..].
  - intros q _ Hq. cbn. rewrite lookup_alter_ne; [done|congruence].
  - intros q. cbn. destruct (decide (p = q)) as [->|Hne]; [by right; left|].
    rewrite lookup_alter_ne by done. by left.
  - cbn. destruct Hco as (_ & _ & _ & [He|Hm]); [left|by right].
    apply map_eq. intros q. rewrite He.
    destruct (decide (p = q)) as [->|Hne];
      [rewrite lookup_alter_eq|rewrite lookup_alter_ne by done];
      by rewrite lookup_empty.
Qed.

(** Every call keeps the monitor coherent and leaves a trace of the
    one shape. *)
Lemma step_coherent c am :
  coherent am ->
  coherent (AudioMonitorControl.step config c am).1 /\
  trace_shape (AudioMonitorControl.step config c am).2.
Proof.
  intros Hco. destruct c as [[p now|p|p b now|p now]|p now];
    cbn [AudioMonitorControl.step AudioMonitor.step fst snd].
  - split; [by apply start_coherent|apply trace_shape_nil].
  - split; [by apply stop_coherent|apply trace_shape_nil].
  - by apply frame_coherent.
  - by apply fire_coherent.
  - split; [by apply reset_coherent|apply trace_shape_nil].
Qed.

Lemma run_coherent calls am :
  coherent am -> coherent (AudioMonitorControl.run config calls am).1.
Proof.
  revert am. induction calls as [|c calls IH]; intros am Hco; [done|].
  cbn [AudioMonitorControl.run fst]. apply IH. by apply step_coherent.
Qed.

End MonitorCoherence.

(** ** What the listeners leave of a participant's state *)

Lemma listener_lastActivity e now am q st :
  AudioMonitor.participantStates am !! q = Some st ->
  exists st',
    AudioMonitor.participantStates (AudioMonitor.listener e now am).1 !! q
      = Some st' /\
    AudioMonitor.lastActivity st' = AudioMonitor.lastActivity st.
Proof.
  intros Hst. destruct e as [p|p b|p b d|p]; cbn [AudioMonitor.listener];
    [| |by exists st..].
  - unfold AudioMonitor.handleSpeechStarted.
    destruct (AudioMonitor.participantStates am !! p) as [st0|] eqn:Hp;
      [|by exists st].
    destruct (negb _); [|by exists st]. cbn.
    destruct (decide (p = q)) as [->|Hne].
    + rewrite lookup_insert_eq. eexists; split; [done|]. cbn. congruence.
    + rewrite lookup_insert_ne by done. by exists st.
  - unfold AudioMonitor.handleSpeechEnded.
    destruct (AudioMonitor.participantStates am !! p) as [st0|] eqn:Hp;
      [|by exists st].
    destruct (AudioMonitor.isSpeaking st0); [|by exists st]. cbn.
    destruct (decide (p = q)) as [->|Hne].
    + rewrite lookup_insert_eq. eexists; split; [done|]. cbn. congruence.
    + rewrite lookup_insert_ne by done. by exists st.
Qed.

Lemma deliver_lastActivity es now am q st :
  AudioMonitor.participantStates am !! q = Some st ->
  exists st',
    AudioMonitor.participantStates (AudioMonitor.deliver es now am).1 !! q
      = Some st' /\
    AudioMonitor.lastActivity st' = AudioMonitor.lastActivity st.
Proof.
  revert am st. induction es as [|e es IH]; intros am st Hst;
    cbn [AudioMonitor.deliver fst]; [by exists st|].
  destruct (listener_lastActivity e now am q st Hst) as (st1 & H1 & E1).
  destruct (IH _ _ H1) as (st2 & H2 & E2).
  exists st2. split; [done|congruence].
Qed.

(** ** The service's guard against repeated hand-offs *)

Lemma processSpeechTurn_not_ready p b s :
  LiveKitServiceEvents.ready p s = false ->
  LiveKitService.processSpeechTurn p b s = s.
Proof.
  unfold LiveKitServiceEvents.ready, LiveKitService.processSpeechTurn.
  destruct (LiveKitService.userStates s !! p) as [u|]; [|done].
  by destruct (LiveKitService.isProcessing u).
Qed.

Lemma processSpeechTurn_ready p b s :
  LiveKitServiceEvents.ready p s = true ->
  LiveKitService.transcribeCalls (LiveKitService.processSpeechTurn p b s)
    = LiveKitService.transcribeCalls s ++ [(p, b)] /\
  LiveKitServiceEvents.ready p (LiveKitService.processSpeechTurn p b s)
    = false.
Proof.
  unfold LiveKitServiceEvents.ready, LiveKitService.processSpeechTurn.
  destruct (LiveKitService.userStates s !! p) as [u|]; [|done].
  destruct (LiveKitService.isProcessing u); [done|]. intros _. cbn.
  by rewrite lookup_insert_eq.
Qed.

Lemma processSpeechTurn_twice p b s :
  LiveKitService.processSpeechTurn p b (LiveKitService.processSpeechTurn p b s)
  = LiveKitService.processSpeechTurn p b s.
Proof.
  destruct (LiveKitServiceEvents.ready p s) eqn:Hr.
  - apply processSpeechTurn_not_ready. by apply processSpeechTurn_ready.
  - by rewrite !(processSpeechTurn_not_ready p b s Hr).
Qed.

Lemma onSpeakingStopped_once n p b s :
  LiveKitServiceEvents.onSpeakingStopped n p b s
  = LiveKitService.processSpeechTurn p b s.
Proof.
  unfold LiveKitServiceEvents.onSpeakingStopped.
  induction n as [|n IH]; [done|].
  rewrite Nat.iter_succ. by rewrite processSpeechTurn_twice.
Qed.

Lemma receive_app n now tr tr' s :
  LiveKitServiceEvents.receive n now (tr ++ tr') s
  = LiveKitServiceEvents.receive n now tr'
      (LiveKitServiceEvents.receive n now tr s).
Proof. apply fold_left_app. Qed.

Lemma receive_inert n now tr s :
  Forall AudioMonitorControl.inert tr ->
  LiveKitServiceEvents.receive n now tr s = s.
Proof.
  intros H. revert s. induction H as [|x tr Hx _ IH]; intros s; [done|].
  cbn [LiveKitServiceEvents.receive fold_left].
  destruct x as [e|[p|p b|p v|p]]; try done; apply IH.
Qed.

Lemma ready_turns_inert s tr :
  Forall AudioMonitorControl.inert tr ->
  LiveKitServiceEvents.ready_turns s tr = [].
Proof.
  induction 1 as [|x tr Hx _ IH]; [done|].
  cbn [LiveKitServiceEvents.ready_turns flat_map].
  destruct x as [e|[p|p b|p v|p]]; try done; apply IH.
Qed.

Lemma ready_turns_app s tr tr' :
  LiveKitServiceEvents.ready_turns s (tr ++ tr')
  = LiveKitServiceEvents.ready_turns s tr
    ++ LiveKitServiceEvents.ready_turns s tr'.
Proof. apply flat_map_app. Qed.

(** The hand-off of one delivery. *)
Lemma receive_delivery n now mid s :
  AudioMonitorControl.delivery_shape mid ->
  LiveKitService.transcribeCalls (LiveKitServiceEvents.receive n now mid s)
  = LiveKitService.transcribeCalls s
    ++ LiveKitServiceEvents.ready_turns s mid.
Proof.
  intros [->|[(q & ->)|[(q & ->)|(q & b & d & ->)]]];
    cbn [LiveKitServiceEvents.receive LiveKitServiceEvents.ready_turns
         LiveKitServiceEvents.onMonitorEvent AudioMonitorControl.turn_trace
         fold_left flat_map app]; try by rewrite app_nil_r.
  rewrite !onSpeakingStopped_once, processSpeechTurn_twice.
  destruct (LiveKitServiceEvents.ready q s) eqn:Hr.
  - by apply processSpeechTurn_ready.
  - by rewrite (processSpeechTurn_not_ready q b s Hr), app_nil_r.
Qed.

(** The trace of a call has one place for a completed turn. *)
Lemma trace_shape_turn tr p b d :
  AudioMonitorControl.trace_shape tr ->
  AudioMonitor.detector (VoiceDetection.speechTurn p b d) ∈ tr ->
  exists pre post,
    tr = pre ++ AudioMonitorControl.turn_trace p b d ++ post /\
    Forall AudioMonitorControl.inert pre /\
    Forall AudioMonitorControl.inert post.
Proof.
  intros (pre & mid & post & -> & Hpre & Hpost & Hmid) Hin.
  assert (Hno : forall l, Forall AudioMonitorControl.inert l ->
            AudioMonitor.detector (VoiceDetection.speechTurn p b d) ∉ l).
  { intros l Hl Hx. rewrite Forall_forall in Hl. by apply Hl in Hx. }
  apply elem_of_app in Hin as [Hin|Hin]; [by apply Hno in Hin|].
  apply elem_of_app in Hin as [Hin|Hin]; [|by apply Hno in Hin].
  exists pre, post. split; [|done]. do 2 f_equal.
  destruct Hmid as [->|[(q & ->)|[(q & ->)|(q & b' & d' & ->)]]].
  - by apply elem_of_nil in Hin.
  - by apply list_elem_of_singleton in Hin.
  - apply elem_of_cons in Hin as [?|Hin]; [done|].
    by apply list_elem_of_singleton in Hin.
  - unfold AudioMonitorControl.turn_trace in Hin.
    repeat (apply elem_of_cons in Hin as [Hin|Hin]; try done).
    + by injection Hin as -> -> ->.
    + by apply elem_of_nil in Hin.
Qed.

(** ** The monitor over its calls *)

(** X15: however [startMonitoring], [stopMonitoring],
    [processAudioFrame], the debounce timers and [reset] were
    interleaved since construction, a participant the monitor has a
    state for finds the monitoring flag raised, so their next frame is
    not ignored: it is recorded as their last activity. *)
Theorem monitored_frame_is_recorded
    (config : AudioMonitor.AudioMonitorConfig)
    (calls : list AudioMonitorControl.Call)
    (p : string) (b : Buffer) (now : Z) (st : AudioMonitor.ParticipantState) :
  AudioMonitor.participantStates
    (AudioMonitorControl.run config calls AudioMonitor.empty).1 !! p
    = Some st ->
  AudioMonitor.isMonitoring
    (AudioMonitorControl.run config calls AudioMonitor.empty).1 = true /\
  exists st',
    AudioMonitor.participantStates
      (AudioMonitor.processAudioFrame config p b now
         (AudioMonitorControl.run config calls AudioMonitor.empty).1).1.1 !! p
      = Some st' /\
    AudioMonitor.lastActivity st' = now.
Proof.
  intros Hst.
  pose proof (run_coherent config calls _ coherent_empty) as (_ & _ & _ & H4).
  set (am := (AudioMonitorControl.run config calls AudioMonitor.empty).1) in *.
  assert (Hmon : AudioMonitor.isMonitoring am = true).
  { destruct H4 as [He|?]; [|done]. by rewrite He, lookup_empty in Hst. }
  split; [done|].
  unfold AudioMonitor.processAudioFrame. rewrite Hst, Hmon. cbn [negb].
  set (am0 := AudioMonitor.set_states _ am).
  assert (H0 : AudioMonitor.participantStates am0 !! p
               = Some (AudioMonitor.mkPState (AudioMonitor.isSpeaking st)
                         (AudioMonitor.startTime st) now)).
  { unfold am0. cbn. by rewrite lookup_insert_eq. }
  destruct (calculateVolume b) as [volume|e]; [|by eexists].
  pose proof (check_spec config p
                (AudioMonitor.updateVolumeBuffer config p volume am0))
    as (_ & S2 & _).
  cbn zeta in S2.
  set (r1 := AudioMonitor.checkForInterruption config p _) in *.
  destruct (VoiceDetection.processAudioFrame _ p b now
              (AudioMonitor.voiceDetection r1.1)) as [[vd es] c].
  destruct (deliver_lastActivity es now (AudioMonitor.set_detection vd r1.1)
              p _ ltac:(cbn; rewrite S2; exact H0)) as (st' & Hst' & E).
  exists st'. by destruct c.
Qed.

Lemma monitored_frame_is_recorded_witness :
  AudioMonitor.isMonitoring
    (AudioMonitorControl.run AudioMonitor.defaultConfig
       [AudioMonitorControl.Act (AudioMonitor.Start "alice" 0)]
       AudioMonitor.empty).1 = true /\
  exists st',
    AudioMonitor.participantStates
      (AudioMonitor.processAudioFrame AudioMonitor.defaultConfig "alice"
         VoiceDetection.loud_frame 10
         (AudioMonitorControl.run AudioMonitor.defaultConfig
            [AudioMonitorControl.Act (AudioMonitor.Start "alice" 0)]
            AudioMonitor.empty).1).1.1 !! "alice"
      = Some st' /\
    AudioMonitor.lastActivity st' = 10.
Proof.
  apply (monitored_frame_is_recorded AudioMonitor.defaultConfig
           [AudioMonitorControl.Act (AudioMonitor.Start "alice" 0)]
           "alice" VoiceDetection.loud_frame 10
           (AudioMonitor.mkPState false 0 0)).
  reflexivity.
Defined.

(** X16: a completed turn is announced twice.  In the trace of any call
    made to a monitor since its construction, a [speechTurn] of the
    detector stands in the block [speechEnded], [speakingStopped],
    [speechTurn], [speakingStopped]: the monitor emits
    [speakingStopped] for the turn once from [handleSpeechEnded] and
    once from its [speechTurn] listener, with the same audio, and
    nothing but volume and interruption events surrounds the block. *)
Theorem completed_turn_announced_twice
    (config : AudioMonitor.AudioMonitorConfig)
    (calls : list AudioMonitorControl.Call) (c : AudioMonitorControl.Call)
    (p : string) (b : Buffer) (d : Z) :
  AudioMonitor.detector (VoiceDetection.speechTurn p b d)
    ∈ (AudioMonitorControl.step config c
         (AudioMonitorControl.run config calls AudioMonitor.empty).1).2 ->
  exists pre post,
    (AudioMonitorControl.step config c
       (AudioMonitorControl.run config calls AudioMonitor.empty).1).2
    = pre ++ AudioMonitorControl.turn_trace p b d ++ post /\
    Forall AudioMonitorControl.inert pre /\
    Forall AudioMonitorControl.inert post.
Proof.
  intros Hin. apply trace_shape_turn; [|done].
  apply step_coherent, run_coherent, coherent_empty.
Qed.

Lemma completed_turn_announced_twice_witness :
  exists pre post,
    (AudioMonitorControl.step AudioMonitorControl.eager_monitor
       (AudioMonitorControl.Act (AudioMonitor.Fire "alice" 110))
       (AudioMonitorControl.run AudioMonitorControl.eager_monitor
          AudioMonitorControl.short_session AudioMonitor.empty).1).2
    = pre ++ AudioMonitorControl.turn_trace "alice"
               VoiceDetectionQueries.silent_frame 110 ++ post /\
    Forall AudioMonitorControl.inert pre /\
    Forall AudioMonitorControl.inert post.
Proof.
  apply (completed_turn_announced_twice AudioMonitorControl.eager_monitor
           AudioMonitorControl.short_session
           (AudioMonitorControl.Act (AudioMonitor.Fire "alice" 110))
           "alice" VoiceDetectionQueries.silent_frame 110).
  replace (AudioMonitorControl.step AudioMonitorControl.eager_monitor
             (AudioMonitorControl.Act (AudioMonitor.Fire "alice" 110))
             (AudioMonitorControl.run AudioMonitorControl.eager_monitor
                AudioMonitorControl.short_session AudioMonitor.empty).1).2
    with (AudioMonitorControl.turn_trace "alice"
            VoiceDetectionQueries.silent_frame 110)
    by (vm_compute; reflexivity).
  do 2 apply list_elem_of_further. apply list_elem_of_here.
Defined.

(** X17: the monitor's [isSpeaking] covers the detector's turns, and
    not conversely.  After any calls, a participant whose turn is
    under way in the detector (speaking, or silent with the debounce
    timer still pending) is reported as speaking by the monitor; but
    there are calls after which the monitor reports a participant as
    speaking whom the detector holds as silent with no timer pending:
    those of [dropped_turn], where the turn is discarded without an
    event. *)
Theorem monitor_isSpeaking_covers_detector :
  (forall (config : AudioMonitor.AudioMonitorConfig)
          (calls : list AudioMonitorControl.Call) (q : string),
     AudioMonitorControl.active
       (VoiceDetection.view q
          (AudioMonitor.voiceDetection
             (AudioMonitorControl.run config calls AudioMonitor.empty).1)) ->
     AudioMonitorControl.isSpeaking q
       (AudioMonitorControl.run config calls AudioMonitor.empty).1 = true) /\
  (exists (config : AudioMonitor.AudioMonitorConfig)
          (calls : list AudioMonitorControl.Call) (q : string),
     AudioMonitorControl.isSpeaking q
       (AudioMonitorControl.run config calls AudioMonitor.empty).1 = true /\
     ~ AudioMonitorControl.active
         (VoiceDetection.view q
            (AudioMonitor.voiceDetection
               (AudioMonitorControl.run config calls AudioMonitor.empty).1))).
Proof.
  split.
  - intros config calls q.
    pose proof (run_coherent config calls _ coherent_empty) as (_ & H2 & _).
    apply H2.
  - exists AudioMonitor.defaultConfig, AudioMonitorControl.dropped_turn, "alice".
    split; [vm_compute; reflexivity|].
    apply not_active; [vm_compute; reflexivity|].
    intros tm Htm. vm_compute in Htm. discriminate Htm.
Qed.

(** X18: one transcription per completed turn.  The service receives
    the events of a call made to a monitor; each [speakingStopped]
    reaches [processSpeechTurn] once from the listener itself and once
    more from every ['speechEnded'] listener [setupAgentBehavior]
    installed, and a completed turn comes as two [speakingStopped].
    All the same, the calls to [transcribeAudio] started by the trace
    are exactly one per [speechTurn] of the detector whose participant
    has a user state with no turn in flight, with the turn's audio,
    and none for any other. *)
Theorem one_transcription_per_turn
    (config : AudioMonitor.AudioMonitorConfig)
    (calls : list AudioMonitorControl.Call) (c : AudioMonitorControl.Call)
    (forwarded : nat) (now : Z) (s : LiveKitService.t) :
  LiveKitService.transcribeCalls
    (LiveKitServiceEvents.receive forwarded now
       (AudioMonitorControl.step config c
          (AudioMonitorControl.run config calls AudioMonitor.empty).1).2 s)
  = LiveKitService.transcribeCalls s
    ++ LiveKitServiceEvents.ready_turns s
         (AudioMonitorControl.step config c
            (AudioMonitorControl.run config calls AudioMonitor.empty).1).2.
Proof.
  pose proof (step_coherent config c _
                (run_coherent config calls _ coherent_empty)) as [_ Hshape].
  destruct Hshape as (pre & mid & post & -> & Hpre & Hpost & Hmid).
  rewrite !receive_app, !ready_turns_app.
  rewrite (receive_inert _ _ pre) by done.
  rewrite (receive_inert _ _ post) by done.
  rewrite (ready_turns_inert _ pre), (ready_turns_inert _ post) by done.
  rewrite app_nil_r. cbn [app]. by apply receive_delivery.
Qed.

(** X19: the frame that raises [interruptionDetected] empties the
    window it was computed from, so [getAverageVolume] of the
    participant is 0 right after it, whatever the volumes were. *)
Theorem average_is_zero_after_interruption
    (config : AudioMonitor.AudioMonitorConfig)
    (p q : string) (b : Buffer) (now : Z) (am : AudioMonitor.t) :
  AudioMonitor.monitor (AudioMonitor.interruptionDetected q)
    ∈ (AudioMonitor.processAudioFrame config p b now am).1.2 ->
  q = p /\
  AudioMonitorControl.getAverageVolume p
    (AudioMonitor.processAudioFrame config p b now am).1.1 = 0%float.
Proof.
  intros Hin.
  pose proof (frame_spec config p b now am) as (_ & _ & _ & _ & Hint).
  cbn zeta in Hint. destruct (Hint q Hin) as (-> & Hw & _).
  split; [done|].
  unfold AudioMonitor.window_of in Hw.
  unfold AudioMonitorControl.getAverageVolume.
  destruct (AudioMonitor.volumeBuffers _ !! p) as [[|v vs]|]; done.
Qed.

Lemma average_is_zero_after_interruption_witness :
  "alice" = "alice" /\
  AudioMonitorControl.getAverageVolume "alice"
    (AudioMonitor.processAudioFrame AudioMonitorControl.eager_monitor
       "alice" VoiceDetection.loud_frame 0
       (AudioMonitor.startMonitoring "alice" 0 AudioMonitor.empty)).1.1
  = 0%float.
Proof.
  apply (average_is_zero_after_interruption AudioMonitorControl.eager_monitor
           "alice" "alice" VoiceDetection.loud_frame 0
           (AudioMonitor.startMonitoring "alice" 0 AudioMonitor.empty)).
  vm_compute. apply list_elem_of_here.
Defined.

(** ** C8: the resampler against the spec's [resample] *)

Lemma samples_length (input : Buffer) :
  blen input mod 2 = 0 ->
  blen input = 2 * Z.of_nat (length (samples input)).
Proof.
  induction input as [|a|lo hi rest IH] using list_pair_ind; intros Hev.
  - done.
  - by vm_compute in Hev.
  - cbn [samples length]. unfold blen in *. cbn [length] in *.
    rewrite !Nat2Z.inj_succ in *.
    replace (Z.succ (Z.succ (Z.of_nat (length rest))))
      with (Z.of_nat (length rest) + 1 * 2) in Hev by lia.
    rewrite Z.mod_add in Hev by lia. specialize (IH Hev). lia.
Qed.

(** The sample of index [k] is read at offset [2 * k]. *)
Lemma readInt16LE_samples (input : Buffer) (k : nat) (s : Z) :
  samples input !! k = Some s ->
  readInt16LE input (Z.of_nat k * 2) = Ok s.
Proof.
  revert k. induction input as [|a|lo hi rest IH] using list_pair_ind;
    intros k Hs; [done|done|].
  cbn [samples] in Hs. destruct k as [|k].
  - injection Hs as <-. apply readInt16LE_head.
  - cbn [lookup list_lookup] in Hs.
    replace (Z.of_nat (S k) * 2) with (Z.of_nat k * 2 + 2) by lia.
    rewrite readInt16LE_cons2 by lia. by rewrite (IH k Hs).
Qed.

Lemma readInt16LE_last (input : Buffer) :
  blen input mod 2 = 0 -> 2 <= blen input ->
  readInt16LE input (blen input - 2) = Ok (default 0 (last (samples input))).
Proof.
  intros Hev H2. pose proof (samples_length input Hev) as Hlen.
  rewrite last_lookup.
  destruct (samples input !! pred (length (samples input))) as [s|] eqn:Hs.
  - simpl. rewrite <- (readInt16LE_samples input _ s Hs). f_equal. lia.
  - apply lookup_ge_None in Hs. lia.
Qed.

Section Refinement.

Variable input : Buffer.
Variables fromRate toRate : float.

Hypothesis Heven : blen input mod 2 = 0.
Hypothesis Hmax : blen input <= kMaxLength.

Local Abbreviation count := (Z.of_nat (length (samples input))).

Lemma count_bound : 0 <= count /\ 2 * count < 2 ^ 53.
Proof.
  pose proof (samples_length input Heven). unfold kMaxLength in Hmax. lia.
Qed.

Lemma inputSamples_count :
  LiveKitService.inputSamples input = Num.of_Z count.
Proof.
  unfold LiveKitService.inputSamples.
  rewrite (samples_length input Heven). apply div2_of_Z; apply count_bound.
Qed.

Lemma outputSamples_outputLength :
  LiveKitService.outputSamples input fromRate toRate
  = AudioNormalizer.outputLength (samples input) fromRate toRate.
Proof.
  unfold LiveKitService.outputSamples, AudioNormalizer.outputLength.
  by rewrite inputSamples_count.
Qed.

(** A number below [2^53] in the comparison of the loop. *)
Lemma lt_count_pred_zero (f : float) (s : bool) :
  1 <= count ->
  Prim2SF f = S754_zero s ->
  Num.lt f (Num.of_Z (count - 1)) = (0 <? count - 1).
Proof.
  intros H1 Hf. unfold Num.lt. rewrite ltb_spec, Hf.
  pose proof count_bound.
  destruct (count - 1) as [|p|p] eqn:Hc; [done| |lia].
  destruct (Prim2SF_of_Z_mantissa p ltac:(lia)) as (m & -> & _). done.
Qed.

Lemma lt_count_pred_large (f : float) (m : positive) (e : Z) :
  1 <= count ->
  Prim2SF f = S754_finite false m e -> 0 <= e ->
  Num.lt f (Num.of_Z (count - 1)) = false.
Proof.
  intros H1 Hf He. unfold Num.lt. rewrite ltb_spec, Hf.
  pose proof count_bound.
  destruct (count - 1) as [|p|p] eqn:Hc; [done| |lia].
  destruct (Prim2SF_of_Z_mantissa p ltac:(lia)) as (m' & -> & _).
  pose proof (digits2_pos_le p ltac:(lia)).
  assert (Z.pos (digits2_pos p) <> 53).
  { intros Hd. pose proof (digits2_pos_bounds p) as Hb. rewrite Hd in Hb.
    change (2 ^ (53 - 1)) with 4503599627370496 in Hb. lia. }
  unfold SFltb, SFcompare.
  destruct (Z.compare_spec e (Z.pos (digits2_pos p) - 53)); [lia|lia|done].
Qed.

(** The mantissa of a finite binary64 has at most 53 bits, exactly 53
    when the exponent is not the least. *)
Lemma Prim2SF_mantissa (f : float) (s : bool) (m : positive) (e : Z) :
  Prim2SF f = S754_finite s m e ->
  Z.pos m < 2 ^ 53 /\ (-1074 < e -> 2 ^ 52 <= Z.pos m).
Proof.
  intros Hf. pose proof (Prim2SF_valid f) as Hv. rewrite Hf in Hv.
  unfold valid_binary, bounded, canonical_mantissa, fexp, emin in Hv.
  apply andb_true_iff in Hv as [Hc _]. apply Z.eqb_eq in Hc.
  change (3 - emax - prec) with (-1074) in Hc. change prec with 53 in Hc.
  pose proof (digits2_pos_bounds m) as Hb.
  set (d := Z.pos (digits2_pos m)) in *.
  assert (Hd : d <= 53) by lia. split.
  - assert (2 ^ d <= 2 ^ 53) by (apply Z.pow_le_mono_r; lia). lia.
  - intros He. assert (d = 53) as Hd53 by lia. rewrite Hd53 in Hb.
    change (53 - 1) with 52 in Hb. lia.
Qed.

(** Inside the loop the source computes the spec's output sample. *)
Lemma output_sample_outputSample (i : Z) :
  0 <= i < 2 ^ 53 -> 1 <= count ->
  match Prim2SF (PrimFloat.div fromRate toRate) with
  | S754_finite false _ _ => True
  | _ => False
  end ->
  LiveKitService.output_sample input fromRate toRate i
  = Ok (AudioNormalizer.outputSample (samples input) fromRate toRate i).
Proof.
  intros Hi Hc Hratio.
  pose proof count_bound as [_ Hcb].
  pose proof (samples_length input Heven) as Hlen.
  unfold LiveKitService.output_sample, AudioNormalizer.outputSample.
  rewrite inputSamples_count, sub1_of_Z by lia.
  change (LiveKitService.ratio fromRate toRate)
    with (PrimFloat.div fromRate toRate).
  change (AudioNormalizer.ratio fromRate toRate)
    with (PrimFloat.div fromRate toRate).
  set (position := PrimFloat.mul (Num.of_Z i) (PrimFloat.div fromRate toRate)).
  assert (Hsign : match Prim2SF position with
                  | S754_zero s | S754_infinity s | S754_finite s _ _ =>
                      s = false
                  | S754_nan => True
                  end).
  { apply mul_sign; [|done].
    destruct i as [|p|p]; [by rewrite Prim2SF_of_Z_0| |lia].
    by destruct (Prim2SF_of_Z_mantissa p ltac:(lia)) as (m & -> & _). }
  assert (Hlast : readInt16LE input (blen input - 2)
                  = Ok (default 0 (last (samples input)))).
  { apply readInt16LE_last; [done|lia]. }
  assert (Helse :
    (lastSample <-! readInt16LE input (blen input - 2) ;
     Ok (Num.of_Z lastSample))
    = Ok (AudioNormalizer.lastSample (samples input))).
  { by rewrite Hlast. }
  assert (Hreads : forall k,
    0 <= k -> k < count - 1 ->
    exists a b,
      samples input !! Z.to_nat k = Some a /\
      samples input !! Z.to_nat (k + 1) = Some b /\
      readInt16LE input (k * 2) = Ok a /\
      readInt16LE input ((k + 1) * 2) = Ok b).
  { intros k Hk0 Hk.
    destruct (lookup_lt_is_Some_2 (samples input) (Z.to_nat k)) as [a Ha];
      [lia|].
    destruct (lookup_lt_is_Some_2 (samples input) (Z.to_nat (k + 1)))
      as [b Hb]; [lia|].
    exists a, b. split; [done|]. split; [done|].
    rewrite <- (readInt16LE_samples input _ a Ha).
    rewrite <- (readInt16LE_samples input _ b Hb).
    split; f_equal; lia. }
  assert (Hover : forall k,
    count - 1 <= k ->
    match samples input !! Z.to_nat k, samples input !! Z.to_nat (k + 1) with
    | Some a, Some b =>
        AudioNormalizer.interpolate a b (PrimFloat.sub position (Num.of_Z k))
    | _, _ => AudioNormalizer.lastSample (samples input)
    end = AudioNormalizer.lastSample (samples input)).
  { intros k Hk.
    rewrite (lookup_ge_None_2 (samples input) (Z.to_nat (k + 1))) by lia.
    by destruct (samples input !! Z.to_nat k). }
  unfold Num.Math_floor, Num.floorZ.
  destruct (Prim2SF position) as [s|s| |s m e] eqn:Hpos.
  - (* zero *)
    rewrite (lt_count_pred_zero position s) by done.
    assert (position = Num.of_Z 0) as Hz.
    { apply Prim2SF_inj. by rewrite Hpos, Hsign. }
    change (0 <? 0) with false. cbv iota.
    destruct (Z.ltb_spec 0 (count - 1)) as [Hlt|Hge].
    + destruct (Hreads 0 ltac:(lia) Hlt) as (a & b & -> & -> & -> & ->).
      cbn [rbind]. by rewrite Hz.
    + rewrite Helse. f_equal. symmetry. apply (Hover 0). lia.
  - (* infinity *)
    unfold Num.lt. rewrite ltb_spec, Hpos. subst s.
    replace (SFltb (S754_infinity false) (Prim2SF (Num.of_Z (count - 1))))
      with false
      by (by destruct (Prim2SF (Num.of_Z (count - 1))) as [|[]| |]).
    exact Helse.
  - (* NaN *)
    unfold Num.lt. rewrite ltb_spec, Hpos. exact Helse.
  - (* finite *)
    subst s. cbn [Num.signed].
    destruct (Prim2SF_mantissa position false m e Hpos) as [Hm53 Hm52].
    destruct (Z.leb_spec 0 e) as [He|He].
    + rewrite (lt_count_pred_large position m e) by done.
      rewrite Helse.
      assert (2 ^ 52 <= Z.pos m * 2 ^ e).
      { specialize (Hm52 ltac:(lia)).
        pose proof (Z.pow_pos_nonneg 2 e ltac:(lia) He). nia. }
      change (2 ^ 53) with (2 * 2 ^ 52) in Hcb.
      destruct (Z.ltb_spec (Z.pos m * 2 ^ e) 0); [done|].
      f_equal. symmetry. apply Hover. lia.
    + set (k := Z.shiftr (Z.pos m) (- e)).
      assert (Hk : 0 <= k < 2 ^ 53).
      { unfold k. rewrite Z.shiftr_div_pow2 by lia.
        assert (0 < 2 ^ (- e)) by (apply Z.pow_pos_nonneg; lia).
        split; [apply Z.div_pos; lia|].
        apply Z.div_lt_upper_bound; [lia|]. nia. }
      unfold Num.lt. rewrite ltb_of_Z by lia.
      destruct (Z.ltb_spec k 0); [lia|].
      destruct (Z.ltb_spec k (count - 1)) as [Hlt|Hge].
      * destruct (Hreads k ltac:(lia) Hlt) as (a & b & -> & -> & -> & ->).
        done.
      * rewrite Helse. f_equal. symmetry. by apply Hover.
Qed.

End Refinement.

Lemma mapR_ext_in {A B} (f g : A -> result B) (l : list A) :
  (forall a, a ∈ l -> f a = g a) -> mapR f l = mapR g l.
Proof.
  induction l as [|a l IH]; intros Hfg; [done|]. cbn [mapR].
  rewrite (Hfg a) by apply list_elem_of_here.
  rewrite IH; [done|]. intros b Hb. apply Hfg. by apply list_elem_of_further.
Qed.

(** Encoding a list of values: every value must fit. *)
Lemma mapR_encode (values : list float) (encoded : list (list byte)) :
  mapR LiveKitService.encode_sample values = Ok encoded <->
  Forall AudioNormalizer.fits_int16 values /\ encoded = int16LE <$> values.
Proof.
  revert encoded. induction values as [|v values IH]; intros encoded;
    cbn [mapR fmap list_fmap].
  - split; [by intros [= <-]|by intros [_ ->]].
  - unfold LiveKitService.encode_sample at 1.
    destruct (Num.gt v 32767) eqn:Hgt; cbn [orb rbind].
    { split; [done|]. intros [Hall _]. apply Forall_cons in Hall as [[? _] _].
      congruence. }
    destruct (Num.lt v (-32768)) eqn:Hlt; cbn [rbind].
    { split; [done|]. intros [Hall _]. apply Forall_cons in Hall as [[_ ?] _].
      congruence. }
    destruct (mapR LiveKitService.encode_sample values) as [rest|e];
      cbn [rbind].
    + split.
      * intros [= <-]. destruct (proj1 (IH rest) eq_refl) as [Hall ->].
        split; [|done]. by constructor.
      * intros [Hall ->]. apply Forall_cons in Hall as [_ Hall].
        pose proof (proj2 (IH (int16LE <$> values)) (conj Hall eq_refl))
          as [= ->].
        done.
    + split; [done|]. intros [Hall _]. apply Forall_cons in Hall as [_ Hall].
      discriminate (proj2 (IH (int16LE <$> values)) (conj Hall eq_refl)).
Qed.

Lemma mapR_fmap {A B C} (g : A -> B) (f : B -> result C) (l : list A) :
  mapR (fun a => f (g a)) l = mapR f (g <$> l).
Proof.
  induction l as [|a l IH]; [done|]. cbn [mapR fmap list_fmap].
  by rewrite IH.
Qed.

Lemma concat_int16LE_length (values : list float) :
  blen (concat (int16LE <$> values)) = 2 * Z.of_nat (length values).
Proof.
  unfold blen. induction values as [|v values IH]; [done|].
  cbn [fmap list_fmap concat]. rewrite length_app. cbn [length int16LE] in *.
  lia.
Qed.

(** 8 kHz to 16 kHz on a single byte: the clamping read is at offset
    [-1] of a buffer too short for any read. *)
Example resample_one_byte :
  LiveKitService.resampleAudio [x01] 8000 16000
  = Throw ERR_BUFFER_OUT_OF_BOUNDS.
Proof. vm_compute. reflexivity. Qed.

(** C8: on a sequence of samples the resampler of the source does what
    the spec says of [resample].  With equal rates the input is
    returned unchanged.  Otherwise it returns exactly when
    [floor(inputSampleCount / (fromRate / toRate))] is a number [n] that
    a buffer can hold and every output sample fits 16 bits, and what
    it returns are [n] samples, the one of index [i] being the rounded
    linear interpolation of the two input samples around the source
    position [i * ratio], or the last input sample where that position
    overruns the input, each stored on two little-endian bytes. *)
Theorem resampleAudio_samples (input : Buffer) (fromRate toRate : float) :
  blen input mod 2 = 0 -> blen input <= kMaxLength ->
  (PrimFloat.eqb fromRate toRate = true ->
   LiveKitService.resampleAudio input fromRate toRate = Ok input) /\
  (PrimFloat.eqb fromRate toRate = false ->
   forall out,
     LiveKitService.resampleAudio input fromRate toRate = Ok out <->
     exists n,
       AudioNormalizer.outputLength (samples input) fromRate toRate = Some n /\
       0 <= n /\ 2 * n <= kMaxLength /\
       Forall AudioNormalizer.fits_int16
         (AudioNormalizer.resample (samples input) fromRate toRate n) /\
       blen out = 2 * n /\
       out = concat (int16LE <$> AudioNormalizer.resample (samples input)
                                   fromRate toRate n)).
Proof.
  intros Heven Hmax. split.
  { intros Heq. unfold LiveKitService.resampleAudio. by rewrite Heq. }
  intros Hne out. rewrite resampleAudio_refines.
  unfold LiveKitService.resampleAudio_mapped. rewrite Hne.
  rewrite (outputSamples_outputLength input fromRate toRate Heven Hmax).
  destruct (AudioNormalizer.outputLength (samples input) fromRate toRate)
    as [n|] eqn:Hn.
  2:{ split; [done|]. by intros (n & ? & _). }
  destruct (Z.ltb_spec (n * 2) 0) as [Hneg|Hpos]; cbn [orb].
  { split; [done|]. intros (n' & [= <-] & ? & _). lia. }
  destruct (Z.ltb_spec kMaxLength (n * 2)) as [Hbig|Hsmall].
  { split; [done|]. intros (n' & [= <-] & _ & ? & _). lia. }
  assert (Hmap :
    mapR (fun i =>
            value <-! LiveKitService.output_sample input fromRate toRate i ;
            LiveKitService.encode_sample value) (seqZ 0 n)
    = mapR LiveKitService.encode_sample
        (AudioNormalizer.resample (samples input) fromRate toRate n)).
  { unfold AudioNormalizer.resample. rewrite <- mapR_fmap.
    apply mapR_ext_in. intros i Hi. apply elem_of_seqZ in Hi.
    unfold AudioNormalizer.outputLength in Hn.
    destruct (count_bound input Heven Hmax) as [Hc0 Hcb].
    destruct (div_floor_positive (Z.of_nat (length (samples input)))
                (PrimFloat.div fromRate toRate) n ltac:(lia) Hn ltac:(lia))
      as [Hcount Hratio].
    rewrite (output_sample_outputSample input fromRate toRate Heven Hmax i);
      [done| |lia|done].
    unfold kMaxLength in Hsmall. lia. }
  rewrite Hmap.
  set (values := AudioNormalizer.resample (samples input) fromRate toRate n).
  assert (Hlen : blen (concat (int16LE <$> values)) = 2 * n).
  { rewrite concat_int16LE_length. unfold values, AudioNormalizer.resample.
    rewrite length_fmap, length_seqZ. lia. }
  destruct (mapR LiveKitService.encode_sample values) as [encoded|e] eqn:Henc;
    cbn [rbind].
  - apply mapR_encode in Henc as [Hall ->]. split.
    + intros [= <-]. exists n. repeat split; [lia|lia|done|done].
    + intros (n' & [= <-] & _ & _ & _ & _ & ->). done.
  - split; [done|]. intros (n' & [= <-] & _ & _ & Hall & _).
    pose proof (proj2 (mapR_encode values (int16LE <$> values))
                  (conj Hall eq_refl)) as Hok.
    rewrite Henc in Hok. discriminate Hok.
Qed.

Lemma resampleAudio_samples_witness :
  (PrimFloat.eqb 8000 16000 = true ->
   LiveKitService.resampleAudio [x64; x00; xc8; x00; x70; xfe] 8000 16000
   = Ok [x64; x00; xc8; x00; x70; xfe]) /\
  (PrimFloat.eqb 8000 16000 = false ->
   forall out,
     LiveKitService.resampleAudio [x64; x00; xc8; x00; x70; xfe] 8000 16000
       = Ok out <->
     exists n,
       AudioNormalizer.outputLength
         (samples [x64; x00; xc8; x00; x70; xfe]) 8000 16000 = Some n /\
       0 <= n /\ 2 * n <= kMaxLength /\
       Forall AudioNormalizer.fits_int16
         (AudioNormalizer.resample
            (samples [x64; x00; xc8; x00; x70; xfe]) 8000 16000 n) /\
       blen out = 2 * n /\
       out = concat (int16LE <$> AudioNormalizer.resample
                       (samples [x64; x00; xc8; x00; x70; xfe])
                       8000 16000 n)).
Proof.
  apply (resampleAudio_samples [x64; x00; xc8; x00; x70; xfe] 8000 16000).
  - reflexivity.
  - vm_compute. discriminate.
Defined.

(** The samples of the spec for three samples brought from 8 kHz to
    16 kHz: the midpoints are interpolated and the last sample is
    repeated, as the source returns them. *)
Example resample_spec_8k_to_16k :
  AudioNormalizer.outputLength [100; 200; -400] 8000 16000 = Some 6 /\
  AudioNormalizer.resample [100; 200; -400] 8000 16000 6
  = Num.of_Z <$> [100; 150; 200; -100; -400; -400] /\
  LiveKitService.resampleAudio [x64; x00; xc8; x00; x70; xfe] 8000 16000
  = Ok (concat (int16LE <$> AudioNormalizer.resample [100; 200; -400]
                              8000 16000 6)).
Proof. repeat split; vm_compute; reflexivity. Qed.
